(** * Beacon SSE client: the framing parser and the line-protocol encoder

    A shallow embedding of [beacon-sse-client-event/main.py] (the encoder:
    [flatten_json], [json_event_to_line_protocol]) and of
    [beacon-sse-client-event/sse_client.py] (the stream loop:
    [SSEClient.getSSEStream]), together with the Python built-ins these
    functions call ([str.startswith], [str.isdigit], [str.strip], [int],
    [float], [str], [json.loads]).

    Conventions of the embedding.
    - A Python [str] is a list of Unicode code points ([list N]).  The
      character classes are those of Unicode 14 (CPython 3.11).
    - A Python [int] is a [Z]; the interpreter's optional limit on the length
      of int/str conversions and its recursion limit are not modelled.
    - A Python [float] is an IEEE 754 binary64 value ([spec_float] with
      precision 53 and maximal exponent 1024).
    - A Python [dict] is an association list in insertion order with unique
      keys; assignment to an existing key keeps the key's position.
    - An exception that leaves a function is a value [Raise e].
    - [time.sleep] is taken to accept the delay it is given: a client whose
      [retry_delay] it refuses (negative, not a number, too large) is
      outside the embedding of the stream loop, and the statements that
      depend on a sleep say so. *)

From Stdlib Require Import List ZArith NArith Bool Lia String Ascii.
From Stdlib Require Import Floats.SpecFloat.
Import ListNotations.
Open Scope list_scope.

Set Implicit Arguments.

(** ** Python strings *)

Module PyStr.

Definition char := N.
Definition str := list char.

(** An ASCII literal as a [str]. *)
Definition lit (s : string) : str :=
  List.map N_of_ascii (list_ascii_of_string s).

Definition char_eqb : char -> char -> bool := N.eqb.

Fixpoint eqb (a b : str) : bool :=
  match a, b with
  | [], [] => true
  | x :: a', y :: b' => N.eqb x y && eqb a' b'
  | _, _ => false
  end.

(** [t.startswith(p)] *)
Fixpoint startswith (p t : str) : bool :=
  match p, t with
  | [], _ => true
  | x :: p', y :: t' => N.eqb x y && startswith p' t'
  | _ :: _, [] => false
  end.

(** [t[n:]] for [n >= 0] *)
Definition slice_from (n : nat) (t : str) : str := skipn n t.

(** Truth value of a string: [bool(t)], as in [if t:] or [not t]. *)
Definition truthy (t : str) : bool :=
  match t with [] => false | _ :: _ => true end.

Definition in_ranges (c : char) (rs : list (N * N)) : bool :=
  existsb (fun r => (fst r <=? c)%N && (c <=? snd r)%N) rs.

(** Code points for which [str.isspace] holds. *)
Definition space_ranges : list (N * N) :=
  [(9, 13); (28, 32); (133, 133); (160, 160); (5760, 5760); (8192, 8202);
   (8232, 8233); (8239, 8239); (8287, 8287); (12288, 12288)]%N.

(** Code points with Numeric_Type=Decimal ([str.isdecimal]); within each
    range the digit value is the offset modulo ten. *)
Definition decimal_ranges : list (N * N) :=
  [(48, 57); (1632, 1641); (1776, 1785); (1984, 1993); (2406, 2415);
   (2534, 2543); (2662, 2671); (2790, 2799); (2918, 2927); (3046, 3055);
   (3174, 3183); (3302, 3311); (3430, 3439); (3558, 3567); (3664, 3673);
   (3792, 3801); (3872, 3881); (4160, 4169); (4240, 4249); (6112, 6121);
   (6160, 6169); (6470, 6479); (6608, 6617); (6784, 6793); (6800, 6809);
   (6992, 7001); (7088, 7097); (7232, 7241); (7248, 7257); (42528, 42537);
   (43216, 43225); (43264, 43273); (43472, 43481); (43504, 43513);
   (43600, 43609); (44016, 44025); (65296, 65305); (66720, 66729);
   (68912, 68921); (69734, 69743); (69872, 69881); (69942, 69951);
   (70096, 70105); (70384, 70393); (70736, 70745); (70864, 70873);
   (71248, 71257); (71360, 71369); (71472, 71481); (71904, 71913);
   (72016, 72025); (72784, 72793); (73040, 73049); (73120, 73129);
   (92768, 92777); (92864, 92873); (93008, 93017); (120782, 120831);
   (123200, 123209); (123632, 123641); (125264, 125273);
   (130032, 130041)]%N.

(** Code points with Numeric_Type=Digit that are not decimal: superscripts,
    subscripts, circled digits and the like. *)
Definition other_digit_ranges : list (N * N) :=
  [(178, 179); (185, 185); (4969, 4977); (6618, 6618); (8304, 8304);
   (8308, 8313); (8320, 8329); (9312, 9320); (9332, 9340); (9352, 9360);
   (9450, 9450); (9461, 9469); (9471, 9471); (10102, 10110);
   (10112, 10120); (10122, 10130); (68160, 68163); (69216, 69224);
   (69714, 69722); (127232, 127242)]%N.

Definition isspace_char (c : char) : bool := in_ranges c space_ranges.
Definition isdecimal_char (c : char) : bool := in_ranges c decimal_ranges.
Definition isdigit_char (c : char) : bool :=
  isdecimal_char c || in_ranges c other_digit_ranges.

(** [Py_UNICODE_TODECIMAL]: the value of a decimal digit. *)
Definition decimal_value (c : char) : option N :=
  match find (fun r => (fst r <=? c)%N && (c <=? snd r)%N) decimal_ranges with
  | Some r => Some ((c - fst r) mod 10)%N
  | None => None
  end.

(** [t.isdigit()]: every character is a digit and there is at least one. *)
Definition isdigit (t : str) : bool :=
  truthy t && forallb isdigit_char t.

Fixpoint lstrip (t : str) : str :=
  match t with
  | c :: t' => if isspace_char c then lstrip t' else t
  | [] => []
  end.

Definition rstrip (t : str) : str := rev (lstrip (rev t)).

(** [t.strip()] *)
Definition strip (t : str) : str := rstrip (lstrip t).

(** [sep.join(parts)] *)
Fixpoint join (sep : str) (parts : list str) : str :=
  match parts with
  | [] => []
  | [p] => p
  | p :: ps => p ++ sep ++ join sep ps
  end.

(** Decimal digits of a non-negative integer, most significant first. *)
Fixpoint uint_digits (u : Decimal.uint) : str :=
  match u with
  | Decimal.Nil => []
  | Decimal.D0 u' => 48%N :: uint_digits u'
  | Decimal.D1 u' => 49%N :: uint_digits u'
  | Decimal.D2 u' => 50%N :: uint_digits u'
  | Decimal.D3 u' => 51%N :: uint_digits u'
  | Decimal.D4 u' => 52%N :: uint_digits u'
  | Decimal.D5 u' => 53%N :: uint_digits u'
  | Decimal.D6 u' => 54%N :: uint_digits u'
  | Decimal.D7 u' => 55%N :: uint_digits u'
  | Decimal.D8 u' => 56%N :: uint_digits u'
  | Decimal.D9 u' => 57%N :: uint_digits u'
  end.

Definition N_digits (n : N) : str := uint_digits (N.to_uint n).

(** [str(z)] for an [int]. *)
Definition str_of_int (z : Z) : str :=
  match z with
  | Z0 => lit "0"
  | Zpos p => N_digits (Npos p)
  | Zneg p => lit "-" ++ N_digits (Npos p)
  end.

(** Value of a sequence of decimal digits read in base ten. *)
Fixpoint digits_value (acc : N) (t : str) : option N :=
  match t with
  | [] => Some acc
  | c :: t' =>
      match decimal_value c with
      | Some d => digits_value (10 * acc + d) t'
      | None => None
      end
  end.

End PyStr.

(** ** Python exceptions and results *)

Inductive exn :=
| ValueError
| JSONDecodeError
| RequestException
| OtherException
| KeyboardInterrupt.

(** The outcome of a call: a value, or an exception leaving the call. *)
Inductive result (A : Type) :=
| Ok (a : A)
| Raise (e : exn).

Arguments Ok {A} a.
Arguments Raise {A} e.

Definition bind {A B} (r : result A) (k : A -> result B) : result B :=
  match r with
  | Ok a => k a
  | Raise e => Raise e
  end.

Declare Scope py_scope.
Delimit Scope py_scope with py.
Notation "x <- r ;; k" := (bind r (fun x => k))
  (at level 61, r at next level, right associativity) : py_scope.

(** ** Python numbers: [int(str)], [float(str)], [str(float)] *)

Module PyNum.
Import PyStr.
Local Open Scope Z_scope.

Definition float := spec_float.
Definition prec : Z := 53.
Definition emax : Z := 1024.

Definition c_isspace (c : char) : bool :=
  ((9 <=? c) && (c <=? 13) || (c =? 32))%N.
Definition c_isdigit (c : char) : bool := ((48 <=? c) && (c <=? 57))%N.
Definition c_tolower (c : char) : char :=
  if ((65 <=? c) && (c <=? 90))%N then (c + 32)%N else c.

(** The conversion both [int] and [float] apply to a [str] argument first:
    characters below 127 are kept, other white space becomes a space, other
    decimal digits become ASCII digits, and the text is cut at the first
    other character, which becomes a question mark. *)
Fixpoint to_ascii (t : str) : str :=
  match t with
  | [] => []
  | c :: t' =>
      if (c <? 127)%N then c :: to_ascii t'
      else if isspace_char c then 32%N :: to_ascii t'
      else match decimal_value c with
           | Some d => (48 + d)%N :: to_ascii t'
           | None => [63%N]
           end
  end.

Fixpoint c_lstrip (t : str) : str :=
  match t with
  | c :: t' => if c_isspace c then c_lstrip t' else t
  | [] => []
  end.

Definition c_strip (t : str) : str := rev (c_lstrip (rev (c_lstrip t))).

(** Underscores are accepted only between two digits; they are removed. *)
Fixpoint drop_underscores (prev : option char) (t : str) : option str :=
  match t with
  | [] =>
      match prev with
      | Some 95%N => None
      | _ => Some []
      end
  | c :: t' =>
      if (c =? 95)%N then
        match prev with
        | Some p => if c_isdigit p then drop_underscores (Some c) t' else None
        | None => None
        end
      else
        match prev with
        | Some 95%N =>
            if c_isdigit c
            then option_map (cons c) (drop_underscores (Some c) t')
            else None
        | _ => option_map (cons c) (drop_underscores (Some c) t')
        end
  end.

(** An optional sign: [true] for minus. *)
Definition split_sign (t : str) : bool * str :=
  match t with
  | 45%N :: t' => (true, t')
  | 43%N :: t' => (false, t')
  | _ => (false, t)
  end.

(** [int(t)] for a [str] in base ten; the interpreter's limit on the
    number of digits (4300 by default) is left out. *)
Definition int_of_str (t : str) : result Z :=
  let '(neg, body) := split_sign (c_strip (to_ascii t)) in
  match drop_underscores None body with
  | Some ds =>
      if truthy ds && forallb c_isdigit ds then
        match digits_value 0%N ds with
        | Some n => Ok (if neg then - Z.of_N n else Z.of_N n)
        | None => Raise ValueError
        end
      else Raise ValueError
  | None => Raise ValueError
  end.

(** The longest prefix of ASCII digits, and the rest. *)
Fixpoint span_digits (t : str) : str * str :=
  match t with
  | c :: t' =>
      if c_isdigit c
      then let '(ds, r) := span_digits t' in (c :: ds, r)
      else ([], t)
  | [] => ([], [])
  end.

Definition digits_Z (ds : str) : Z :=
  match digits_value 0%N ds with
  | Some n => Z.of_N n
  | None => 0
  end.

(** The binary64 value nearest to [m * 10^q] (ties to even), with sign
    [neg]; a value too large becomes an infinity. *)
Definition round_decimal (neg : bool) (m q : Z) : float :=
  match m with
  | Zpos p =>
      if 0 <=? q then
        binary_round prec emax neg (Z.to_pos (m * 10 ^ q)) 0
      else
        let '(mz, ez, lz) :=
          SFdiv_core_binary prec emax m 0 (10 ^ (- q)) 0 in
        binary_round_aux prec emax neg mz ez lz
  | _ => S754_zero neg
  end.

(** The exponent part of a decimal literal: [e] or [E], an optional sign
    and at least one digit, up to the end of the text. *)
Definition parse_exponent (t : str) : option Z :=
  match t with
  | [] => Some 0
  | c :: t' =>
      if (c_tolower c =? 101)%N then
        let '(neg, ds) := split_sign t' in
        if truthy ds && forallb c_isdigit ds
        then Some (if neg then - digits_Z ds else digits_Z ds)
        else None
      else None
  end.

(** A decimal literal without its sign: digits, an optional point and
    digits (at least one digit in all), an optional exponent. *)
Definition parse_decimal (neg : bool) (t : str) : option float :=
  let '(ip, r1) := span_digits t in
  let '(fp, r2) :=
    match r1 with
    | 46%N :: r => span_digits r
    | _ => ([], r1)
    end in
  if truthy (ip ++ fp) then
    match parse_exponent r2 with
    | Some e =>
        Some (round_decimal neg (digits_Z (ip ++ fp))
                            (e - Z.of_nat (List.length fp)))
    | None => None
    end
  else None.

(** [inf], [infinity] and [nan] in any letter case. *)
Definition parse_inf_or_nan (neg : bool) (t : str) : option float :=
  let l := List.map c_tolower t in
  if eqb l (lit "inf") || eqb l (lit "infinity") then Some (S754_infinity neg)
  else if eqb l (lit "nan") then Some S754_nan
  else None.

(** [float(t)] for a [str]. *)
Definition float_of_str (t : str) : result float :=
  match drop_underscores None (c_strip (to_ascii t)) with
  | Some u =>
      let '(neg, body) := split_sign u in
      match parse_decimal neg body with
      | Some f => Ok f
      | None =>
          match parse_inf_or_nan neg body with
          | Some f => Ok f
          | None => Raise ValueError
          end
      end
  | None => Raise ValueError
  end.

(** *** [repr] of a float: the shortest digits that read back *)

Definition ndigits (z : Z) : Z := Z.of_nat (List.length (str_of_int z)).

(** [scale num den s] is the fraction [num/den * 10^s]. *)
Definition scale (num den s : Z) : Z * Z :=
  if 0 <=? s then (num * 10 ^ s, den) else (num, den * 10 ^ (- s)).

(** The position of the decimal point: the [k] with
    [10^(k-1) <= num/den < 10^k]. *)
Definition decimal_point (num den : Z) : Z :=
  let k0 := ndigits num - ndigits den in
  let '(sn, sd) := scale num den (- k0) in
  if sd <=? sn then k0 + 1 else k0.

(** The [n]-digit decimal nearest to [m * 2^e] among those that read back
    as the same float (ties to the even digit), if there is one. *)
Definition candidate (m : positive) (e : Z) (num den k n : Z) : option Z :=
  let '(sn, sd) := scale num den (n - k) in
  let lo := sn / sd in
  let r := sn mod sd in
  let hi := lo + 1 in
  let same d :=
    match round_decimal false d (k - n) with
    | S754_finite _ m' e' => Pos.eqb m m' && (e =? e')
    | _ => false
    end in
  let oklo := (0 <? lo) && same lo in
  let okhi := negb (r =? 0) && same hi in
  if oklo && okhi then
    match 2 * r ?= sd with
    | Lt => Some lo
    | Gt => Some hi
    | Eq => Some (if Z.even lo then lo else hi)
    end
  else if oklo then Some lo
  else if okhi then Some hi
  else None.

Fixpoint shortest_from (fuel : nat) (m : positive) (e : Z)
         (num den k n : Z) : Z * Z :=
  match fuel with
  | O => ((fst (scale num den (n - k))) / (snd (scale num den (n - k))), n)
  | S fuel' =>
      match candidate m e num den k n with
      | Some d => (d, n)
      | None => shortest_from fuel' m e num den k (n + 1)
      end
  end.

Fixpoint strip_trailing_zeros_rev (t : str) : str :=
  match t with
  | 48%N :: t' => strip_trailing_zeros_rev t'
  | _ => t
  end.

(** The digits of the shortest decimal that reads back as [m * 2^e], and
    the position of its decimal point. *)
Definition shortest_digits (m : positive) (e : Z) : str * Z :=
  let num := if 0 <=? e then Zpos m * 2 ^ e else Zpos m in
  let den := if 0 <=? e then 1 else 2 ^ (- e) in
  let k := decimal_point num den in
  let '(d, n) := shortest_from 17 m e num den k 1 in
  let ds := str_of_int d in
  (rev (strip_trailing_zeros_rev (rev ds)), k + (Z.of_nat (List.length ds) - n)).

Definition zeros (n : Z) : str := repeat 48%N (Z.to_nat n).

(** The layout of [repr]: positional for a decimal point in [(-4, 16]],
    with an exponent of at least two digits otherwise. *)
Definition format_digits (ds : str) (decpt : Z) : str :=
  if (-4 <? decpt) && (decpt <=? 16) then
    if decpt <=? 0 then lit "0." ++ zeros (- decpt) ++ ds
    else if Z.of_nat (List.length ds) <=? decpt
         then ds ++ zeros (decpt - Z.of_nat (List.length ds)) ++ lit ".0"
         else firstn (Z.to_nat decpt) ds ++ lit "." ++ skipn (Z.to_nat decpt) ds
  else
    let ex := decpt - 1 in
    let mant :=
      match ds with
      | [] => []
      | [d] => [d]
      | d :: tl => d :: lit "." ++ tl
      end in
    let exs := str_of_int (Z.abs ex) in
    mant ++ lit "e" ++ (if ex <? 0 then lit "-" else lit "+")
         ++ (if Z.abs ex <? 10 then lit "0" else []) ++ exs.

(** [str(f)] and [repr(f)] for a float. *)
Definition str_of_float (f : float) : str :=
  match f with
  | S754_nan => lit "nan"
  | S754_infinity neg => if neg then lit "-inf" else lit "inf"
  | S754_zero neg => if neg then lit "-0.0" else lit "0.0"
  | S754_finite neg m e =>
      let '(ds, decpt) := shortest_digits m e in
      (if neg then lit "-" else []) ++ format_digits ds decpt
  end.

End PyNum.

(** ** Python dictionaries *)

Module Dict.
Import PyStr.

(** Keys in insertion order, each key once. *)
Definition dict (V : Type) := list (str * V).

Definition empty {V} : dict V := [].

(** [d[k] = v] *)
Fixpoint set {V} (d : dict V) (k : str) (v : V) : dict V :=
  match d with
  | [] => [(k, v)]
  | (k', v') :: d' =>
      if eqb k' k then (k', v) :: d' else (k', v') :: set d' k v
  end.

(** [d.get(k)] *)
Fixpoint get {V} (d : dict V) (k : str) : option V :=
  match d with
  | [] => None
  | (k', v') :: d' => if eqb k' k then Some v' else get d' k
  end.

(** [d.update(other)] *)
Definition update {V} (d other : dict V) : dict V :=
  fold_left (fun acc kv => set acc (fst kv) (snd kv)) other d.

(** [list(d.keys())] *)
Definition keys {V} (d : dict V) : list str := List.map fst d.

(** [k in d] *)
Definition mem {V} (k : str) (d : dict V) : bool :=
  existsb (eqb k) (keys d).

End Dict.

(** ** [json.loads] *)

Module Json.
Import PyStr PyNum.

(** The scalars [json.loads] builds. *)
Inductive scalar :=
| SNone
| SBool (b : bool)
| SInt (z : Z)
| SFloat (f : float)
| SStr (s : str).

Unset Elimination Schemes.

(** The objects [json.loads] builds: scalars, lists and dictionaries. *)
Inductive value :=
| Leaf (a : scalar)
| PList (l : list value)
| PDict (d : list (str * value)).

Set Elimination Schemes.

Definition is_ws (c : char) : bool :=
  ((c =? 32) || (c =? 9) || (c =? 10) || (c =? 13))%N.

Fixpoint skip_ws (t : str) : str :=
  match t with
  | c :: t' => if is_ws c then skip_ws t' else t
  | [] => []
  end.

Definition hex_value (c : char) : option N :=
  if ((48 <=? c) && (c <=? 57))%N then Some (c - 48)%N
  else if ((97 <=? c) && (c <=? 102))%N then Some (c - 87)%N
  else if ((65 <=? c) && (c <=? 70))%N then Some (c - 55)%N
  else None.

Definition hex4 (a b c d : char) : option N :=
  match hex_value a, hex_value b, hex_value c, hex_value d with
  | Some x, Some y, Some z, Some w => Some (((x * 16 + y) * 16 + z) * 16 + w)%N
  | _, _, _, _ => None
  end.

Definition is_high_surrogate (c : N) : bool :=
  ((55296 <=? c) && (c <=? 56319))%N.
Definition is_low_surrogate (c : N) : bool :=
  ((56320 <=? c) && (c <=? 57343))%N.
Definition join_surrogates (hi lo : N) : N :=
  (65536 + (hi - 55296) * 1024 + (lo - 56320))%N.

(** The character a one-letter escape stands for. *)
Definition escape_char (c : char) : option char :=
  if (c =? 34)%N then Some 34%N
  else if (c =? 92)%N then Some 92%N
  else if (c =? 47)%N then Some 47%N
  else if (c =? 98)%N then Some 8%N
  else if (c =? 102)%N then Some 12%N
  else if (c =? 110)%N then Some 10%N
  else if (c =? 114)%N then Some 13%N
  else if (c =? 116)%N then Some 9%N
  else None.

Definition cons_fst (c : char) (r : option (str * str)) : option (str * str) :=
  match r with
  | Some (s, rest) => Some (c :: s, rest)
  | None => None
  end.

(** A string literal after its opening quote (strict mode): the decoded
    text and what follows the closing quote. *)
Fixpoint scanstring (t : str) : option (str * str) :=
  match t with
  | [] => None
  | c :: rest =>
      if (c =? 34)%N then Some ([], rest)
      else if (c =? 92)%N then
        match rest with
        | [] => None
        | e :: t2 =>
            if (e =? 117)%N then
              match t2 with
              | h1 :: h2 :: h3 :: h4 :: t3 =>
                  match hex4 h1 h2 h3 h4 with
                  | None => None
                  | Some u =>
                      match t3 with
                      | b :: x :: g1 :: g2 :: g3 :: g4 :: t4 =>
                          if is_high_surrogate u && (b =? 92)%N && (x =? 117)%N
                          then
                            match hex4 g1 g2 g3 g4 with
                            | None => None
                            | Some u2 =>
                                if is_low_surrogate u2
                                then cons_fst (join_surrogates u u2) (scanstring t4)
                                else cons_fst u (scanstring t3)
                            end
                          else cons_fst u (scanstring t3)
                      | _ => cons_fst u (scanstring t3)
                      end
                  end
              | _ => None
              end
            else
              match escape_char e with
              | Some d => cons_fst d (scanstring t2)
              | None => None
              end
        end
      else if (c <=? 31)%N then None
      else cons_fst c (scanstring rest)
  end.

(** A number literal: an integer part, an optional fraction and an optional
    exponent; it is a float when it has a fraction or an exponent. *)
Definition scan_number (t : str) : option (value * str) :=
  let '(sg, t1) :=
    match t with
    | c :: t' => if (c =? 45)%N then ([c], t') else ([], t)
    | [] => ([], t)
    end in
  match t1 with
  | [] => None
  | c :: t2 =>
      let int_part :=
        if ((49 <=? c) && (c <=? 57))%N
        then let '(ds, r) := span_digits t2 in Some (c :: ds, r)
        else if (c =? 48)%N then Some ([c], t2)
        else None in
      match int_part with
      | None => None
      | Some (ip, r1) =>
          let '(fp, r2) :=
            match r1 with
            | d :: r =>
                if (d =? 46)%N then
                  let '(ds, r') := span_digits r in
                  if truthy ds then (d :: ds, r') else ([], r1)
                else ([], r1)
            | [] => ([], r1)
            end in
          let '(ep, r3) :=
            match r2 with
            | d :: r =>
                if ((d =? 101) || (d =? 69))%N then
                  let '(es, r') :=
                    match r with
                    | s :: x => if ((s =? 45) || (s =? 43))%N then ([s], x) else ([], r)
                    | [] => ([], r)
                    end in
                  let '(ds, r'') := span_digits r' in
                  if truthy ds then (d :: es ++ ds, r'') else ([], r2)
                else ([], r2)
            | [] => ([], r2)
            end in
          let text := sg ++ ip ++ fp ++ ep in
          if truthy fp || truthy ep then
            match float_of_str text with
            | Ok f => Some (Leaf (SFloat f), r3)
            | Raise _ => None
            end
          else
            match int_of_str text with
            | Ok z => Some (Leaf (SInt z), r3)
            | Raise _ => None
            end
      end
  end.

(** Outcome of scanning: a value and the rest of the text, a syntax error,
    or the recursion budget spent. *)
Inductive pres :=
| POk (v : value) (rest : str)
| PErr
| PFuel.

Definition keyword (w : string) (v : value) (t : str) : option pres :=
  if startswith (lit w) t
  then Some (POk v (skipn (String.length w) t))
  else None.

Definition of_option (o : option (value * str)) : pres :=
  match o with
  | Some (v, r) => POk v r
  | None => PErr
  end.

(** The scanner: [scan_once] reads one value, [scan_members] the members
    of an object after its first quote is due, [scan_elements] the elements
    of an array. *)
Fixpoint scan_once (fuel : nat) (t : str) : pres :=
  match fuel with
  | O => PFuel
  | S fuel' =>
      match t with
      | [] => PErr
      | c :: t' =>
          if (c =? 34)%N then
            match scanstring t' with
            | Some (s, r) => POk (Leaf (SStr s)) r
            | None => PErr
            end
          else if (c =? 123)%N then
            match skip_ws t' with
            | d :: r =>
                if (d =? 125)%N then POk (PDict []) r
                else scan_members fuel' (d :: r) []
            | [] => PErr
            end
          else if (c =? 91)%N then
            match skip_ws t' with
            | d :: r =>
                if (d =? 93)%N then POk (PList []) r
                else scan_elements fuel' (d :: r) []
            | [] => PErr
            end
          else
            match
              (if (c =? 110)%N then keyword "null" (Leaf SNone) t
               else if (c =? 116)%N then keyword "true" (Leaf (SBool true)) t
               else if (c =? 102)%N then keyword "false" (Leaf (SBool false)) t
               else if (c =? 78)%N then keyword "NaN" (Leaf (SFloat S754_nan)) t
               else if (c =? 73)%N
                    then keyword "Infinity" (Leaf (SFloat (S754_infinity false))) t
               else if (c =? 45)%N
                    then keyword "-Infinity" (Leaf (SFloat (S754_infinity true))) t
               else None)
            with
            | Some r => r
            | None => of_option (scan_number t)
            end
      end
  end
with scan_members (fuel : nat) (t : str) (acc : list (str * value)) : pres :=
  match fuel with
  | O => PFuel
  | S fuel' =>
      match t with
      | [] => PErr
      | c :: t1 =>
          if (c =? 34)%N then
            match scanstring t1 with
            | None => PErr
            | Some (key, t2) =>
                match skip_ws t2 with
                | d :: t3 =>
                    if (d =? 58)%N then
                      match scan_once fuel' (skip_ws t3) with
                      | POk v t4 =>
                          let acc' := Dict.set acc key v in
                          match skip_ws t4 with
                          | e :: r =>
                              if (e =? 125)%N then POk (PDict acc') r
                              else if (e =? 44)%N
                                   then scan_members fuel' (skip_ws r) acc'
                                   else PErr
                          | [] => PErr
                          end
                      | PErr => PErr
                      | PFuel => PFuel
                      end
                    else PErr
                | [] => PErr
                end
            end
          else PErr
      end
  end
with scan_elements (fuel : nat) (t : str) (acc : list value) : pres :=
  match fuel with
  | O => PFuel
  | S fuel' =>
      match scan_once fuel' t with
      | POk v t1 =>
          match skip_ws t1 with
          | e :: r =>
              if (e =? 93)%N then POk (PList (acc ++ [v])) r
              else if (e =? 44)%N
                   then scan_elements fuel' (skip_ws r) (acc ++ [v])
                   else PErr
          | [] => PErr
          end
      | PErr => PErr
      | PFuel => PFuel
      end
  end.

(** [json.loads(t)] for a [str]: a byte-order mark is refused, white space
    around the value is skipped, and nothing else may follow it.  The
    interpreter's limits are left out: a number literal of more than 4300
    digits and nesting beyond the recursion limit are read like any
    other. *)
Definition loads (t : str) : result value :=
  if startswith [65279%N] t then Raise JSONDecodeError
  else
    match scan_once (2 * List.length t + 2) (skip_ws t) with
    | POk v r =>
        match skip_ws r with
        | [] => Ok v
        | _ :: _ => Raise JSONDecodeError
        end
    | PErr => Raise JSONDecodeError
    | PFuel => Raise JSONDecodeError
    end.

End Json.

(** ** [main.py]: the line-protocol encoder *)

Module Main.
Import PyStr PyNum Json.
Local Open Scope py_scope.

(** Python classes of the scalars; [bool] is a subclass of [int]. *)
Inductive pyclass := c_NoneType | c_bool | c_int | c_float | c_str.

Definition type_of (a : scalar) : pyclass :=
  match a with
  | SNone => c_NoneType
  | SBool _ => c_bool
  | SInt _ => c_int
  | SFloat _ => c_float
  | SStr _ => c_str
  end.

Definition issubclass (c d : pyclass) : bool :=
  match c, d with
  | c_NoneType, c_NoneType => true
  | c_bool, c_bool => true
  | c_bool, c_int => true
  | c_int, c_int => true
  | c_float, c_float => true
  | c_str, c_str => true
  | _, _ => false
  end.

(** [isinstance(a, (c1, ..., cn))] *)
Definition isinstance (a : scalar) (cs : list pyclass) : bool :=
  existsb (issubclass (type_of a)) cs.

(** [str(a)] *)
Definition py_str (a : scalar) : str :=
  match a with
  | SNone => lit "None"
  | SBool b => if b then lit "True" else lit "False"
  | SInt z => str_of_int z
  | SFloat f => str_of_float f
  | SStr s => s
  end.

(** Truth value of a scalar, as in [x if a else y]. *)
Definition truth (a : scalar) : bool :=
  match a with
  | SNone => false
  | SBool b => b
  | SInt z => negb (Z.eqb z 0)
  | SFloat f =>
      match f with
      | S754_zero _ => false
      | _ => true
      end
  | SStr s => truthy s
  end.

Definition IGNORED_FIELDS : list str :=
  List.map lit
    ["aggregation_bits";
     "signature";
     "data_source_root";
     "data_target_root";
     "block";
     "state";
     "previous_duty_dependent_root";
     "current_duty_dependent_root";
     "signed_header_1_message_parent_root";
     "signed_header_1_message_state_root";
     "signed_header_1_message_body_root";
     "signed_header_1_signature";
     "signed_header_2_message_parent_root";
     "signed_header_2_message_state_root";
     "signed_header_2_message_body_root";
     "signed_header_2_signature";
     "attestation_1_data_source_root";
     "attestation_1_data_target_root";
     "attestation_1_signature";
     "attestation_2_data_source_root";
     "attestation_2_data_target_root";
     "attestation_2_signature";
     "message_from_bls_pubkey";
     "message_to_execution_address";
     "message_contribution_beacon_block_root";
     "old_head_block";
     "new_head_block";
     "old_head_state";
     "new_head_state";
     "message_contribution_aggregation_bits";
     "message_contribution_signature";
     "message_selection_proof";
     "data_attested_header_beacon_parent_root";
     "data_attested_header_beacon_state_root";
     "data_attested_header_beacon_body_root";
     "data_finalized_header_beacon_parent_root";
     "data_finalized_header_beacon_state_root";
     "data_finalized_header_beacon_body_root";
     "data_sync_aggregate_sync_committee_bits";
     "data_sync_aggregate_sync_committee_signature";
     "data_parent_block_root";
     "data_parent_block_hash";
     "data_payload_attributes_prev_randao";
     "data_payload_attributes_suggested_fee_recipient";
     "block_root";
     "kzg_commitment";
     "versioned_hash"]%string.

(** [key in IGNORED_FIELDS] *)
Definition ignored (key : str) : bool := existsb (eqb key) IGNORED_FIELDS.

(** [f'"{s}"'] *)
Definition quoted (s : str) : str := [34%N] ++ s ++ [34%N].

(** [f"{prefix}_{k}" if prefix else k] *)
Definition child_key (prefix k : str) : str :=
  if truthy prefix then prefix ++ lit "_" ++ k else k.

(** The branches of [flatten_json] for a value that is neither a [dict] nor
    a [list]; [items] is empty when they run. *)
Definition flatten_leaf (data : scalar) (prefix : str) : result (Dict.dict str) :=
  let items := Dict.empty in
  match data with
  | SStr s =>
      if startswith (lit "0x") s then
        Ok (Dict.set items prefix (quoted s))
      else if isdigit s then
        n <- int_of_str s ;;
        Ok (Dict.set items prefix (str_of_int n ++ lit "i"))
      else
        match float_of_str s with
        | Ok float_val => Ok (Dict.set items prefix (py_str (SFloat float_val)))
        | Raise ValueError => Ok (Dict.set items prefix (quoted s))
        | Raise e => Raise e
        end
  | _ =>
      if isinstance data [c_int; c_float] then
        Ok (Dict.set items prefix (py_str data))
      else if isinstance data [c_bool] then
        Ok (Dict.set items prefix (if truth data then lit "true" else lit "false"))
      else
        Ok (Dict.set items prefix (quoted (py_str data)))
  end.

(** [flatten_json(data, prefix)] *)
Fixpoint flatten_json (data : value) (prefix : str) {struct data}
  : result (Dict.dict str) :=
  match data with
  | PDict d =>
      (fix loop (kvs : list (str * value)) (items : Dict.dict str)
         : result (Dict.dict str) :=
         match kvs with
         | [] => Ok items
         | (k, v) :: kvs' =>
             let key := child_key prefix k in
             if ignored key then loop kvs' items
             else
               sub <- flatten_json v key ;;
               loop kvs' (Dict.update items sub)
         end) d Dict.empty
  | PList _ => Ok Dict.empty
  | Leaf a => flatten_leaf a prefix
  end.

(** [f"{k}={v}" for k, v in fields.items()] *)
Definition field_entries (fields : Dict.dict str) : list str :=
  List.map (fun kv => fst kv ++ lit "=" ++ snd kv) fields.

(** [json_event_to_line_protocol(event_type, data_str, source, network)];
    [timestamp] is the value [time.time_ns()] returns during the call. *)
Definition json_event_to_line_protocol (timestamp : Z)
           (event_type data_str source network : str) : result (option str) :=
  match loads data_str with
  | Raise JSONDecodeError => Ok None
  | Raise e => Raise e
  | Ok data_json =>
      fields <- flatten_json data_json [] ;;
      let fields := Dict.set fields (lit "count") (lit "1i") in
      let fields_str := join (lit ",") (field_entries fields) in
      let endpoint := lit "/eth/v1/events" in
      Ok (Some (lit "beacon_event,event_type=" ++ event_type
                  ++ lit ",source=" ++ source
                  ++ lit ",network=" ++ network
                  ++ lit ",endpoint=" ++ endpoint
                  ++ lit " " ++ fields_str
                  ++ lit " " ++ str_of_int timestamp))
  end.

Definition is_surrogate (c : char) : bool := ((55296 <=? c) && (c <=? 57343))%N.

(** [post_event(event_type, data_str, source, network)]: the lines handed
    to [requests.post], in order.  An exception raised inside the [try]
    (a line that cannot be encoded as UTF-8, a transport error) is caught
    there. *)
Definition post_event (timestamp : Z)
           (event_type data_str source network : str) : result (list str) :=
  line <- json_event_to_line_protocol timestamp event_type data_str source network ;;
  match line with
  | None => Ok []
  | Some l =>
      if negb (truthy l) then Ok []
      else if existsb is_surrogate l then Ok []
      else Ok [l]
  end.

End Main.

(** ** [sse_client.py]: the stream loop *)

Module SseClient.
Import PyStr.

(** Whether [except Exception] catches the exception, and whether
    [except (RequestException, Timeout)] does. *)
Definition is_Exception (e : exn) : bool :=
  match e with
  | KeyboardInterrupt => false
  | _ => true
  end.

Definition is_RequestException (e : exn) : bool :=
  match e with
  | RequestException => true
  | _ => false
  end.

(** What the network does for one [requests.get]: the call raises, or it
    returns a response whose body is a sequence of lines followed by the end
    of the stream or by an exception raised while reading. *)
Record response := {
  status_code : Z;
  body : list str;
  body_end : option exn
}.

Inductive attempt :=
| ConnectRaises (e : exn)
| Connected (r : response).

(** What the loop does that its environment can see. *)
Inductive action :=
| Connect
| Sleep (seconds : PyNum.float)
| Dispatch (event_type data : str).

(** How a call ends: it returns, an exception leaves it, or it is still
    blocked in [requests.get] when the script of the network is used up. *)
Inductive outcome :=
| Returned
| Raised (e : exn)
| Waiting.

Record SSEClient := {
  retry_delay : PyNum.float;
  has_on_event : bool
}.

(** [self.stop_event.is_set()]: the event is set by another thread; it is
    observed as set from the [stop_after]-th call on. *)
Definition is_set (stop_after : option nat) (calls : nat) : bool :=
  match stop_after with
  | Some n => Nat.leb n calls
  | None => false
  end.

(** Truth value of [event_type], which is [None] or a string. *)
Definition have_kind (event_type : option str) : bool :=
  match event_type with
  | Some k => truthy k
  | None => false
  end.

(** [self._run_event_function(event_type, data)] *)
Definition _run_event_function (self : SSEClient) (event_type data : str)
  : list action :=
  if has_on_event self then [Dispatch event_type data] else [].

(** The body of the [for line in response.iter_lines(...)] loop after the
    stop check: the new [event_type] and the handler calls made. *)
Definition on_line (self : SSEClient) (event_type : option str) (line : str)
  : option str * list action :=
  if negb (truthy line) then (event_type, [])
  else if startswith (lit "event:") line then
    (Some (strip (slice_from 6 line)), [])
  else if startswith (lit "data:") line && have_kind event_type then
    let data := strip (slice_from 5 line) in
    match event_type with
    | Some k => (None, _run_event_function self k data)
    | None => (event_type, [])
    end
  else (event_type, []).

(** The [for] loop over the lines of one response: the number of
    [is_set] calls made so far, the actions, and whether the loop was left
    by [break]. *)
Fixpoint read_lines (self : SSEClient) (stop_after : option nat)
         (calls : nat) (event_type : option str) (lines : list str)
  : nat * list action * bool :=
  match lines with
  | [] => (calls, [], false)
  | line :: rest =>
      if is_set stop_after calls then (S calls, [], true)
      else
        let '(event_type', acts) := on_line self event_type line in
        let '(calls', acts', stopped) :=
          read_lines self stop_after (S calls) event_type' rest in
        (calls', acts ++ acts', stopped)
  end.

(** The handlers of the [try]: an [Exception] is logged and followed by a
    sleep, after which the [while] loop goes on; anything else leaves. *)
Definition caught (e : exn) : bool :=
  is_RequestException e || is_Exception e.

(** [getSSEStream(self)] against a script of the network's behaviour, one
    entry per [requests.get]. *)
Fixpoint getSSEStream_from (self : SSEClient) (stop_after : option nat)
         (calls : nat) (script : list attempt) {struct script}
  : list action * outcome :=
  if is_set stop_after calls then ([], Returned)
  else
    match script with
    | [] => ([], Waiting)
    | a :: script' =>
        let continue_ calls' acts :=
          let '(acts', out) := getSSEStream_from self stop_after calls' script' in
          (acts ++ acts', out) in
        let handle calls' acts e :=
          if caught e
          then continue_ calls' (acts ++ [Sleep (retry_delay self)])
          else (acts, Raised e) in
        match a with
        | ConnectRaises e => handle (S calls) [Connect] e
        | Connected r =>
            if negb (Z.eqb (status_code r) 200) then
              continue_ (S calls) [Connect; Sleep (retry_delay self)]
            else
              let '(calls', acts, stopped) :=
                read_lines self stop_after (S calls) None (body r) in
              if stopped then continue_ calls' (Connect :: acts)
              else
                match body_end r with
                | None => continue_ calls' (Connect :: acts)
                | Some e => handle calls' (Connect :: acts) e
                end
        end
    end.

Definition getSSEStream (self : SSEClient) (stop_after : option nat)
           (script : list attempt) : list action * outcome :=
  getSSEStream_from self stop_after 0 script.

(** The events one response yields when no stop is requested: the lines
    are folded with [on_line] from [event_type = None]. *)
Fixpoint parse_from (self : SSEClient) (event_type : option str)
         (lines : list str) : option str * list action :=
  match lines with
  | [] => (event_type, [])
  | line :: rest =>
      let '(event_type', acts) := on_line self event_type line in
      let '(final, acts') := parse_from self event_type' rest in
      (final, acts ++ acts')
  end.

Definition parse_lines (self : SSEClient) (lines : list str)
  : option str * list action :=
  parse_from self None lines.

End SseClient.

(** ** [main.py]: substitution of environment variables in the configs *)

Module Config.
Import PyStr Json.
Local Open Scope py_scope.

(** The longest run of characters other than the closing brace, and the
    rest of the text. *)
Fixpoint span_name (t : str) : str * str :=
  match t with
  | c :: t' =>
      if (c =? 125)%N then ([], t)
      else let '(name, rest) := span_name t' in (c :: name, rest)
  | [] => ([], [])
  end.

(** [re.findall(r"\$\{([^}]+)\}", t)]: the names between a dollar-brace and
    the next closing brace, from left to right without overlap; [skip]
    characters of [t] belong to the match just found. *)
Fixpoint findall_from (skip : nat) (t : str) : list str :=
  match t with
  | [] => []
  | c :: t' =>
      match skip with
      | S k => findall_from k t'
      | O =>
          match t' with
          | b :: t'' =>
              if ((c =? 36) && (b =? 123))%N then
                let '(name, rest) := span_name t'' in
                if truthy name && truthy rest
                then name :: findall_from (List.length name + 2) t'
                else findall_from 0 t'
              else findall_from 0 t'
          | [] => []
          end
      end
  end.

Definition findall (t : str) : list str := findall_from 0 t.

(** [t.replace(old, new)]: every occurrence of [old], from left to right
    without overlap, becomes [new]. *)
Fixpoint replace_from (skip : nat) (old new t : str) : str :=
  match t with
  | [] => []
  | c :: t' =>
      match skip with
      | S k => replace_from k old new t'
      | O =>
          if startswith old t
          then new ++ replace_from (List.length old - 1) old new t'
          else c :: replace_from 0 old new t'
      end
  end.

Definition replace (old new t : str) : str :=
  match old with
  | [] => new ++ flat_map (fun c => c :: new) t
  | _ :: _ => replace_from 0 old new t
  end.

(** [f"${{{var}}}"] *)
Definition placeholder (var : str) : str := lit "${" ++ var ++ lit "}".

Section Environment.

(** [os.getenv]: the value of a variable, [None] when it is not set; the
    call raises on a name that cannot be encoded. *)
Variable getenv : str -> result (option str).

(** The [for var in matches] loop on one string value. *)
Fixpoint substitute_vars (matches : list str) (value : str) : result str :=
  match matches with
  | [] => Ok value
  | var :: rest =>
      env_val <- getenv var ;;
      match env_val with
      | Some ev =>
          if truthy ev
          then substitute_vars rest (replace (placeholder var) ev value)
          else substitute_vars rest value
      | None => substitute_vars rest value
      end
  end.

Definition substitute (value : str) : result str :=
  substitute_vars (findall value) value.

(** The [for key, value in cfg.items()] loop: string values are
    substituted and assigned back under their key. *)
Fixpoint replace_items (items : list (str * value)) (cfg : Dict.dict value)
  : result (Dict.dict value) :=
  match items with
  | [] => Ok cfg
  | (key, v) :: rest =>
      match v with
      | Leaf (SStr s) =>
          s' <- substitute s ;;
          replace_items rest (Dict.set cfg key (Leaf (SStr s')))
      | _ => replace_items rest cfg
      end
  end.

(** [replace_env_variables_in_config(configs)] for a list of
    dictionaries. *)
Fixpoint replace_env_variables_in_config (configs : list (Dict.dict value))
  : result (list (Dict.dict value)) :=
  match configs with
  | [] => Ok []
  | cfg :: rest =>
      cfg' <- replace_items cfg cfg ;;
      rest' <- replace_env_variables_in_config rest ;;
      Ok (cfg' :: rest')
  end.

End Environment.

End Config.

(** * Definitions used to state the properties *)

(** ** The framing state machine *)

Module Framing.
Import PyStr SseClient.

Inductive state :=
| IDLE
| HAVE_KIND (kind : str).

(** The kinds of framing line. *)
Inductive frame :=
| Blank
| EventLine (kind : str)
| DataLine (payload : str)
| OtherLine.

Definition classify (line : str) : frame :=
  if negb (truthy line) then Blank
  else if startswith (lit "event:") line then EventLine (strip (slice_from 6 line))
  else if startswith (lit "data:") line then DataLine (strip (slice_from 5 line))
  else OtherLine.

(** A parsed event: its kind and its payload. *)
Definition RawEvent := (str * str)%type.

(** The machine in the words of the specification: an event line always
    buffers its kind; a data line emits when a kind is buffered. *)
Definition step (s : state) (f : frame) : state * list RawEvent :=
  match f with
  | Blank => (s, [])
  | EventLine k => (HAVE_KIND k, [])
  | DataLine d =>
      match s with
      | HAVE_KIND k => (IDLE, [(k, d)])
      | IDLE => (IDLE, [])
      end
  | OtherLine => (s, [])
  end.

(** The same machine, except that an event line whose kind is empty buffers
    nothing and leaves the machine in [IDLE]. *)
Definition step_guarded (s : state) (f : frame) : state * list RawEvent :=
  match f with
  | EventLine k => if truthy k then (HAVE_KIND k, []) else (IDLE, [])
  | _ => step s f
  end.

Fixpoint run (stp : state -> frame -> state * list RawEvent)
         (s : state) (lines : list str) : state * list RawEvent :=
  match lines with
  | [] => (s, [])
  | line :: rest =>
      let '(s', evs) := stp s (classify line) in
      let '(final, evs') := run stp s' rest in
      (final, evs ++ evs')
  end.

(** The machine state the variable [event_type] of the loop stands for. *)
Definition state_of (event_type : option str) : state :=
  match event_type with
  | Some k => if truthy k then HAVE_KIND k else IDLE
  | None => IDLE
  end.

(** The handler calls a list of events gives rise to. *)
Definition dispatches (self : SSEClient) (evs : list RawEvent) : list action :=
  flat_map (fun ev => _run_event_function self (fst ev) (snd ev)) evs.

Definition client : SSEClient :=
  {| retry_delay := S754_finite false 5629499534213120 (-50);
     has_on_event := true |}.

End Framing.

(** ** Observations on a run of the stream loop *)

Module Stream.
Import PyStr SseClient.

Definition is_connect (a : action) : bool :=
  match a with
  | Connect => true
  | _ => false
  end.

Definition is_sleep (a : action) : bool :=
  match a with
  | Sleep _ => true
  | _ => false
  end.

(** Number of [requests.get] calls and of [time.sleep] calls in a run. *)
Definition connects (acts : list action) : nat :=
  List.length (filter is_connect acts).
Definition sleeps (acts : list action) : nat :=
  List.length (filter is_sleep acts).

(** The attempt does not yield a stream that ends normally: the connect
    raises, the status is not 200, or reading the body raises. *)
Definition failed (a : attempt) : bool :=
  match a with
  | ConnectRaises _ => true
  | Connected r =>
      negb (Z.eqb (status_code r) 200)
      || match body_end r with
         | Some _ => true
         | None => false
         end
  end.

(** Every exception of the attempt is an [Exception]. *)
Definition only_Exceptions (a : attempt) : bool :=
  match a with
  | ConnectRaises e => is_Exception e
  | Connected r =>
      match body_end r with
      | Some e => is_Exception e
      | None => true
      end
  end.

(** A response with status 503, one whose body read times out after an
    event, and one that carries an event and ends. *)
Definition unavailable : response :=
  {| status_code := 503; body := []; body_end := None |}.

Definition broken : response :=
  {| status_code := 200;
     body := [lit "event: head"; lit "data: {}"];
     body_end := Some RequestException |}.

Definition one_event : response :=
  {| status_code := 200;
     body := [lit "event: head"; []; lit "data: {}"];
     body_end := None |}.

End Stream.

(** ** The record behind a wire line *)

Module Record.
Import PyStr PyNum Json Main.
Local Open Scope py_scope.

(** An ASCII literal in which every apostrophe stands for a double quote. *)
Definition dq (s : string) : str :=
  List.map (fun c => if (c =? 39)%N then 34%N else c) (lit s).

(** The tags of a record, in the order the f-string writes them. *)
Definition record_tags (event_type source network : str) : list (str * str) :=
  [(lit "event_type", event_type); (lit "source", source);
   (lit "network", network); (lit "endpoint", lit "/eth/v1/events")].

Definition tag_keys : list str :=
  [lit "event_type"; lit "source"; lit "network"; lit "endpoint"].

(** The fields of a record: the flattened payload, then [count]. *)
Definition record_fields (data_json : value) : result (Dict.dict str) :=
  fields <- flatten_json data_json [] ;;
  Ok (Dict.set fields (lit "count") (lit "1i")).

(** The layout of a wire line: measurement and tags, fields, timestamp. *)
Definition serialize (measurement : str) (tags : list (str * str))
           (fields : Dict.dict str) (timestamp : Z) : str :=
  measurement
    ++ List.concat
         (List.map (fun kv => lit "," ++ fst kv ++ lit "=" ++ snd kv) tags)
    ++ lit " " ++ join (lit ",") (field_entries fields)
    ++ lit " " ++ str_of_int timestamp.




End Record.

(** ** The leaves that flattening keeps *)

Module Flatten.
Import PyStr Json Main.

(** [reaches data prefix path visited]: [path] is the flattened path of a
    scalar of [data] that is reached through object members only, never
    through an array; [visited] lists the flattened paths of the members
    passed on the way, the scalar's own path last. *)
Inductive reaches : value -> str -> str -> list str -> Prop :=
| reaches_leaf (a : scalar) (prefix : str) :
    reaches (Leaf a) prefix prefix []
| reaches_member (d : list (str * value)) (prefix k : str) (v : value)
                 (path : str) (visited : list str) :
    In (k, v) d ->
    reaches v (child_key prefix k) path visited ->
    reaches (PDict d) prefix path (child_key prefix k :: visited).

(** No path passed on the way is in the Ignore-Set. *)
Definition kept (visited : list str) : Prop :=
  Forall (fun q => ignored q = false) visited.

(** The field names are exactly the paths of the kept scalars. *)
Definition fields_are_kept_leaves (data : value) (prefix : str)
           (items : Dict.dict str) : Prop :=
  forall path,
    In path (Dict.keys items)
    <-> exists visited, reaches data prefix path visited /\ kept visited.

End Flatten.

(** ** The loop of [flatten_json] over the members of a dictionary *)

Module FlattenLoop.
Import PyStr Json Main.
Local Open Scope py_scope.

(** The [for k, v in data.items()] loop, started with [items]. *)
Fixpoint flatten_members (prefix : str) (kvs : list (str * value))
         (items : Dict.dict str) : result (Dict.dict str) :=
  match kvs with
  | [] => Ok items
  | (k, v) :: kvs' =>
      let key := child_key prefix k in
      if ignored key then flatten_members prefix kvs' items
      else
        sub <- flatten_json v key ;;
        flatten_members prefix kvs' (Dict.update items sub)
  end.

End FlattenLoop.

(** ** Sample payloads *)

Module Samples.
Import PyStr PyNum Json Main.

(** An object with an ignored member, an ignored nested member, an array
    holding an object, and one kept scalar. *)
Definition nested : value :=
  PDict
    [(lit "block", PDict [(lit "x", Leaf (SInt 1))]);
     (lit "data",
      PDict
        [(lit "source_root", Leaf (SStr (lit "0x1")));
         (lit "b", PList [Leaf (SInt 1); PDict [(lit "c", Leaf (SInt 2))]]);
         (lit "d", Leaf (SStr (lit "7")))])].

(** The superscript two: a digit for [str.isdigit], not a decimal digit. *)
Definition superscript_two : str := [178%N].

End Samples.

From Stdlib Require DecimalPos DecimalN.

(** ** The kept scalars of a payload, in the order flattening meets them *)

Module Leaves.
Import PyStr Json Main.
Local Open Scope py_scope.

(** The scalars under the members [kvs] of an object and under a value,
    each with its flattened path: members whose path is in the Ignore-Set
    and arrays contribute nothing. *)
Fixpoint kept_leaves (data : value) (prefix : str) {struct data}
  : list (str * scalar) :=
  match data with
  | Leaf a => [(prefix, a)]
  | PList _ => []
  | PDict d =>
      (fix members (kvs : list (str * value)) : list (str * scalar) :=
         match kvs with
         | [] => []
         | (k, v) :: kvs' =>
             if ignored (child_key prefix k) then members kvs'
             else kept_leaves v (child_key prefix k) ++ members kvs'
         end) d
  end.

Fixpoint kept_members (prefix : str) (kvs : list (str * value))
  : list (str * scalar) :=
  match kvs with
  | [] => []
  | (k, v) :: kvs' =>
      if ignored (child_key prefix k) then kept_members prefix kvs'
      else kept_leaves v (child_key prefix k) ++ kept_members prefix kvs'
  end.

(** The entries the leaves give, leaf by leaf; the first leaf that raises
    ends the rendering. *)
Fixpoint render_leaves (leaves : list (str * scalar)) : result (list (str * str)) :=
  match leaves with
  | [] => Ok []
  | (path, a) :: rest =>
      sub <- flatten_leaf a path ;;
      entries <- render_leaves rest ;;
      Ok (sub ++ entries)
  end.

(** [dict(entries)]: the dictionary built from a list of pairs. *)
Definition dict_of (entries : list (str * str)) : Dict.dict str :=
  Dict.update Dict.empty entries.

(** The value of the last entry under a key. *)
Fixpoint last_value (entries : list (str * str)) (k : str) : option str :=
  match entries with
  | [] => None
  | (k', v) :: rest =>
      match last_value rest k with
      | Some w => Some w
      | None => if eqb k' k then Some v else None
      end
  end.

End Leaves.

(** ** Field names as chains of keys *)

Module Paths.
Import PyStr Json Main.

(** [member_chain data keys a]: following [keys] through nested objects
    of [data], one member per key, ends at the scalar [a]. *)
Inductive member_chain : value -> list str -> scalar -> Prop :=
| chain_leaf (a : scalar) : member_chain (Leaf a) [] a
| chain_member (d : list (str * value)) (k : str) (v : value)
               (keys : list str) (a : scalar) :
    In (k, v) d -> member_chain v keys a ->
    member_chain (PDict d) (k :: keys) a.

Fixpoint drop_empty (keys : list str) : list str :=
  match keys with
  | k :: keys' => if truthy k then keys else drop_empty keys'
  | [] => []
  end.

(** The keys joined by underscores, empty keys at the front left out. *)
Definition flat_path (keys : list str) : str :=
  join (lit "_") (drop_empty keys).

(** The path [flatten_json] builds along a chain of keys from [prefix]. *)
Definition path_from (prefix : str) (keys : list str) : str :=
  fold_left child_key keys prefix.

(** The non-empty initial segments of a chain, shortest first. *)
Fixpoint prefixes (keys : list str) : list (list str) :=
  match keys with
  | [] => []
  | k :: keys' => [k] :: List.map (cons k) (prefixes keys')
  end.

End Paths.

(** ** Strings of ASCII digits as numbers *)

Module Digits.
Import PyStr.

Fixpoint lstrip_zeros (s : str) : str :=
  match s with
  | c :: s' => if (c =? 48)%N then lstrip_zeros s' else s
  | [] => []
  end.

(** The digits without leading zeros; a single zero when nothing is left. *)
Definition normalized (s : str) : str :=
  match lstrip_zeros s with
  | [] => lit "0"
  | r => r
  end.

(** The decimal numeral a string of ASCII digits spells. *)
Fixpoint uint_of_digits (s : str) : Decimal.uint :=
  match s with
  | [] => Decimal.Nil
  | c :: s' =>
      let u := uint_of_digits s' in
      match (c - 48)%N with
      | 0%N => Decimal.D0 u
      | 1%N => Decimal.D1 u
      | 2%N => Decimal.D2 u
      | 3%N => Decimal.D3 u
      | 4%N => Decimal.D4 u
      | 5%N => Decimal.D5 u
      | 6%N => Decimal.D6 u
      | 7%N => Decimal.D7 u
      | 8%N => Decimal.D8 u
      | _ => Decimal.D9 u
      end
  end.

(** No code point lies in a range of both tables. *)
Definition apart (rs1 rs2 : list (N * N)) : bool :=
  forallb (fun r1 =>
             forallb (fun r2 => (snd r1 <? fst r2) || (snd r2 <? fst r1))%N rs2)
          rs1.

(** Every range of the table begins at 127 or above. *)
Definition above_ascii (rs : list (N * N)) : bool :=
  forallb (fun r => (127 <=? fst r)%N) rs.

(** Arabic-Indic three and four; a three followed by a superscript two. *)
Definition arabic_34 : str := [1635%N; 1636%N].
Definition three_squared : str := [51%N; 178%N].

End Digits.

(** ** Traces of the stream loop *)

Module Traces.
Import PyStr SseClient Framing.

(** A delay [time.sleep] accepts: zero, or positive and at most
    [2^32] seconds (the call refuses negative delays, NaN, and delays whose
    nanoseconds do not fit 63 bits). *)
Definition valid_delay (f : PyNum.float) : bool :=
  match f with
  | S754_zero _ => true
  | S754_finite false m e =>
      if (0 <=? e)%Z then (Zpos m * 2 ^ e <=? 2 ^ 32)%Z
      else (Zpos m <=? 2 ^ (32 - e))%Z
  | _ => false
  end.

(** What one scripted attempt contributes to the run when no stop is
    requested: the connect; then a sleep when the connect raises or the
    status is not 200; otherwise the events of the body, parsed from [IDLE],
    and a sleep when reading the body raises. *)
Definition attempt_trace (self : SSEClient) (a : attempt) : list action :=
  match a with
  | ConnectRaises _ => [Connect; Sleep (retry_delay self)]
  | Connected r =>
      if negb (Z.eqb (status_code r) 200)
      then [Connect; Sleep (retry_delay self)]
      else
        Connect :: dispatches self (snd (run step_guarded IDLE (body r)))
          ++ match body_end r with
             | Some _ => [Sleep (retry_delay self)]
             | None => []
             end
  end.

(** No white space at either end. *)
Definition trimmed (s : str) : Prop :=
  (forall c r, s = c :: r -> isspace_char c = false)
  /\ (forall c r, s = r ++ [c] -> isspace_char c = false).

(** The event comes from an event line and a data line among [lines]: the
    kind is the trimmed text after [event:], the payload the trimmed text
    after [data:]. *)
Definition event_from_lines (lines : list str) (kind payload : str) : Prop :=
  exists le ld,
    In le lines /\ startswith (lit "event:") le = true
    /\ kind = strip (slice_from 6 le)
    /\ In ld lines /\ startswith (lit "data:") ld = true
    /\ payload = strip (slice_from 5 ld).

(** The kind buffered in [event_type] comes from an event line seen. *)
Definition buffered_from (all : list str) (event_type : option str) : Prop :=
  forall k, event_type = Some k ->
            exists le, In le all /\ startswith (lit "event:") le = true
                       /\ k = strip (slice_from 6 le).

Definition is_dispatch (a : action) : bool :=
  match a with
  | Dispatch _ _ => true
  | _ => false
  end.

(** Number of handler calls in a run. *)
Definition dispatch_count (acts : list action) : nat :=
  List.length (filter is_dispatch acts).

(** The lines of all the responses of a script. *)
Definition lines_of (script : list attempt) : list str :=
  flat_map (fun a => match a with
                     | Connected r => body r
                     | ConnectRaises _ => []
                     end) script.

(** Number of event lines and of data lines. *)
Definition event_lines (lines : list str) : nat :=
  List.length (filter (startswith (lit "event:")) lines).
Definition data_lines (lines : list str) : nat :=
  List.length (filter (startswith (lit "data:")) lines).

(** Truth value of the buffered kind as a number. *)
Definition kind_weight (event_type : option str) : nat :=
  if have_kind event_type then 1 else 0.

(** A client built without [on_event]. *)
Definition silent : SSEClient :=
  {| retry_delay := S754_finite false 5629499534213120 (-50);
     has_on_event := false |}.

(** The exception of the attempt that no handler of the loop catches, if
    there is one: raised by the connect, or by the body read of a response
    with status 200. *)
Definition escapes (a : attempt) : option exn :=
  match a with
  | ConnectRaises e => if caught e then None else Some e
  | Connected r =>
      if negb (Z.eqb (status_code r) 200) then None
      else match body_end r with
           | Some e => if caught e then None else Some e
           | None => None
           end
  end.

(** What the attempt contributes before its exception leaves the loop. *)
Definition last_trace (self : SSEClient) (a : attempt) : list action :=
  match a with
  | ConnectRaises _ => [Connect]
  | Connected r => Connect :: dispatches self (snd (run step_guarded IDLE (body r)))
  end.

(** A response whose body read is interrupted after an event. *)
Definition interrupted : response :=
  {| status_code := 200;
     body := [lit "event: head"; lit "data: {}"];
     body_end := Some KeyboardInterrupt |}.

End Traces.

(** ** Payloads within the interpreter's default limits *)

Module Limits.
Import PyStr.

(** An opening bracket or brace. *)
Definition is_open (c : char) : bool := ((c =? 91) || (c =? 123))%N.

(** The payload has at most 4300 characters, so no number or digit string
    in it is longer than [int] converts by default, and at most 900 opening
    brackets and braces, so its nesting stays below the default recursion
    limit of 1000. *)
Definition within_limits (data_str : str) : bool :=
  (List.length data_str <=? 4300)%nat
  && (List.length (filter is_open data_str) <=? 900)%nat.

End Limits.

(** ** Configurations *)

Module Configs.
Import PyStr Json.

(** A character other than the dollar sign, other than the closing brace. *)
Definition not_dollar (c : char) : bool := negb (c =? 36)%N.
Definition not_brace (c : char) : bool := negb (c =? 125)%N.

(** No string occurs twice. *)
Fixpoint distinct (l : list str) : bool :=
  match l with
  | [] => true
  | k :: l' => negb (existsb (eqb k) l') && distinct l'
  end.

(** Every configuration is a dictionary: each key once. *)
Definition well_formed (configs : list (Dict.dict value)) : bool :=
  forallb (fun cfg => distinct (Dict.keys cfg)) configs.

(** The variable is unset or empty. *)
Definition unset (getenv : str -> result (option str)) (var : str) : bool :=
  match getenv var with
  | Ok None => true
  | Ok (Some ev) => negb (truthy ev)
  | Raise _ => false
  end.

(** The environment gives nothing to substitute for the names found in
    the value. *)
Definition quiet_value (getenv : str -> result (option str)) (v : value) : bool :=
  match v with
  | Leaf (SStr s) => forallb (unset getenv) (Config.findall s)
  | _ => true
  end.

Definition nothing_to_substitute (getenv : str -> result (option str))
           (configs : list (Dict.dict value)) : bool :=
  forallb (fun cfg => forallb (fun e => quiet_value getenv (snd e)) cfg) configs.

(** One entry of a configuration, substituted on its own. *)
Definition substitute_entry (getenv : str -> result (option str))
           (e : str * value) : result (str * value) :=
  match snd e with
  | Leaf (SStr s) =>
      bind (Config.substitute getenv s) (fun s' => Ok (fst e, Leaf (SStr s')))
  | _ => Ok e
  end.

(** The results of [f] on the elements from left to right, up to the
    first one that raises. *)
Fixpoint mapM {A B : Type} (f : A -> result B) (l : list A) : result (list B) :=
  match l with
  | [] => Ok []
  | a :: l' => bind (f a) (fun b => bind (mapM f l') (fun bs => Ok (b :: bs)))
  end.

(** A string value cut into literal text and placeholders. *)
Inductive segment :=
| Text (t : str)
| Var (name : str).

Definition render_segment (seg : segment) : str :=
  match seg with
  | Text t => t
  | Var n => Config.placeholder n
  end.

Definition render (segs : list segment) : str := flat_map render_segment segs.

(** Text without a dollar sign. *)
Definition plain (t : str) : bool := forallb not_dollar t.

(** A name: not empty, without dollar sign or closing brace. *)
Definition is_name (n : str) : bool :=
  truthy n && forallb not_dollar n && forallb not_brace n.

Definition well_formed_segment (seg : segment) : bool :=
  match seg with
  | Text t => plain t
  | Var n => is_name n
  end.

Definition names (segs : list segment) : list str :=
  flat_map (fun seg => match seg with Var n => [n] | Text _ => [] end) segs.

(** The lookup of the name succeeds and a value it gives is plain. *)
Definition expandable (getenv : str -> result (option str)) (n : str) : bool :=
  match getenv n with
  | Ok (Some ev) => plain ev
  | Ok None => true
  | Raise _ => false
  end.

(** A placeholder becomes the value of its variable when that is set and
    not empty, and stays otherwise. *)
Definition expand (getenv : str -> result (option str)) (seg : segment) : str :=
  match seg with
  | Text t => t
  | Var n =>
      match getenv n with
      | Ok (Some ev) => if truthy ev then ev else Config.placeholder n
      | _ => Config.placeholder n
      end
  end.

(** The placeholders of one variable replaced by a text. *)
Definition subst_segment (var ev : str) (seg : segment) : segment :=
  match seg with
  | Var n => if eqb n var then Text ev else Var n
  | Text t => Text t
  end.

(** One round of the loop over the names found, on a segment. *)
Definition round (getenv : str -> result (option str)) (n : str)
           (seg : segment) : segment :=
  match getenv n with
  | Ok (Some ev) => if truthy ev then subst_segment n ev seg else seg
  | _ => seg
  end.

Definition rounds (getenv : str -> result (option str)) (ns : list str)
           (seg : segment) : segment :=
  fold_left (fun s n => round getenv n s) ns seg.

(** An environment in which only [HOST] is set. *)
Definition host_only (var : str) : result (option str) :=
  if eqb var (lit "HOST") then Ok (Some (lit "node1")) else Ok None.

(** An environment in which nothing is set. *)
Definition no_env (var : str) : result (option str) := Ok None.

Definition sample : list (Dict.dict value) :=
  [[(lit "source", Leaf (SStr (lit "a")));
    (lit "url", Leaf (SStr (lit "http://${HOST}:5052/${PATH}")));
    (lit "retries", Leaf (SInt 3))]].

Definition sample_segments : list segment :=
  [Text (lit "http://"); Var (lit "HOST"); Text (lit ":5052/"); Var (lit "PATH")].

End Configs.

(** * Properties *)

(** ** The framing parser *)

Section FramingProofs.
Import PyStr SseClient Framing.

Variable self : SSEClient.

Lemma on_line_blank (event_type : option str) :
  on_line self event_type [] = (event_type, []).
Proof. reflexivity. Qed.

Lemma on_line_refines_step (event_type : option str) (line : str) :
  state_of (fst (on_line self event_type line))
    = fst (step_guarded (state_of event_type) (classify line))
  /\ snd (on_line self event_type line)
    = dispatches self (snd (step_guarded (state_of event_type) (classify line))).
Proof.
  unfold on_line, classify.
  generalize (startswith (lit "event:") line) (startswith (lit "data:") line)
             (strip (slice_from 6 line)) (strip (slice_from 5 line)).
  intros ev da kind payload.
  destruct (truthy line); cbn [negb]; [| split; reflexivity].
  destruct ev.
  - cbn [fst snd step_guarded state_of].
    destruct (truthy kind); split; reflexivity.
  - destruct da; cbn [andb]; [| split; reflexivity].
    destruct event_type as [k |]; cbn [have_kind state_of]; [| split; reflexivity].
    destruct (truthy k) eqn:Hk; cbn; rewrite ?Hk; split; try reflexivity.
    now rewrite app_nil_r.
Qed.

Lemma dispatches_app (xs ys : list RawEvent) :
  dispatches self (xs ++ ys) = dispatches self xs ++ dispatches self ys.
Proof. unfold dispatches. apply flat_map_app. Qed.

Lemma parse_from_refines_run (lines : list str) :
  forall event_type,
    state_of (fst (parse_from self event_type lines))
      = fst (run step_guarded (state_of event_type) lines)
    /\ snd (parse_from self event_type lines)
      = dispatches self (snd (run step_guarded (state_of event_type) lines)).
Proof.
  induction lines as [| line rest IH]; intros event_type; simpl.
  - split; reflexivity.
  - destruct (on_line_refines_step event_type line) as [Hs Ha].
    destruct (on_line self event_type line) as [et' acts] eqn:Hl.
    destruct (step_guarded (state_of event_type) (classify line)) as [s' evs] eqn:Hst.
    simpl in Hs, Ha. subst s' acts.
    destruct (IH et') as [IHs IHa].
    destruct (parse_from self et' rest) as [final acts'].
    destruct (run step_guarded (state_of et') rest) as [sfinal evs'].
    simpl in *. subst. split; [reflexivity |].
    now rewrite dispatches_app.
Qed.

End FramingProofs.

Section FramingClaims.
Import PyStr SseClient Framing.

Lemma read_lines_without_stop (self : SSEClient) (lines : list str) :
  forall calls event_type,
    read_lines self None calls event_type lines
      = (calls + List.length lines, snd (parse_from self event_type lines), false).
Proof.
  induction lines as [| line rest IH]; intros calls event_type; simpl.
  - now rewrite Nat.add_0_r.
  - destruct (on_line self event_type line) as [et' acts].
    rewrite IH. destruct (parse_from self et' rest) as [final acts'].
    simpl. now rewrite Nat.add_succ_r.
Qed.

(** C6, as stated, fails: after an event line whose kind is empty the
    specification's machine is in HAVE_KIND and emits on the next data line,
    while the parser emits nothing. *)
Lemma framing_empty_kind_counterexample :
  snd (parse_lines client [lit "event:"; lit "data: x"]) = []
  /\ dispatches client (snd (run step IDLE [lit "event:"; lit "data: x"]))
     = [Dispatch [] (lit "x")].
Proof. split; vm_compute; reflexivity. Qed.

(** C6, amended: for every sequence of framing lines the parser is the state
    machine IDLE -> (event line with a non-empty kind) HAVE_KIND -> (data
    line) emit one event with the buffered kind, back to IDLE; blank lines
    and other lines change nothing, a data line in IDLE is dropped, and an
    event line whose kind is empty leaves the machine in IDLE.  This is what
    the loop over the lines of a response does when no stop is requested. *)
Theorem framing_parser_refines_guarded_machine
        (self : SSEClient) (lines : list str) :
  state_of (fst (parse_lines self lines)) = fst (run step_guarded IDLE lines)
  /\ snd (parse_lines self lines)
     = dispatches self (snd (run step_guarded IDLE lines))
  /\ (forall calls,
        read_lines self None calls None lines
        = (calls + List.length lines,
           dispatches self (snd (run step_guarded IDLE lines)), false)).
Proof.
  destruct (parse_from_refines_run self lines None) as [Hs Ha].
  split; [exact Hs |]. split; [exact Ha |].
  intros calls. rewrite read_lines_without_stop. do 2 f_equal. exact Ha.
Qed.

End FramingClaims.

(** ** The stream loop *)

Section StreamProofs.
Import PyStr SseClient Stream.

Variable self : SSEClient.

Lemma connects_app (xs ys : list action) :
  connects (xs ++ ys) = connects xs + connects ys.
Proof. unfold connects. now rewrite filter_app, length_app. Qed.

Lemma sleeps_app (xs ys : list action) :
  sleeps (xs ++ ys) = sleeps xs + sleeps ys.
Proof. unfold sleeps. now rewrite filter_app, length_app. Qed.

Lemma on_line_only_dispatches (event_type : option str) (line : str) :
  connects (snd (on_line self event_type line)) = 0
  /\ sleeps (snd (on_line self event_type line)) = 0.
Proof.
  unfold on_line.
  generalize (startswith (lit "event:") line) (startswith (lit "data:") line)
             (strip (slice_from 6 line)) (strip (slice_from 5 line)).
  intros ev da kind payload.
  destruct (truthy line); cbn [negb]; [| split; reflexivity].
  destruct ev; [split; reflexivity |].
  destruct (da && have_kind event_type); [| split; reflexivity].
  destruct event_type as [k |]; [| split; reflexivity].
  unfold _run_event_function. destruct (has_on_event self); split; reflexivity.
Qed.

Lemma read_lines_only_dispatches (stop_after : option nat) (lines : list str) :
  forall calls event_type,
    connects (snd (fst (read_lines self stop_after calls event_type lines))) = 0
    /\ sleeps (snd (fst (read_lines self stop_after calls event_type lines))) = 0.
Proof.
  induction lines as [| line rest IH]; intros calls event_type; simpl.
  - split; reflexivity.
  - destruct (is_set stop_after calls); [split; reflexivity |].
    destruct (on_line_only_dispatches event_type line) as [Hc Hs].
    destruct (on_line self event_type line) as [et' acts].
    destruct (IH (S calls) et') as [IHc IHs].
    destruct (read_lines self stop_after (S calls) et' rest) as [[calls' acts'] stopped].
    simpl in *. rewrite connects_app, sleeps_app. lia.
Qed.

Lemma caught_Exception (e : exn) : is_Exception e = true -> caught e = true.
Proof. unfold caught. intros ->. apply orb_true_r. Qed.

Lemma getSSEStream_from_never_raises (stop_after : option nat)
      (script : list attempt) :
  forallb only_Exceptions script = true ->
  forall calls e,
    snd (getSSEStream_from self stop_after calls script) <> Raised e.
Proof.
  induction script as [| a script' IH]; intros Hok calls e; simpl.
  - destruct (is_set stop_after calls); discriminate.
  - simpl in Hok. apply andb_true_iff in Hok as [Ha Hrest].
    specialize (IH Hrest).
    destruct (is_set stop_after calls); [discriminate |].
    destruct a as [e0 | r]; simpl in Ha.
    + rewrite (caught_Exception _ Ha).
      specialize (IH (S calls) e).
      destruct (getSSEStream_from self stop_after (S calls) script'); exact IH.
    + destruct (negb (Z.eqb (status_code r) 200)).
      * specialize (IH (S calls) e).
        destruct (getSSEStream_from self stop_after (S calls) script'); exact IH.
      * destruct (read_lines self stop_after (S calls) None (body r))
          as [[calls' acts] stopped].
        specialize (IH calls' e).
        destruct stopped.
        -- destruct (getSSEStream_from self stop_after calls' script'); exact IH.
        -- destruct (body_end r) as [e1 |].
           ++ rewrite (caught_Exception _ Ha).
              destruct (getSSEStream_from self stop_after calls' script'); exact IH.
           ++ destruct (getSSEStream_from self stop_after calls' script'); exact IH.
Qed.

Lemma connects_cons (a : action) (xs : list action) :
  connects (a :: xs) = (if is_connect a then 1 else 0) + connects xs.
Proof. unfold connects. simpl. now destruct (is_connect a). Qed.

Lemma sleeps_cons (a : action) (xs : list action) :
  sleeps (a :: xs) = (if is_sleep a then 1 else 0) + sleeps xs.
Proof. unfold sleeps. simpl. now destruct (is_sleep a). Qed.

Ltac count_actions :=
  repeat (rewrite ?connects_app, ?sleeps_app, ?connects_cons, ?sleeps_cons;
          cbn [is_connect is_sleep]);
  change (connects []) with 0; change (sleeps []) with 0.

Lemma getSSEStream_from_reconnects (script : list attempt) :
  forallb only_Exceptions script = true ->
  forall calls,
    snd (getSSEStream_from self None calls script) = Waiting
    /\ connects (fst (getSSEStream_from self None calls script))
       = List.length script
    /\ sleeps (fst (getSSEStream_from self None calls script))
       = List.length (filter failed script).
Proof.
  induction script as [| a script' IH]; intros Hok calls.
  - repeat split; reflexivity.
  - cbn [forallb] in Hok. apply andb_true_iff in Hok as [Ha Hrest].
    specialize (IH Hrest).
    cbn [getSSEStream_from is_set filter List.length].
    destruct a as [e0 | r]; cbn [only_Exceptions failed] in Ha |- *.
    + rewrite (caught_Exception _ Ha).
      destruct (IH (S calls)) as (Ho & Hc & Hs).
      destruct (getSSEStream_from self None (S calls) script') as [acts' out].
      cbn [fst snd List.length] in *. count_actions. repeat split; [assumption | lia | lia].
    + destruct (negb (Z.eqb (status_code r) 200)); cbn [orb].
      * destruct (IH (S calls)) as (Ho & Hc & Hs).
        destruct (getSSEStream_from self None (S calls) script') as [acts' out].
        cbn [fst snd List.length] in *. count_actions.
        repeat split; [assumption | lia | lia].
      * rewrite read_lines_without_stop.
        pose proof (read_lines_only_dispatches None (body r) (S calls) None) as Hd.
        rewrite read_lines_without_stop in Hd. cbn [fst snd] in Hd.
        destruct Hd as [Hd1 Hd2].
        set (acts := snd (parse_from self None (body r))) in *.
        set (calls' := S calls + List.length (body r)).
        destruct (IH calls') as (Ho & Hc & Hs).
        destruct (body_end r) as [e1 |].
        -- rewrite (caught_Exception _ Ha).
           destruct (getSSEStream_from self None calls' script') as [acts' out].
           cbn [fst snd List.length] in *. count_actions.
           repeat split; [assumption | lia | lia].
        -- destruct (getSSEStream_from self None calls' script') as [acts' out].
           cbn [fst snd List.length] in *. count_actions.
           repeat split; [assumption | lia | lia].
Qed.

End StreamProofs.

Section StreamClaims.
Import PyStr SseClient Stream Traces.

(** C1: a client built as [make_sse_loop] builds it (delay 5.0) meets a
    source that answers 503, then breaks off a stream after one event, then
    refuses the connection.  [getSSEStream] raises none of these failures
    to its caller: after each one it sleeps [retry_delay] and connects
    again by itself, and it is still connected at the end; with a stop
    requested it returns.  The handler of [make_sse_loop], which would send
    the [sse_error] notice, is never reached. *)
Theorem stream_failures_retried_not_raised :
  valid_delay (retry_delay Framing.client) = true
  /\ getSSEStream Framing.client None
       [Connected unavailable; Connected broken;
        ConnectRaises RequestException; Connected one_event]
     = ([Connect; Sleep (retry_delay Framing.client);
         Connect; Dispatch (lit "head") (lit "{}");
         Sleep (retry_delay Framing.client);
         Connect; Sleep (retry_delay Framing.client);
         Connect; Dispatch (lit "head") (lit "{}")], Waiting)
  /\ getSSEStream Framing.client (Some 5)
       [Connected unavailable; Connected one_event]
     = ([Connect; Sleep (retry_delay Framing.client); Connect;
         Dispatch (lit "head") (lit "{}")], Returned)
  /\ getSSEStream Framing.client (Some 4)
       [Connected broken; Connected unavailable]
     = ([Connect; Dispatch (lit "head") (lit "{}");
         Sleep (retry_delay Framing.client);
         Connect; Sleep (retry_delay Framing.client)], Returned).
Proof. repeat split; vm_compute; reflexivity. Qed.

(** In general: with a delay [time.sleep] accepts, when the connect
    returns a non-success status, or the connect or the body read raises an
    exception derived from [Exception], nothing is raised to the caller.
    With no stop requested every entry of the network's script is
    attempted, one sleep follows each failed attempt, and the call is still
    running at the end. *)
Lemma getSSEStream_retries_internally
      (self : SSEClient) (stop_after : option nat) (script : list attempt) :
  valid_delay (retry_delay self) = true ->
  forallb only_Exceptions script = true ->
  (forall e, snd (getSSEStream self stop_after script) <> Raised e)
  /\ snd (getSSEStream self None script) = Waiting
  /\ connects (fst (getSSEStream self None script)) = List.length script
  /\ sleeps (fst (getSSEStream self None script))
     = List.length (filter failed script).
Proof.
  intros _ Hok. split.
  - intros e. now apply getSSEStream_from_never_raises.
  - now apply getSSEStream_from_reconnects.
Qed.

End StreamClaims.

(** ** [json.loads]: the recursion budget is never spent *)

Section JsonProofs.
Import PyStr PyNum Json.

Lemma skip_ws_length (t : str) : List.length (skip_ws t) <= List.length t.
Proof.
  induction t as [| c t IH]; simpl; [lia |].
  destruct (is_ws c); simpl; lia.
Qed.

Lemma cons_fst_inv (c : char) (o : option (str * str)) (s r : str) :
  cons_fst c o = Some (s, r) -> exists s', o = Some (s', r).
Proof.
  destruct o as [[s' r'] |]; simpl; [| discriminate].
  intros H. inversion H; subst. now exists s'.
Qed.

Lemma scanstring_shorter (n : nat) :
  forall t s r,
    List.length t <= n -> scanstring t = Some (s, r) ->
    List.length r < List.length t.
Proof.
  induction n as [| n IH]; intros t s r Hn H.
  - destruct t; [discriminate | simpl in Hn; lia].
  - destruct t as [| c rest]; [discriminate |].
    cbn [scanstring] in H.
    repeat first
      [ discriminate
      | match type of H with
        | cons_fst _ (scanstring _) = Some _ =>
            apply cons_fst_inv in H as [s' H];
            apply IH in H; simpl in *; lia
        | Some _ = Some _ => inversion H; subst; simpl; lia
        | (if ?b then _ else _) = _ => destruct b
        | match ?x with _ => _ end = _ => destruct x
        end ].
Qed.

Lemma span_digits_length (t : str) :
  List.length (fst (span_digits t)) + List.length (snd (span_digits t))
  = List.length t.
Proof.
  induction t as [| c t IH]; simpl; [reflexivity |].
  destruct (c_isdigit c); simpl; [| reflexivity].
  destruct (span_digits t); simpl in *. lia.
Qed.

Ltac split_scan H :=
  repeat first
    [ discriminate H
    | progress cbv beta iota zeta in H
    | match type of H with
      | context [span_digits ?u] =>
          let E := fresh "E" in
          pose proof (span_digits_length u) as E;
          destruct (span_digits u);
          cbn [fst snd] in E
      | context [if ?b then _ else _] => destruct b
      | context [match ?x with _ => _ end] => is_var x; destruct x
      | context [match float_of_str ?x with _ => _ end] => destruct (float_of_str x)
      | context [match int_of_str ?x with _ => _ end] => destruct (int_of_str x)
      end ].

Lemma scan_number_shorter (t : str) (v : value) (r : str) :
  scan_number t = Some (v, r) -> List.length r < List.length t.
Proof.
  unfold scan_number. intros H.
  split_scan H; inversion H; subst; simpl in *; lia.
Qed.

Lemma startswith_length (p t : str) :
  startswith p t = true -> List.length p <= List.length t.
Proof.
  revert t. induction p as [| x p IH]; intros t H; simpl; [lia |].
  destruct t as [| y t]; [discriminate |].
  simpl in H. apply andb_true_iff in H as [_ H]. apply IH in H. simpl. lia.
Qed.

Lemma lit_length (w : string) : List.length (lit w) = String.length w.
Proof.
  unfold lit. rewrite length_map.
  induction w as [| a w IH]; simpl; [reflexivity | now rewrite IH].
Qed.

Lemma keyword_shorter (w : string) (v : value) (t : str) (p : pres) :
  0 < String.length w ->
  keyword w v t = Some p ->
  exists r, p = POk v r /\ List.length r < List.length t.
Proof.
  unfold keyword. intros Hw H.
  destruct (startswith (lit w) t) eqn:E; [| discriminate].
  apply startswith_length in E. rewrite lit_length in E.
  inversion H; subst. eexists. split; [reflexivity |].
  rewrite length_skipn. lia.
Qed.

Ltac scan_step f IH1 IH2 IH3 H :=
  first
    [ discriminate H
    | progress cbv beta iota zeta in H
    | match type of H with
      | (if ?b then _ else _) = _ => destruct b
      | match (if ?b then _ else _) with _ => _ end = _ => destruct b
      | context [skip_ws ?u] =>
          let E := fresh "E" in
          let L := fresh "L" in
          pose proof (skip_ws_length u) as L;
          destruct (skip_ws u) eqn:E; cbn [List.length] in L
      | context [match scanstring ?u with _ => _ end] =>
          let E := fresh "E" in
          destruct (scanstring u) as [[? ?] |] eqn:E;
          [apply scanstring_shorter with (n := List.length u) in E; [| lia] |]
      | context [match scan_once f ?u with _ => _ end] =>
          let E := fresh "E" in
          destruct (scan_once f u) eqn:E; [apply IH1 in E | |]
      | scan_members f _ _ = POk _ _ => apply IH2 in H
      | scan_elements f _ _ = POk _ _ => apply IH3 in H
      | context [keyword ?w ?v ?u] =>
          let E := fresh "E" in
          destruct (keyword w v u) eqn:E;
          [apply keyword_shorter in E as (? & -> & ?); [| cbn; lia] |]
      | context [of_option (scan_number ?u)] =>
          let E := fresh "E" in
          destruct (scan_number u) as [[? ?] |] eqn:E;
          [apply scan_number_shorter in E |]; cbn [of_option] in H
      | context [if ?b then _ else _] => destruct b
      end ].

Lemma scan_shorter (f : nat) :
  (forall t v r, scan_once f t = POk v r -> List.length r < List.length t)
  /\ (forall t acc v r,
        scan_members f t acc = POk v r -> List.length r < List.length t)
  /\ (forall t acc v r,
        scan_elements f t acc = POk v r -> List.length r < List.length t).
Proof.
  induction f as [| f (IH1 & IH2 & IH3)].
  - repeat split; intros; discriminate.
  - repeat split.
    + intros t v r H. cbn [scan_once] in H.
      destruct t as [| c t']; [discriminate |].
      repeat scan_step f IH1 IH2 IH3 H;
        try (inversion H; subst); cbn [List.length] in *; lia.
    + intros t acc v r H. cbn [scan_members] in H.
      destruct t as [| c t']; [discriminate |].
      repeat scan_step f IH1 IH2 IH3 H;
        try (inversion H; subst); cbn [List.length] in *; lia.
    + intros t acc v r H. cbn [scan_elements] in H.
      repeat scan_step f IH1 IH2 IH3 H;
        try (inversion H; subst); cbn [List.length] in *; lia.
Qed.

Ltac budget_step f IH1 IH2 IH3 H :=
  first
    [ discriminate H
    | progress cbv beta iota zeta in H
    | match type of H with
      | (if ?b then _ else _) = _ => destruct b
      | match (if ?b then _ else _) with _ => _ end = _ => destruct b
      | context [skip_ws ?u] =>
          let E := fresh "E" in
          let L := fresh "L" in
          pose proof (skip_ws_length u) as L;
          destruct (skip_ws u) eqn:E; cbn [List.length] in L
      | context [match scanstring ?u with _ => _ end] =>
          let E := fresh "E" in
          destruct (scanstring u) as [[? ?] |] eqn:E;
          [apply scanstring_shorter with (n := List.length u) in E; [| lia] |]
      | context [match scan_once f ?u with _ => _ end] =>
          let E := fresh "E" in
          destruct (scan_once f u) eqn:E;
          [apply (proj1 (scan_shorter f)) in E
          | | apply IH1 in E; [contradiction | cbn [List.length] in *; lia]]
      | scan_members f _ _ = PFuel =>
          apply IH2 in H; [contradiction | cbn [List.length] in *; lia]
      | scan_elements f _ _ = PFuel =>
          apply IH3 in H; [contradiction | cbn [List.length] in *; lia]
      | context [keyword ?w ?v ?u] =>
          let E := fresh "E" in
          destruct (keyword w v u) eqn:E;
          [apply keyword_shorter in E as (? & -> & ?); [| cbn; lia] |]
      | context [of_option (scan_number ?u)] =>
          destruct (scan_number u) as [[? ?] |]; cbn [of_option] in H
      | context [if ?b then _ else _] => destruct b
      end ].

Lemma scan_budget (f : nat) :
  (forall t, 2 * List.length t + 1 <= f -> scan_once f t <> PFuel)
  /\ (forall t acc, 2 * List.length t + 1 <= f -> scan_members f t acc <> PFuel)
  /\ (forall t acc, 2 * List.length t + 2 <= f -> scan_elements f t acc <> PFuel).
Proof.
  induction f as [| f (IH1 & IH2 & IH3)].
  - repeat split; intros; lia.
  - repeat split.
    + intros t Hf H. cbn [scan_once] in H.
      destruct t as [| c t']; [discriminate |].
      cbn [List.length] in Hf.
      repeat budget_step f IH1 IH2 IH3 H.
    + intros t acc Hf H. cbn [scan_members] in H.
      destruct t as [| c t']; [discriminate |].
      cbn [List.length] in Hf.
      repeat budget_step f IH1 IH2 IH3 H.
    + intros t acc Hf H. cbn [scan_elements] in H.
      repeat budget_step f IH1 IH2 IH3 H.
Qed.

(** [loads] raises [JSONDecodeError] exactly when the text has a byte-order
    mark, no value can be scanned, or something follows the value. *)
Lemma loads_cases (t : str) :
  (exists v r,
      scan_once (2 * List.length t + 2) (skip_ws t) = POk v r
      /\ skip_ws r = [] /\ startswith [65279%N] t = false /\ loads t = Ok v)
  \/ loads t = Raise JSONDecodeError.
Proof.
  unfold loads.
  destruct (startswith [65279%N] t); [now right |].
  destruct (scan_once (2 * List.length t + 2) (skip_ws t)) as [v r | |] eqn:E;
    [| now right | now right].
  destruct (skip_ws r) eqn:Er; [| now right].
  left. exists v, r. repeat split; assumption.
Qed.

Lemma loads_budget (t : str) :
  scan_once (2 * List.length t + 2) (skip_ws t) <> PFuel.
Proof.
  apply (proj1 (scan_budget _)). pose proof (skip_ws_length t). lia.
Qed.

End JsonProofs.

(** ** Strings and dictionaries *)

Section DictProofs.
Import PyStr.

Lemma eqb_eq (a b : str) : eqb a b = true <-> a = b.
Proof.
  revert b. induction a as [| x a IH]; intros [| y b]; simpl;
    try (split; [discriminate | discriminate]); [tauto |].
  rewrite andb_true_iff, N.eqb_eq, IH. split.
  - intros [-> ->]. reflexivity.
  - intros H. inversion H. tauto.
Qed.

Lemma eqb_refl (a : str) : eqb a a = true.
Proof. now apply eqb_eq. Qed.

Lemma eqb_neq (a b : str) : eqb a b = false <-> a <> b.
Proof.
  rewrite <- eqb_eq. destruct (eqb a b); split; congruence.
Qed.

Variable V : Type.

Lemma keys_set (d : Dict.dict V) (k : str) (v : V) :
  Dict.keys (Dict.set d k v)
  = if Dict.mem k d then Dict.keys d else Dict.keys d ++ [k].
Proof.
  unfold Dict.mem.
  induction d as [| [k' v'] d IH]; simpl; [reflexivity |].
  destruct (eqb k' k) eqn:E.
  - apply eqb_eq in E. subst. rewrite eqb_refl. reflexivity.
  - assert (eqb k k' = false) as ->.
    { apply eqb_neq. apply eqb_neq in E. congruence. }
    simpl. change (List.map fst (Dict.set d k v)) with (Dict.keys (Dict.set d k v)).
    rewrite IH. change (Dict.keys d) with (List.map fst d).
    destruct (existsb (eqb k) (List.map fst d)); reflexivity.
Qed.

Lemma mem_In (d : Dict.dict V) (k : str) :
  Dict.mem k d = true <-> In k (Dict.keys d).
Proof.
  unfold Dict.mem. rewrite existsb_exists. split.
  - intros (x & Hx & E). apply eqb_eq in E. now subst.
  - intros H. exists k. split; [assumption | apply eqb_refl].
Qed.

Lemma In_keys_set (d : Dict.dict V) (k : str) (v : V) (q : str) :
  In q (Dict.keys (Dict.set d k v)) <-> In q (Dict.keys d) \/ q = k.
Proof.
  rewrite keys_set. destruct (Dict.mem k d) eqn:E.
  - apply mem_In in E. split; [tauto |]. intros [H | ->]; assumption.
  - rewrite in_app_iff. simpl. intuition (subst; auto).
Qed.

Lemma In_keys_update (other d : Dict.dict V) (q : str) :
  In q (Dict.keys (Dict.update d other))
  <-> In q (Dict.keys d) \/ In q (Dict.keys other).
Proof.
  unfold Dict.update. revert d.
  induction other as [| [k v] other IH]; intros d; simpl.
  - tauto.
  - rewrite IH, In_keys_set. split; intros H; intuition (subst; auto).
Qed.

Lemma NoDup_keys_set (d : Dict.dict V) (k : str) (v : V) :
  NoDup (Dict.keys d) -> NoDup (Dict.keys (Dict.set d k v)).
Proof.
  intros H. rewrite keys_set. destruct (Dict.mem k d) eqn:E; [assumption |].
  apply NoDup_app; [assumption | repeat constructor; intros [] |].
  intros q Hq [<- | []].
  apply mem_In in Hq. congruence.
Qed.

Lemma NoDup_keys_update (other d : Dict.dict V) :
  NoDup (Dict.keys d) -> NoDup (Dict.keys (Dict.update d other)).
Proof.
  unfold Dict.update. revert d.
  induction other as [| [k v] other IH]; intros d H; simpl; [assumption |].
  apply IH. now apply NoDup_keys_set.
Qed.

Lemma get_set_same (d : Dict.dict V) (k : str) (v : V) :
  Dict.get (Dict.set d k v) k = Some v.
Proof.
  induction d as [| [k' v'] d IH]; simpl.
  - now rewrite eqb_refl.
  - destruct (eqb k' k) eqn:E; simpl; rewrite E; [reflexivity | assumption].
Qed.

Lemma get_In (d : Dict.dict V) (k : str) (v : V) :
  Dict.get d k = Some v -> In (k, v) d.
Proof.
  induction d as [| [k' v'] d IH]; simpl; [discriminate |].
  destruct (eqb k' k) eqn:E.
  - apply eqb_eq in E. intros H. inversion H. subst. now left.
  - intros H. right. now apply IH.
Qed.

Lemma NoDup_keys_In_get (d : Dict.dict V) (k : str) (v : V) :
  NoDup (Dict.keys d) -> In (k, v) d -> Dict.get d k = Some v.
Proof.
  induction d as [| [k' v'] d IH]; simpl; [intros _ [] |].
  intros Hnd [H | H].
  - inversion H. subst. now rewrite eqb_refl.
  - inversion Hnd as [| ? ? Hnotin Hnd']. subst.
    destruct (eqb k' k) eqn:E.
    + apply eqb_eq in E. subst. exfalso. apply Hnotin.
      change k with (fst (k, v)). now apply in_map.
    + now apply IH.
Qed.

End DictProofs.

(** ** Flattening *)

Section FlattenProofs.
Import PyStr PyNum Json Main Flatten FlattenLoop.

Lemma value_induction (P : value -> Prop) :
  (forall a, P (Leaf a)) ->
  (forall l, P (PList l)) ->
  (forall d, Forall (fun kv => P (snd kv)) d -> P (PDict d)) ->
  forall v, P v.
Proof.
  intros Hleaf Hlist Hdict.
  fix self 1. intros [a | l | d].
  - apply Hleaf.
  - apply Hlist.
  - apply Hdict. induction d as [| [k v] d IH]; constructor.
    + apply self.
    + exact IH.
Qed.

Lemma flatten_json_dict (d : list (str * value)) (prefix : str) :
  flatten_json (PDict d) prefix = flatten_members prefix d Dict.empty.
Proof.
  cbn [flatten_json]. generalize (@Dict.empty str).
  induction d as [| [k v] d IH]; intros items; [reflexivity |].
  cbn [flatten_members].
  destruct (ignored (child_key prefix k)); [apply IH |].
  destruct (flatten_json v (child_key prefix k)); cbn [bind]; [apply IH | reflexivity].
Qed.

Lemma flatten_leaf_keys (a : scalar) (prefix : str) (items : Dict.dict str) :
  flatten_leaf a prefix = Ok items -> Dict.keys items = [prefix].
Proof.
  unfold flatten_leaf. intros H.
  destruct a as [| b | z | f | s];
    [cbn in H; inversion H; reflexivity ..|].
  destruct (startswith (lit "0x") s); [inversion H; reflexivity |].
  destruct (isdigit s).
  - destruct (int_of_str s); cbn in H; inversion H; reflexivity.
  - destruct (float_of_str s) as [f | []]; inversion H; reflexivity.
Qed.

(** What the loop over the members adds to [items0]. *)
Lemma flatten_members_keys (prefix : str) (kvs : list (str * value)) :
  Forall (fun kv =>
            forall p items,
              flatten_json (snd kv) p = Ok items ->
              fields_are_kept_leaves (snd kv) p items
              /\ NoDup (Dict.keys items)) kvs ->
  forall items0 items,
    flatten_members prefix kvs items0 = Ok items ->
    NoDup (Dict.keys items0) ->
    (forall path,
        In path (Dict.keys items)
        <-> In path (Dict.keys items0)
            \/ exists k v visited,
                In (k, v) kvs
                /\ reaches v (child_key prefix k) path visited
                /\ kept (child_key prefix k :: visited))
    /\ NoDup (Dict.keys items).
Proof.
  induction 1 as [| [k v] kvs Hv _ IH]; intros items0 items Hrun Hnd.
  - cbn in Hrun. inversion Hrun; subst. split; [| assumption].
    intros path. split; [tauto |].
    intros [H | (k & v & vis & [] & _)]. assumption.
  - cbn [flatten_members] in Hrun. cbn [snd] in Hv.
    destruct (ignored (child_key prefix k)) eqn:Hig.
    + destruct (IH _ _ Hrun Hnd) as [Hkeys Hnd']. split; [| assumption].
      intros path. rewrite Hkeys. split.
      * intros [H | (k' & v' & vis & Hin & Hr & Hk)]; [now left |].
        right. exists k', v', vis. repeat split; try assumption. now right.
      * intros [H | (k' & v' & vis & [Heq | Hin] & Hr & Hk)]; [now left | |].
        -- inversion Heq; subst. inversion Hk as [| ? ? Hq _]; subst. congruence.
        -- right. exists k', v', vis. repeat split; assumption.
    + destruct (flatten_json v (child_key prefix k)) as [sub |] eqn:Hsub;
        [| discriminate].
      cbn [bind] in Hrun.
      destruct (Hv _ _ Hsub) as [Hsubkeys Hsubnd].
      destruct (IH _ _ Hrun (NoDup_keys_update sub items0 Hnd)) as [Hkeys Hnd'].
      split; [| assumption].
      intros path. rewrite Hkeys, In_keys_update, (Hsubkeys path). split.
      * intros [[H | (vis & Hr & Hk)] | (k' & v' & vis & Hin & Hr & Hk)].
        -- now left.
        -- right. exists k, v, vis. repeat split; try assumption; [now left |].
           now constructor.
        -- right. exists k', v', vis. repeat split; try assumption. now right.
      * intros [H | (k' & v' & vis & [Heq | Hin] & Hr & Hk)].
        -- left. now left.
        -- inversion Heq; subst. left. right. exists vis. split; [assumption |].
           now inversion Hk.
        -- right. exists k', v', vis. repeat split; assumption.
Qed.

Lemma flatten_json_keys (data : value) :
  forall prefix items,
    flatten_json data prefix = Ok items ->
    fields_are_kept_leaves data prefix items /\ NoDup (Dict.keys items).
Proof.
  unfold fields_are_kept_leaves.
  induction data as [a | l | d IH] using value_induction; intros prefix items H.
  - cbn [flatten_json] in H. rewrite (flatten_leaf_keys _ _ H). split.
    + intros path. simpl. split.
      * intros [<- | []]. exists []. split; constructor.
      * intros (vis & Hr & _). inversion Hr; subst. now left.
    + repeat constructor. intros [].
  - cbn in H. inversion H; subst. split; [| constructor].
    intros path. split; [intros [] |].
    intros (vis & Hr & _). inversion Hr.
  - rewrite flatten_json_dict in H.
    destruct (flatten_members_keys prefix (kvs := d) IH _ H) as [Hkeys Hnd];
      [constructor |].
    split; [| assumption].
    intros path. rewrite Hkeys. split.
    + intros [[] | (k & v & vis & Hin & Hr & Hk)].
      exists (child_key prefix k :: vis). split; [| assumption].
      econstructor; eassumption.
    + intros (vis & Hr & Hk). right. inversion Hr; subst.
      eexists _, _, _. repeat split; eassumption.
Qed.

Lemma last_cons (A : Type) (vis : list A) (c p : A) :
  last (c :: vis) p = last vis c.
Proof.
  revert c p. induction vis as [| q vis IH]; intros c p; [reflexivity |].
  change (last (c :: q :: vis) p) with (last (q :: vis) p).
  now rewrite (IH q p), (IH q c).
Qed.

(** The path of a reached scalar is the last path visited. *)
Lemma reaches_last (data : value) (prefix path : str) (visited : list str) :
  reaches data prefix path visited -> path = last visited prefix.
Proof.
  induction 1; [reflexivity |]. now rewrite last_cons.
Qed.

Lemma last_In (A : Type) (vis : list A) (c p : A) : In (last (c :: vis) p) (c :: vis).
Proof.
  revert c. induction vis as [| q vis IH]; intros c; [now left |].
  change (last (c :: q :: vis) p) with (last (q :: vis) p).
  right. apply IH.
Qed.

Lemma kept_path_not_ignored (data : value) (path : str) (visited : list str) :
  reaches data [] path visited -> kept visited -> ignored path = false.
Proof.
  intros Hr Hk. rewrite (reaches_last Hr).
  destruct visited as [| q vis]; [reflexivity |].
  unfold kept in Hk. rewrite Forall_forall in Hk. apply Hk. apply last_In.
Qed.

End FlattenProofs.

(** ** The encoder *)

Section EncoderProofs.
Import PyStr PyNum Json Main Record Flatten FlattenLoop.

(** The f-string of [json_event_to_line_protocol] writes the measurement,
    the four tags, the fields and the timestamp. *)
Lemma encode_cases (timestamp : Z) (event_type data_str source network : str) :
  json_event_to_line_protocol timestamp event_type data_str source network
  = match loads data_str with
    | Raise JSONDecodeError => Ok None
    | Raise e => Raise e
    | Ok data_json =>
        match record_fields data_json with
        | Ok fields =>
            Ok (Some (serialize (lit "beacon_event")
                                (record_tags event_type source network)
                                fields timestamp))
        | Raise e => Raise e
        end
    end.
Proof.
  unfold json_event_to_line_protocol, record_fields.
  destruct (loads data_str) as [data_json | e]; [| reflexivity].
  destruct (flatten_json data_json []) as [fields | e]; [| reflexivity].
  cbn [bind]. do 2 f_equal.
  unfold serialize, record_tags. cbn [List.map List.concat fst snd].
  rewrite <- !app_assoc. reflexivity.
Qed.

Lemma encode_success (timestamp : Z) (event_type data_str source network line : str) :
  json_event_to_line_protocol timestamp event_type data_str source network
  = Ok (Some line) ->
  exists data_json items,
    loads data_str = Ok data_json
    /\ flatten_json data_json [] = Ok items
    /\ record_fields data_json = Ok (Dict.set items (lit "count") (lit "1i"))
    /\ line = serialize (lit "beacon_event")
                        (record_tags event_type source network)
                        (Dict.set items (lit "count") (lit "1i")) timestamp.
Proof.
  rewrite encode_cases. unfold record_fields.
  destruct (loads data_str) as [data_json | []]; try discriminate.
  destruct (flatten_json data_json []) as [items | e] eqn:Hf; [| discriminate].
  cbn [bind]. intros H. inversion H; subst.
  exists data_json, items. repeat split; try assumption; try reflexivity.
  unfold record_fields. now rewrite Hf.
Qed.


Lemma In_field_entries (fields : Dict.dict str) (k v : str) :
  In (k, v) fields -> In (k ++ lit "=" ++ v) (field_entries fields).
Proof.
  intros H. unfold field_entries.
  change (k ++ lit "=" ++ v) with ((fun kv : str * str => fst kv ++ lit "=" ++ snd kv) (k, v)).
  now apply in_map.
Qed.

End EncoderProofs.

Section EncoderClaims.
Import PyStr PyNum Json Main Record Flatten FlattenLoop.




(** C5, as stated, fails: a payload member named [source] becomes a field
    named [source], which is also a tag key of the same record. *)
Lemma tag_field_collision_counterexample :
  json_event_to_line_protocol 1 (lit "head") (dq "{'source': 'x'}")
                              (lit "nodeA") (lit "mainnet")
  = Ok (Some (dq "beacon_event,event_type=head,source=nodeA,network=mainnet,endpoint=/eth/v1/events source='x',count=1i 1"))
  /\ (exists data_json fields,
        loads (dq "{'source': 'x'}") = Ok data_json
        /\ record_fields data_json = Ok fields
        /\ In (lit "source") tag_keys
        /\ In (lit "source") (Dict.keys fields)).
Proof.
  split; [vm_compute; reflexivity |].
  eexists _, _. split; [vm_compute; reflexivity |].
  split; [vm_compute; reflexivity |].
  split; [right; now left | now left].
Qed.

(** C5, amended: for every encoded record the tag keys are exactly
    event_type, source, network, endpoint, whatever the payload; the field
    keys are disjoint from them exactly when no scalar of the payload outside
    arrays and ignored subtrees has one of these four names as its flattened
    path. *)
Theorem tag_keys_fixed_and_fields_from_payload
        (timestamp : Z) (event_type data_str source network line : str) :
  json_event_to_line_protocol timestamp event_type data_str source network
  = Ok (Some line) ->
  exists data_json fields,
    loads data_str = Ok data_json
    /\ record_fields data_json = Ok fields
    /\ line = serialize (lit "beacon_event")
                        (record_tags event_type source network)
                        fields timestamp
    /\ List.map fst (record_tags event_type source network) = tag_keys
    /\ ((forall k, In k (Dict.keys fields) -> ~ In k tag_keys)
        <-> (forall path visited,
                reaches data_json [] path visited -> kept visited ->
                ~ In path tag_keys)).
Proof.
  intros H. apply encode_success in H as (data_json & items & Hl & Hf & Hr & ->).
  exists data_json, (Dict.set items (lit "count") (lit "1i")).
  repeat split; try assumption.
  - intros Hdis path visited Hreach Hkept. apply Hdis.
    apply In_keys_set. left.
    apply (proj1 (flatten_json_keys _ _ Hf) path). now exists visited.
  - intros Hpay k Hin Htag. apply In_keys_set in Hin as [Hin | ->].
    + apply (proj1 (flatten_json_keys _ _ Hf) k) in Hin as (visited & Hreach & Hkept).
      exact (Hpay k visited Hreach Hkept Htag).
    + cbn in Htag. intuition discriminate.
Qed.

Lemma tag_keys_fixed_and_fields_from_payload_witness :
  exists data_json fields,
    loads (dq "{'slot': '123'}") = Ok data_json
    /\ record_fields data_json = Ok fields
    /\ lit "beacon_event,event_type=head,source=nodeA,network=mainnet,endpoint=/eth/v1/events slot=123i,count=1i 1"
       = serialize (lit "beacon_event")
                   (record_tags (lit "head") (lit "nodeA") (lit "mainnet"))
                   fields 1
    /\ List.map fst (record_tags (lit "head") (lit "nodeA") (lit "mainnet")) = tag_keys
    /\ ((forall k, In k (Dict.keys fields) -> ~ In k tag_keys)
        <-> (forall path visited,
                reaches data_json [] path visited -> kept visited ->
                ~ In path tag_keys)).
Proof.
  apply (tag_keys_fixed_and_fields_from_payload 1 (lit "head")
           (dq "{'slot': '123'}") (lit "nodeA") (lit "mainnet")).
  vm_compute. reflexivity.
Defined.

(** Whenever the payload flattens, the field names are exactly the
    flattened paths of the scalars reached through object members along
    which no path is in the Ignore-Set; so nothing at or beneath an ignored
    path and nothing inside an array, at any depth, becomes a field, and
    every other scalar does.  No field name is in the Ignore-Set, and
    encoding [{"items": [1,2,3]}] yields no [items] field. *)
Lemma flatten_keeps_unignored_leaves_outside_arrays
        (data : value) (items : Dict.dict str) :
  flatten_json data [] = Ok items ->
  fields_are_kept_leaves data [] items
  /\ (forall path, In path (Dict.keys items) -> ignored path = false)
  /\ (forall l prefix, flatten_json (PList l) prefix = Ok Dict.empty)
  /\ json_event_to_line_protocol 1 (lit "head") (dq "{'items': [1,2,3]}")
                                 (lit "nodeA") (lit "mainnet")
     = Ok (Some (lit "beacon_event,event_type=head,source=nodeA,network=mainnet,endpoint=/eth/v1/events count=1i 1")).
Proof.
  intros H. destruct (flatten_json_keys _ _ H) as [Hkeys _].
  split; [assumption |]. split; [| split; [reflexivity | vm_compute; reflexivity]].
  intros path Hin. apply Hkeys in Hin as (visited & Hreach & Hkept).
  exact (kept_path_not_ignored Hreach Hkept).
Qed.

Lemma flatten_keeps_unignored_leaves_outside_arrays_witness :
  fields_are_kept_leaves Samples.nested [] [(lit "data_d", lit "7i")]
  /\ (forall path, In path (Dict.keys [(lit "data_d", lit "7i")]) -> ignored path = false)
  /\ (forall l prefix, flatten_json (PList l) prefix = Ok Dict.empty)
  /\ json_event_to_line_protocol 1 (lit "head") (dq "{'items': [1,2,3]}")
                                 (lit "nodeA") (lit "mainnet")
     = Ok (Some (lit "beacon_event,event_type=head,source=nodeA,network=mainnet,endpoint=/eth/v1/events count=1i 1")).
Proof.
  apply (flatten_keeps_unignored_leaves_outside_arrays
           Samples.nested (items := [(lit "data_d", lit "7i")])).
  vm_compute. reflexivity.
Defined.

(** C9: every record that is encoded has the field [count] with value [1i],
    written [count=1i] on the wire line, and no other value under that name:
    the assignment after flattening replaces a flattened [count] of the
    payload in place and appends the field otherwise. *)
Theorem count_field_is_always_one
        (timestamp : Z) (event_type data_str source network line : str) :
  json_event_to_line_protocol timestamp event_type data_str source network
  = Ok (Some line) ->
  exists data_json items fields,
    loads data_str = Ok data_json
    /\ flatten_json data_json [] = Ok items
    /\ fields = Dict.set items (lit "count") (lit "1i")
    /\ line = serialize (lit "beacon_event")
                        (record_tags event_type source network)
                        fields timestamp
    /\ Dict.get fields (lit "count") = Some (lit "1i")
    /\ (forall v, In (lit "count", v) fields -> v = lit "1i")
    /\ In (lit "count=1i") (field_entries fields)
    /\ Dict.keys fields
       = if Dict.mem (lit "count") items
         then Dict.keys items
         else Dict.keys items ++ [lit "count"].
Proof.
  intros H. apply encode_success in H as (data_json & items & Hl & Hf & Hr & ->).
  exists data_json, items, (Dict.set items (lit "count") (lit "1i")).
  assert (Hnd : NoDup (Dict.keys (Dict.set items (lit "count") (lit "1i")))).
  { apply NoDup_keys_set. exact (proj2 (flatten_json_keys _ _ Hf)). }
  repeat split; try assumption.
  - apply get_set_same.
  - intros v Hin. apply NoDup_keys_In_get in Hin; [| exact Hnd].
    rewrite get_set_same in Hin. now inversion Hin.
  - apply (In_field_entries _ (lit "count") (lit "1i")).
    apply get_In, get_set_same.
  - apply keys_set.
Qed.

Lemma count_field_is_always_one_witness :
  exists data_json items fields,
    loads (dq "{'count': 7, 'a': 1}") = Ok data_json
    /\ flatten_json data_json [] = Ok items
    /\ fields = Dict.set items (lit "count") (lit "1i")
    /\ lit "beacon_event,event_type=head,source=nodeA,network=mainnet,endpoint=/eth/v1/events count=1i,a=1 1"
       = serialize (lit "beacon_event")
                   (record_tags (lit "head") (lit "nodeA") (lit "mainnet"))
                   fields 1
    /\ Dict.get fields (lit "count") = Some (lit "1i")
    /\ (forall v, In (lit "count", v) fields -> v = lit "1i")
    /\ In (lit "count=1i") (field_entries fields)
    /\ Dict.keys fields
       = if Dict.mem (lit "count") items
         then Dict.keys items
         else Dict.keys items ++ [lit "count"].
Proof.
  apply (count_field_is_always_one 1 (lit "head") (dq "{'count': 7, 'a': 1}")
           (lit "nodeA") (lit "mainnet")).
  vm_compute. reflexivity.
Defined.

End EncoderClaims.

(** ** Type inference on the leaves, and when the encoder raises *)

Section LeafProofs.
Import PyStr PyNum Json Main Record Flatten FlattenLoop.

Lemma flatten_leaf_hex (s prefix : str) :
  startswith (lit "0x") s = true ->
  flatten_leaf (SStr s) prefix = Ok [(prefix, quoted s)].
Proof. unfold flatten_leaf. now intros ->. Qed.

Lemma flatten_leaf_digits (s prefix : str) :
  startswith (lit "0x") s = false ->
  isdigit s = true ->
  flatten_leaf (SStr s) prefix
  = bind (int_of_str s) (fun n => Ok [(prefix, str_of_int n ++ lit "i")]).
Proof. unfold flatten_leaf. now intros -> ->. Qed.

Lemma flatten_leaf_float (s prefix : str) (f : float) :
  startswith (lit "0x") s = false ->
  isdigit s = false ->
  float_of_str s = Ok f ->
  flatten_leaf (SStr s) prefix = Ok [(prefix, str_of_float f)].
Proof. unfold flatten_leaf. now intros -> -> ->. Qed.

Lemma flatten_leaf_other (s prefix : str) :
  startswith (lit "0x") s = false ->
  isdigit s = false ->
  float_of_str s = Raise ValueError ->
  flatten_leaf (SStr s) prefix = Ok [(prefix, quoted s)].
Proof. unfold flatten_leaf. now intros -> -> ->. Qed.

Lemma int_of_str_raises_ValueError (s : str) (e : exn) :
  int_of_str s = Raise e -> e = ValueError.
Proof.
  unfold int_of_str.
  destruct (split_sign (c_strip (to_ascii s))) as [neg body].
  destruct (drop_underscores None body) as [ds |]; [| now intros [= <-]].
  destruct (truthy ds && forallb c_isdigit ds); [| now intros [= <-]].
  destruct (digits_value 0 ds); [discriminate | now intros [= <-]].
Qed.

Lemma float_of_str_raises_ValueError (s : str) (e : exn) :
  float_of_str s = Raise e -> e = ValueError.
Proof.
  unfold float_of_str.
  destruct (drop_underscores None (c_strip (to_ascii s))) as [u |];
    [| now intros [= <-]].
  destruct (split_sign u) as [neg body].
  destruct (parse_decimal neg body); [discriminate |].
  destruct (parse_inf_or_nan neg body); [discriminate | now intros [= <-]].
Qed.

(** A leaf raises only in the digit rule: the string passes [isdigit] and
    [int] refuses it. *)
Lemma flatten_leaf_raises (a : scalar) (prefix : str) (e : exn) :
  flatten_leaf a prefix = Raise e ->
  e = ValueError
  /\ exists s,
      a = SStr s /\ startswith (lit "0x") s = false /\ isdigit s = true
      /\ int_of_str s = Raise ValueError.
Proof.
  unfold flatten_leaf.
  destruct a as [| b | z | f | s]; [cbn; discriminate ..|].
  destruct (startswith (lit "0x") s) eqn:Hx; [discriminate |].
  destruct (isdigit s) eqn:Hd.
  - destruct (int_of_str s) as [n | e0] eqn:Hi; cbn [bind]; [discriminate |].
    intros [= <-]. pose proof (int_of_str_raises_ValueError _ Hi) as ->.
    split; [reflexivity |]. exists s. repeat split; assumption.
  - destruct (float_of_str s) as [f | e0] eqn:Hf; [discriminate |].
    pose proof (float_of_str_raises_ValueError _ Hf) as ->. discriminate.
Qed.

Lemma flatten_members_raises (prefix : str) (kvs : list (str * value)) :
  Forall (fun kv => forall p e, flatten_json (snd kv) p = Raise e -> e = ValueError) kvs ->
  forall items e, flatten_members prefix kvs items = Raise e -> e = ValueError.
Proof.
  induction 1 as [| [k v] kvs Hv _ IH]; intros items e; cbn [flatten_members].
  - discriminate.
  - destruct (ignored (child_key prefix k)); [apply IH |].
    destruct (flatten_json v (child_key prefix k)) as [sub | e0] eqn:Hs; cbn [bind].
    + apply IH.
    + intros [= <-]. exact (Hv _ _ Hs).
Qed.

Lemma flatten_json_raises_ValueError (data : value) :
  forall prefix e, flatten_json data prefix = Raise e -> e = ValueError.
Proof.
  induction data as [a | l | d IH] using value_induction; intros prefix e H.
  - now apply flatten_leaf_raises in H.
  - discriminate.
  - rewrite flatten_json_dict in H.
    exact (flatten_members_raises prefix (kvs := d) IH _ H).
Qed.

Lemma loads_raises_JSONDecodeError (t : str) (e : exn) :
  loads t = Raise e -> e = JSONDecodeError.
Proof.
  unfold loads.
  destruct (startswith [65279%N] t); [now intros [= <-] |].
  destruct (scan_once (2 * List.length t + 2) (skip_ws t)) as [v r | |];
    try (now intros [= <-]).
  destruct (skip_ws r); [discriminate | now intros [= <-]].
Qed.

(** The encoder returns [None] exactly when [json.loads] refuses the
    payload; nothing is posted then.  It raises only [ValueError], and only
    after the payload has been parsed. *)
Lemma encode_None_iff (timestamp : Z) (event_type data_str source network : str) :
  json_event_to_line_protocol timestamp event_type data_str source network = Ok None
  <-> loads data_str = Raise JSONDecodeError.
Proof.
  rewrite encode_cases.
  destruct (loads data_str) as [data_json | e] eqn:Hl.
  - destruct (record_fields data_json); split; discriminate.
  - pose proof (loads_raises_JSONDecodeError _ Hl) as ->. tauto.
Qed.

Lemma post_event_not_json (timestamp : Z) (event_type data_str source network : str) :
  loads data_str = Raise JSONDecodeError ->
  post_event timestamp event_type data_str source network = Ok [].
Proof.
  intros H. unfold post_event.
  now rewrite (proj2 (encode_None_iff timestamp event_type data_str source network) H).
Qed.

Lemma encode_raises (timestamp : Z) (event_type data_str source network : str)
      (e : exn) :
  json_event_to_line_protocol timestamp event_type data_str source network = Raise e ->
  e = ValueError
  /\ exists data_json,
      loads data_str = Ok data_json
      /\ flatten_json data_json [] = Raise ValueError.
Proof.
  rewrite encode_cases. unfold record_fields.
  destruct (loads data_str) as [data_json | e0] eqn:Hl.
  - destruct (flatten_json data_json []) as [items | e0] eqn:Hf; cbn [bind];
      [discriminate |].
    intros [= <-]. pose proof (flatten_json_raises_ValueError _ _ Hf) as ->.
    split; [reflexivity |]. now exists data_json.
  - pose proof (loads_raises_JSONDecodeError _ Hl) as ->. discriminate.
Qed.

End LeafProofs.

(** ** Strings of ASCII digits *)

Section DigitProofs.
Import PyStr PyNum Json Main.

Lemma c_isdigit_bounds (c : char) :
  c_isdigit c = true <-> (48 <= c <= 57)%N.
Proof.
  unfold c_isdigit. rewrite andb_true_iff, !N.leb_le. tauto.
Qed.

Lemma c_isdigit_facts (c : char) :
  c_isdigit c = true ->
  (c <? 127)%N = true /\ c_isspace c = false /\ (c =? 95)%N = false
  /\ (c =? 45)%N = false /\ (c =? 43)%N = false /\ (c =? 120)%N = false
  /\ isdigit_char c = true /\ decimal_value c = Some ((c - 48) mod 10)%N.
Proof.
  intros H. pose proof (proj1 (c_isdigit_bounds c) H) as [Hlo Hhi].
  assert (Hfirst : ((48 <=? c) && (c <=? 57))%N = true) by exact H.
  repeat split.
  - apply N.ltb_lt. lia.
  - unfold c_isspace.
    destruct (N.leb_spec 9 c), (N.leb_spec c 13), (N.eqb_spec c 32);
      try reflexivity; lia.
  - apply N.eqb_neq. lia.
  - apply N.eqb_neq. lia.
  - apply N.eqb_neq. lia.
  - apply N.eqb_neq. lia.
  - unfold isdigit_char, isdecimal_char, in_ranges, decimal_ranges.
    cbn [existsb fst snd]. now rewrite Hfirst.
  - unfold decimal_value, decimal_ranges. cbn [find fst snd]. now rewrite Hfirst.
Qed.

Lemma to_ascii_digits (s : str) :
  forallb c_isdigit s = true -> to_ascii s = s.
Proof.
  induction s as [| c s IH]; [reflexivity |].
  cbn [forallb]. intros H. apply andb_true_iff in H as [Hc Hs].
  cbn [to_ascii]. destruct (c_isdigit_facts _ Hc) as (-> & _).
  now rewrite IH.
Qed.

Lemma c_lstrip_digits (s : str) :
  forallb c_isdigit s = true -> c_lstrip s = s.
Proof.
  destruct s as [| c s]; [reflexivity |].
  cbn [forallb]. intros H. apply andb_true_iff in H as [Hc _].
  cbn [c_lstrip]. now destruct (c_isdigit_facts _ Hc) as (_ & -> & _).
Qed.

Lemma forallb_rev (A : Type) (p : A -> bool) (l : list A) :
  forallb p (rev l) = forallb p l.
Proof.
  induction l as [| x l IH]; [reflexivity |].
  cbn [rev forallb]. rewrite forallb_app, IH. cbn [forallb].
  rewrite andb_true_r. apply andb_comm.
Qed.

Lemma c_strip_digits (s : str) :
  forallb c_isdigit s = true -> c_strip s = s.
Proof.
  intros H. unfold c_strip. rewrite (c_lstrip_digits _ H).
  rewrite c_lstrip_digits by now rewrite forallb_rev.
  apply rev_involutive.
Qed.

Lemma drop_underscores_digits (s : str) :
  forallb c_isdigit s = true ->
  forall prev, (forall p, prev = Some p -> c_isdigit p = true) ->
               drop_underscores prev s = Some s.
Proof.
  induction s as [| c s IH]; intros H prev Hprev.
  - cbn. destruct prev as [p |]; [| reflexivity].
    destruct (c_isdigit_facts _ (Hprev p eq_refl)) as (_ & _ & Hu & _).
    apply N.eqb_neq in Hu.
    destruct p as [| q]; [reflexivity |].
    destruct (N.eq_dec (N.pos q) 95) as [E | E]; [contradiction |].
    repeat (destruct q as [q | q |]; try reflexivity); contradiction E; reflexivity.
  - cbn [forallb] in H. apply andb_true_iff in H as [Hc Hs].
    cbn [drop_underscores].
    destruct (c_isdigit_facts _ Hc) as (_ & _ & -> & _).
    assert (Hrec : drop_underscores (Some c) s = Some s).
    { apply IH; [assumption |]. now intros p [= <-]. }
    rewrite Hrec, Hc. cbn [option_map].
    destruct prev as [p |]; [| reflexivity].
    destruct p as [| q]; [reflexivity |].
    repeat (destruct q as [q | q |]; try reflexivity).
Qed.

Lemma digits_value_digits (s : str) :
  forallb c_isdigit s = true ->
  forall acc, exists n, digits_value acc s = Some n.
Proof.
  induction s as [| c s IH]; intros H acc.
  - now exists acc.
  - cbn [forallb] in H. apply andb_true_iff in H as [Hc Hs].
    cbn [digits_value].
    destruct (c_isdigit_facts _ Hc) as (_ & _ & _ & _ & _ & _ & _ & ->).
    apply IH. assumption.
Qed.

(** A non-empty string of ASCII digits passes [isdigit], does not begin
    with [0x], and [int] accepts it. *)
Lemma ascii_digits_accepted (s : str) :
  truthy s = true ->
  forallb c_isdigit s = true ->
  startswith (lit "0x") s = false
  /\ isdigit s = true
  /\ exists n, int_of_str s = Ok (Z.of_N n).
Proof.
  intros Hne Hd. repeat split.
  - destruct s as [| c1 [| c2 s]]; [reflexivity | |].
    + cbn. apply andb_false_r.
    + cbn [forallb] in Hd. apply andb_true_iff in Hd as [_ Hd].
      apply andb_true_iff in Hd as [H2 _].
      destruct (c_isdigit_facts _ H2) as (_ & _ & _ & _ & _ & Hx & _).
      change (startswith (lit "0x") (c1 :: c2 :: s))
        with ((48 =? c1)%N && ((120 =? c2)%N && true)).
      rewrite N.eqb_sym in Hx. rewrite Hx. apply andb_false_r.
  - unfold isdigit. rewrite Hne. cbn [andb].
    apply forallb_forall. intros c Hc.
    rewrite forallb_forall in Hd.
    now destruct (c_isdigit_facts _ (Hd c Hc)) as (_ & _ & _ & _ & _ & _ & -> & _).
  - unfold int_of_str.
    rewrite (to_ascii_digits _ Hd), (c_strip_digits _ Hd).
    assert (Hsign : split_sign s = (false, s)).
    { destruct s as [| c s]; [reflexivity |].
      cbn [forallb] in Hd. apply andb_true_iff in Hd as [Hc _].
      destruct (c_isdigit_facts _ Hc) as (_ & _ & _ & Hm & Hp & _).
      apply N.eqb_neq in Hm, Hp.
      unfold split_sign.
      destruct c as [| q]; [reflexivity |].
      repeat (destruct q as [q | q |]; try reflexivity); congruence. }
    rewrite Hsign.
    rewrite drop_underscores_digits by (assumption || discriminate).
    rewrite Hne, Hd. cbn [andb].
    destruct (digits_value_digits _ Hd 0%N) as [n ->].
    now exists n.
Qed.

End DigitProofs.

(** ** Where the encoder departs from its own attempt *)

Section EncoderDefects.
Import PyStr PyNum Json Main Record Flatten FlattenLoop Samples.

(** The three string rules on the examples of the specification. *)
Lemma string_rule_examples :
  json_event_to_line_protocol 1 (lit "head") (dq "{'a': {'b': '0x1234'}}")
                              (lit "nodeA") (lit "mainnet")
  = Ok (Some (dq "beacon_event,event_type=head,source=nodeA,network=mainnet,endpoint=/eth/v1/events a_b='0x1234',count=1i 1"))
  /\ json_event_to_line_protocol 1 (lit "head") (dq "{'slot': '123'}")
                                 (lit "nodeA") (lit "mainnet")
     = Ok (Some (lit "beacon_event,event_type=head,source=nodeA,network=mainnet,endpoint=/eth/v1/events slot=123i,count=1i 1"))
  /\ json_event_to_line_protocol 1 (lit "head") (dq "{'ratio': '1.5'}")
                                 (lit "nodeA") (lit "mainnet")
     = Ok (Some (lit "beacon_event,event_type=head,source=nodeA,network=mainnet,endpoint=/eth/v1/events ratio=1.5,count=1i 1")).
Proof. repeat split; vm_compute; reflexivity. Qed.

(** A non-empty string of ASCII digits becomes an integer field. *)
Lemma ascii_digits_integer_field (s prefix : str) :
  truthy s = true ->
  forallb c_isdigit s = true ->
  exists n, flatten_leaf (SStr s) prefix
            = Ok [(prefix, str_of_int (Z.of_N n) ++ lit "i")].
Proof.
  intros Hne Hd.
  destruct (ascii_digits_accepted s Hne Hd) as (Hx & Hi & n & Hn).
  exists n. rewrite (flatten_leaf_digits s prefix Hx Hi), Hn. reflexivity.
Qed.

(** A payload whose top-level value is a scalar has one field, named by the
    empty string, before [count], whenever it is encoded. *)
Lemma top_level_scalar_fields
      (timestamp : Z) (event_type data_str source network line : str)
      (a : scalar) :
  loads data_str = Ok (Leaf a) ->
  json_event_to_line_protocol timestamp event_type data_str source network
  = Ok (Some line) ->
  exists v,
    flatten_leaf a [] = Ok [([], v)]
    /\ line = serialize (lit "beacon_event")
                        (record_tags event_type source network)
                        [([], v); (lit "count", lit "1i")] timestamp.
Proof.
  intros Hl H. apply encode_success in H as (data_json & items & Hl' & Hf & _ & ->).
  rewrite Hl in Hl'. injection Hl' as <-. cbn [flatten_json] in Hf.
  pose proof (flatten_leaf_keys _ _ Hf) as Hk.
  destruct items as [| [k v] [| ? ?]]; try discriminate.
  injection Hk as ->. exists v. split; [assumption | reflexivity].
Qed.

Lemma top_level_scalar_examples :
  json_event_to_line_protocol 1 (lit "head") (lit "5") (lit "nodeA") (lit "mainnet")
  = Ok (Some (lit "beacon_event,event_type=head,source=nodeA,network=mainnet,endpoint=/eth/v1/events =5,count=1i 1"))
  /\ json_event_to_line_protocol 1 (lit "head") (dq "'abc'") (lit "nodeA") (lit "mainnet")
     = Ok (Some (dq "beacon_event,event_type=head,source=nodeA,network=mainnet,endpoint=/eth/v1/events ='abc',count=1i 1"))
  /\ json_event_to_line_protocol 1 (lit "head") (lit "null") (lit "nodeA") (lit "mainnet")
     = Ok (Some (dq "beacon_event,event_type=head,source=nodeA,network=mainnet,endpoint=/eth/v1/events ='None',count=1i 1")).
Proof. repeat split; vm_compute; reflexivity. Qed.

(** C2: a boolean leaf is caught by the test for [(int, float)], because
    [bool] is a subclass of [int], and is rendered by [str] as [True] or
    [False]; the branch that would write [true] or [false] is never reached.
    An integer leaf is rendered by [str] too, without the suffix [i].  The
    payload [{"ok": true, "n": 5}] is encoded as [ok=True,n=5,count=1i]. *)
Theorem native_scalars_rendered_by_str :
  (forall b prefix,
      flatten_leaf (SBool b) prefix
      = Ok [(prefix, if b then lit "True" else lit "False")])
  /\ (forall z prefix, flatten_leaf (SInt z) prefix = Ok [(prefix, str_of_int z)])
  /\ (forall f prefix, flatten_leaf (SFloat f) prefix = Ok [(prefix, str_of_float f)])
  /\ json_event_to_line_protocol 1 (lit "head") (dq "{'ok': true, 'n': 5}")
                                 (lit "nodeA") (lit "mainnet")
     = Ok (Some (lit "beacon_event,event_type=head,source=nodeA,network=mainnet,endpoint=/eth/v1/events ok=True,n=5,count=1i 1")).
Proof.
  split; [intros [|] prefix; reflexivity |].
  split; [reflexivity |]. split; [reflexivity |].
  vm_compute. reflexivity.
Qed.

(** C4: the payload [{"a":"\u00b2"}] is valid JSON, yet the encoder neither
    returns a line nor [None]: [int] raises [ValueError] on the superscript
    two, which [isdigit] has let through, and the exception leaves
    [json_event_to_line_protocol] and [post_event]. *)
Theorem encode_raises_on_valid_json :
  loads (dq "{'a':'\u00b2'}") = Ok (PDict [(lit "a", Leaf (SStr superscript_two))])
  /\ json_event_to_line_protocol 1 (lit "head") (dq "{'a':'\u00b2'}")
                                 (lit "nodeA") (lit "mainnet")
     = Raise ValueError
  /\ post_event 1 (lit "head") (dq "{'a':'\u00b2'}") (lit "nodeA") (lit "mainnet")
     = Raise ValueError.
Proof. repeat split; vm_compute; reflexivity. Qed.

(** C8: the string made of the superscript two does not begin with 0x, is
    not made of decimal digits and is not a floating-point literal, so the
    rules make it a quoted string; the code sends it to the digit rule,
    because [isdigit] accepts it, and [int] raises. *)
Theorem digit_rule_raises_on_superscript_two :
  startswith (lit "0x") superscript_two = false
  /\ forallb isdecimal_char superscript_two = false
  /\ float_of_str superscript_two = Raise ValueError
  /\ isdigit superscript_two = true
  /\ int_of_str superscript_two = Raise ValueError
  /\ (forall prefix, flatten_leaf (SStr superscript_two) prefix = Raise ValueError).
Proof. repeat split; vm_compute; reflexivity. Qed.

(** C10: the payload ["\u00b2"] is valid JSON whose top-level value is a
    string, yet no record is returned: the encoder raises [ValueError]. *)
Theorem top_level_string_raises :
  loads (dq "'\u00b2'") = Ok (Leaf (SStr superscript_two))
  /\ json_event_to_line_protocol 1 (lit "head") (dq "'\u00b2'")
                                 (lit "nodeA") (lit "mainnet")
     = Raise ValueError.
Proof. split; vm_compute; reflexivity. Qed.

(** C7: the payload [{"a":"\u00b2","b":1}] is valid JSON, and its member
    [b] is neither in the Ignore-Set nor inside an array, so it is not one
    of the subtrees the claim excludes; alone it gives the field [b].  Yet
    the encoder gives no field at all: the digit rule raises [ValueError]
    on the sibling [a], and [flatten_json], [json_event_to_line_protocol]
    and [post_event] raise. *)
Theorem kept_member_lost_to_digit_rule :
  loads (dq "{'a':'\u00b2','b':1}")
  = Ok (PDict [(lit "a", Leaf (SStr superscript_two)); (lit "b", Leaf (SInt 1))])
  /\ reaches (PDict [(lit "a", Leaf (SStr superscript_two));
                     (lit "b", Leaf (SInt 1))]) [] (lit "b") [lit "b"]
  /\ kept [lit "b"]
  /\ flatten_json (PDict [(lit "b", Leaf (SInt 1))]) [] = Ok [(lit "b", lit "1")]
  /\ flatten_json (PDict [(lit "a", Leaf (SStr superscript_two));
                          (lit "b", Leaf (SInt 1))]) [] = Raise ValueError
  /\ json_event_to_line_protocol 1 (lit "head") (dq "{'a':'\u00b2','b':1}")
                                 (lit "nodeA") (lit "mainnet")
     = Raise ValueError
  /\ post_event 1 (lit "head") (dq "{'a':'\u00b2','b':1}")
                (lit "nodeA") (lit "mainnet")
     = Raise ValueError.
Proof.
  split; [vm_compute; reflexivity |]. split.
  - apply (@reaches_member _ [] (lit "b") (Leaf (SInt 1)) (lit "b") []).
    + right. now left.
    + apply reaches_leaf.
  - split; [repeat constructor |].
    repeat split; vm_compute; reflexivity.
Qed.

End EncoderDefects.

(** * Further properties *)

(** ** Flattening, leaf by leaf *)

Section LeafOrderProofs.
Import PyStr PyNum Json Main Flatten FlattenLoop Leaves.

Lemma kept_leaves_dict (d : list (str * value)) (prefix : str) :
  kept_leaves (PDict d) prefix = kept_members prefix d.
Proof.
  cbn [kept_leaves].
  induction d as [| [k v] d IH]; [reflexivity |].
  cbn [kept_members]. now rewrite IH.
Qed.

Lemma set_set (V : Type) (d : Dict.dict V) (k : str) (v w : V) :
  Dict.set (Dict.set d k v) k w = Dict.set d k w.
Proof.
  induction d as [| [k' v'] d IH]; cbn [Dict.set].
  - now rewrite eqb_refl.
  - destruct (eqb k' k) eqn:E; cbn [Dict.set]; rewrite E; [reflexivity |].
    now rewrite IH.
Qed.

Lemma set_swap_present (V : Type) (d : Dict.dict V) (k k1 : str) (v v1 : V) :
  In k (Dict.keys d) -> k <> k1 ->
  Dict.set (Dict.set d k1 v1) k v = Dict.set (Dict.set d k v) k1 v1.
Proof.
  induction d as [| [k' v'] d IH]; intros Hin Hne; [destruct Hin |].
  cbn [Dict.set].
  destruct (eqb k' k1) eqn:E1, (eqb k' k) eqn:E; cbn [Dict.set];
    rewrite ?E1, ?E; try reflexivity.
  - apply eqb_eq in E1, E. congruence.
  - f_equal. apply IH; [| assumption].
    destruct Hin as [Hin | Hin]; [| assumption].
    cbn in Hin. apply eqb_neq in E. congruence.
Qed.

Lemma set_update_present (V : Type) (other d : Dict.dict V) (k : str) (v : V) :
  In k (Dict.keys d) -> ~ In k (Dict.keys other) ->
  Dict.set (Dict.update d other) k v = Dict.update (Dict.set d k v) other.
Proof.
  unfold Dict.update. revert d.
  induction other as [| [k1 v1] other IH]; intros d Hin Hnot; [reflexivity |].
  cbn [fold_left fst snd]. cbn [Dict.keys List.map fst] in Hnot.
  rewrite IH.
  - f_equal. apply set_swap_present; [assumption |].
    intros ->. apply Hnot. now left.
  - apply In_keys_set. now left.
  - intros H. apply Hnot. now right.
Qed.

Lemma update_set (V : Type) (d : Dict.dict V) :
  NoDup (Dict.keys d) ->
  forall a k v,
    Dict.update a (Dict.set d k v) = Dict.set (Dict.update a d) k v.
Proof.
  induction d as [| [k' v'] d IH]; intros Hnd a k v; [reflexivity |].
  cbn [Dict.keys List.map fst] in Hnd. inversion Hnd as [| ? ? Hnotin Hnd']; subst.
  cbn [Dict.set]. destruct (eqb k' k) eqn:E.
  - apply eqb_eq in E. subst k'.
    change (Dict.update a ((k, v) :: d)) with (Dict.update (Dict.set a k v) d).
    change (Dict.update a ((k, v') :: d)) with (Dict.update (Dict.set a k v') d).
    rewrite set_update_present.
    + now rewrite set_set.
    + apply In_keys_set. now right.
    + exact Hnotin.
  - change (Dict.update a ((k', v') :: Dict.set d k v))
      with (Dict.update (Dict.set a k' v') (Dict.set d k v)).
    now rewrite IH.
Qed.

Lemma update_update (V : Type) (es d a : Dict.dict V) :
  NoDup (Dict.keys d) ->
  Dict.update a (Dict.update d es) = Dict.update (Dict.update a d) es.
Proof.
  revert d. induction es as [| [k v] es IH]; intros d Hnd; [reflexivity |].
  change (Dict.update d ((k, v) :: es)) with (Dict.update (Dict.set d k v) es).
  rewrite IH by now apply NoDup_keys_set.
  now rewrite update_set.
Qed.

Lemma update_app (V : Type) (xs ys a : Dict.dict V) :
  Dict.update a (xs ++ ys) = Dict.update (Dict.update a xs) ys.
Proof. unfold Dict.update. apply fold_left_app. Qed.

Lemma update_dict_of (a : Dict.dict str) (es : list (str * str)) :
  Dict.update a (dict_of es) = Dict.update a es.
Proof.
  unfold dict_of. rewrite update_update; [reflexivity | constructor].
Qed.

Lemma flatten_leaf_entry (a : scalar) (path : str) (sub : Dict.dict str) :
  flatten_leaf a path = Ok sub -> exists v, sub = [(path, v)].
Proof.
  intros H. pose proof (flatten_leaf_keys _ _ H) as Hk.
  destruct sub as [| [k v] [| ? ?]]; try discriminate.
  injection Hk as ->. now exists v.
Qed.

Lemma render_leaves_app (xs ys : list (str * scalar)) :
  render_leaves (xs ++ ys)
  = bind (render_leaves xs)
         (fun ex => bind (render_leaves ys) (fun ey => Ok (ex ++ ey))).
Proof.
  induction xs as [| [path a] xs IH]; cbn [render_leaves app bind].
  - destruct (render_leaves ys); reflexivity.
  - destruct (flatten_leaf a path) as [sub |]; cbn [bind]; [| reflexivity].
    rewrite IH. destruct (render_leaves xs) as [ex |]; cbn [bind]; [| reflexivity].
    destruct (render_leaves ys) as [ey |]; cbn [bind]; [| reflexivity].
    now rewrite app_assoc.
Qed.

Lemma flatten_members_leaf_by_leaf (prefix : str) (kvs : list (str * value)) :
  Forall (fun kv =>
            forall p,
              flatten_json (snd kv) p
              = bind (render_leaves (kept_leaves (snd kv) p))
                     (fun es => Ok (dict_of es))) kvs ->
  forall items,
    flatten_members prefix kvs items
    = bind (render_leaves (kept_members prefix kvs))
           (fun es => Ok (Dict.update items es)).
Proof.
  induction 1 as [| [k v] kvs Hv _ IH]; intros items; [reflexivity |].
  cbn [flatten_members kept_members]. cbn [snd] in Hv.
  destruct (ignored (child_key prefix k)); [apply IH |].
  rewrite Hv, render_leaves_app.
  destruct (render_leaves (kept_leaves v (child_key prefix k))) as [ex |];
    cbn [bind]; [| reflexivity].
  rewrite IH.
  destruct (render_leaves (kept_members prefix kvs)) as [ey |];
    cbn [bind]; [| reflexivity].
  now rewrite update_dict_of, update_app.
Qed.

End LeafOrderProofs.

Section LeafOrder.
Import PyStr PyNum Json Main Flatten FlattenLoop Leaves.

Lemma flatten_json_by_leaves (data : value) :
  forall prefix,
    flatten_json data prefix
    = bind (render_leaves (kept_leaves data prefix))
           (fun entries => Ok (dict_of entries)).
Proof.
  induction data as [a | l | d IH] using value_induction; intros prefix.
  - cbn [flatten_json kept_leaves render_leaves].
    destruct (flatten_leaf a prefix) as [sub |] eqn:H; cbn [bind]; [| reflexivity].
    destruct (flatten_leaf_entry _ _ H) as [v ->]. reflexivity.
  - reflexivity.
  - rewrite flatten_json_dict, kept_leaves_dict.
    now rewrite (flatten_members_leaf_by_leaf prefix (kvs := d) IH).
Qed.

(** X1: flattening is leaf by leaf.  [flatten_json] gives the dictionary
    built from the entries of the kept scalars, taken in the order of the
    payload, and it raises what the first scalar that cannot be rendered
    raises. *)
Theorem flatten_json_leaf_by_leaf (data : value) (prefix : str) :
  flatten_json data prefix
  = bind (render_leaves (kept_leaves data prefix))
         (fun entries => Ok (dict_of entries)).
Proof. apply flatten_json_by_leaves. Qed.

Lemma get_set_other (V : Type) (d : Dict.dict V) (k q : str) (v : V) :
  k <> q -> Dict.get (Dict.set d k v) q = Dict.get d q.
Proof.
  intros Hne. induction d as [| [k' v'] d IH]; cbn [Dict.set Dict.get].
  - apply eqb_neq in Hne. now rewrite Hne.
  - destruct (eqb k' k) eqn:E; cbn [Dict.get].
    + apply eqb_eq in E. subst k'.
      apply eqb_neq in Hne. now rewrite Hne.
    + now rewrite IH.
Qed.

Lemma get_update (es : list (str * str)) :
  forall (a : Dict.dict str) (q : str),
    Dict.get (Dict.update a es) q
    = match last_value es q with
      | Some w => Some w
      | None => Dict.get a q
      end.
Proof.
  induction es as [| [k v] es IH]; intros a q; [reflexivity |].
  change (Dict.update a ((k, v) :: es)) with (Dict.update (Dict.set a k v) es).
  rewrite IH. cbn [last_value].
  destruct (last_value es q) as [w |]; [reflexivity |].
  destruct (eqb k q) eqn:E.
  - apply eqb_eq in E. subst. apply get_set_same.
  - apply eqb_neq in E. now apply get_set_other.
Qed.

Lemma flatten_json_entries
      (data : value) (prefix : str) (items : Dict.dict str) :
  flatten_json data prefix = Ok items ->
  exists entries,
    render_leaves (kept_leaves data prefix) = Ok entries
    /\ List.map fst entries = List.map fst (kept_leaves data prefix)
    /\ forall path, Dict.get items path = last_value entries path.
Proof.
  rewrite flatten_json_by_leaves.
  destruct (render_leaves (kept_leaves data prefix)) as [entries |] eqn:Hr;
    cbn [bind]; [| discriminate].
  intros [= <-]. exists entries. split; [reflexivity |]. split.
  - clear -Hr. revert entries Hr.
    induction (kept_leaves data prefix) as [| [path a] ls IH]; intros entries Hr.
    + cbn in Hr. now inversion Hr.
    + cbn [render_leaves] in Hr.
      destruct (flatten_leaf a path) as [sub |] eqn:Hl; cbn [bind] in Hr;
        [| discriminate].
      destruct (render_leaves ls) as [rest |]; cbn [bind] in Hr; [| discriminate].
      inversion Hr; subst. destruct (flatten_leaf_entry _ _ Hl) as [v ->].
      cbn. f_equal. now apply IH.
  - intros path. unfold dict_of. rewrite get_update.
    now destruct (last_value entries path).
Qed.

(** X2: when several kept scalars have the same flattened path, the field
    holds the entry of the one met last; a field exists for a path exactly
    when some kept scalar has it. *)
Theorem flatten_json_last_leaf_wins
        (data : value) (prefix : str) (items : Dict.dict str) :
  flatten_json data prefix = Ok items ->
  exists entries,
    render_leaves (kept_leaves data prefix) = Ok entries
    /\ List.map fst entries = List.map fst (kept_leaves data prefix)
    /\ forall path, Dict.get items path = last_value entries path.
Proof. apply flatten_json_entries. Qed.

Lemma flatten_json_last_leaf_wins_witness :
  exists entries,
    render_leaves
      (kept_leaves
         (PDict [(lit "a", PDict [(lit "b", Leaf (SInt 1))]);
                 (lit "c", Leaf (SStr (lit "7")));
                 (lit "a_b", Leaf (SInt 2))]) []) = Ok entries
    /\ List.map fst entries
       = List.map fst
           (kept_leaves
              (PDict [(lit "a", PDict [(lit "b", Leaf (SInt 1))]);
                      (lit "c", Leaf (SStr (lit "7")));
                      (lit "a_b", Leaf (SInt 2))]) [])
    /\ forall path,
        Dict.get [(lit "a_b", lit "2"); (lit "c", lit "7i")] path
        = last_value entries path.
Proof.
  apply (flatten_json_last_leaf_wins
           (PDict [(lit "a", PDict [(lit "b", Leaf (SInt 1))]);
                   (lit "c", Leaf (SStr (lit "7")));
                   (lit "a_b", Leaf (SInt 2))]) []).
  vm_compute. reflexivity.
Defined.

Lemma render_leaves_raises (leaves : list (str * scalar)) :
  (exists e, render_leaves leaves = Raise e)
  <-> exists path a e, In (path, a) leaves /\ flatten_leaf a path = Raise e.
Proof.
  induction leaves as [| [path a] ls IH]; cbn [render_leaves].
  - split; [intros [e H]; discriminate | intros (? & ? & ? & [] & _)].
  - destruct (flatten_leaf a path) as [sub | e0] eqn:Hl; cbn [bind].
    + destruct (render_leaves ls) as [rest | e1]; cbn [bind].
      * split; [intros [e H]; discriminate |].
        intros (p & b & e & [Heq | Hin] & Hraise).
        -- inversion Heq; subst. congruence.
        -- destruct (proj2 IH) as [e' He']; [| discriminate].
           now exists p, b, e.
      * split; [| intros _; now exists e1].
        intros _. destruct (proj1 IH) as (p & b & e & Hin & Hraise);
          [now exists e1 |].
        exists p, b, e. split; [now right | assumption].
    + split; [| intros _; now exists e0].
      intros _. exists path, a, e0. split; [now left | assumption].
Qed.

(** X3: [flatten_json] raises exactly when some kept scalar is a string
    that does not begin with 0x, passes [isdigit] and is refused by [int];
    what it raises then is [ValueError]. *)
Theorem flatten_json_raises_iff (data : value) (prefix : str) :
  ((exists e, flatten_json data prefix = Raise e)
   <-> exists path s,
        In (path, SStr s) (kept_leaves data prefix)
        /\ startswith (lit "0x") s = false
        /\ isdigit s = true
        /\ int_of_str s = Raise ValueError)
  /\ forall e, flatten_json data prefix = Raise e -> e = ValueError.
Proof.
  split; [| intros e; apply flatten_json_raises_ValueError].
  rewrite flatten_json_by_leaves. split.
  - intros [e H].
    destruct (render_leaves (kept_leaves data prefix)) as [es | e0] eqn:Hr;
      cbn [bind] in H; [discriminate |].
    destruct (proj1 (render_leaves_raises (kept_leaves data prefix)))
      as (path & a & e1 & Hin & Hraise); [now exists e0 |].
    apply flatten_leaf_raises in Hraise as (_ & s & -> & Hx & Hd & Hi).
    now exists path, s.
  - intros (path & s & Hin & Hx & Hd & Hi).
    destruct (proj2 (render_leaves_raises (kept_leaves data prefix))) as [e He].
    + exists path, (SStr s), ValueError. split; [assumption |].
      rewrite (flatten_leaf_digits s path Hx Hd), Hi. reflexivity.
    + exists e. now rewrite He.
Qed.

End LeafOrder.

(** ** Field names *)

Section PathProofs.
Import PyStr PyNum Json Main Flatten FlattenLoop Leaves Paths.

Lemma join_concat (k : str) (keys : list str) :
  join (lit "_") (k :: keys)
  = k ++ List.concat (List.map (fun q => lit "_" ++ q) keys).
Proof.
  revert k. induction keys as [| q keys IH]; intros k.
  - cbn. now rewrite app_nil_r.
  - change (join (lit "_") (k :: q :: keys))
      with (k ++ lit "_" ++ join (lit "_") (q :: keys)).
    rewrite IH. cbn [List.map List.concat]. now rewrite <- app_assoc.
Qed.

Lemma path_from_truthy (keys : list str) :
  forall prefix,
    truthy prefix = true ->
    path_from prefix keys
    = prefix ++ List.concat (List.map (fun q => lit "_" ++ q) keys).
Proof.
  unfold path_from.
  induction keys as [| k keys IH]; intros prefix Hp; cbn [fold_left List.map List.concat].
  - now rewrite app_nil_r.
  - unfold child_key at 2. rewrite Hp. rewrite IH.
    + now rewrite <- !app_assoc.
    + destruct prefix; [discriminate | reflexivity].
Qed.

(** The path built from the root is the underscore-joined chain of keys
    without its leading empty keys. *)
Lemma path_from_root (keys : list str) : path_from [] keys = flat_path keys.
Proof.
  unfold flat_path.
  induction keys as [| k keys IH]; [reflexivity |].
  change (path_from [] (k :: keys)) with (path_from k keys).
  cbn [drop_empty]. destruct (truthy k) eqn:Hk.
  - rewrite join_concat. now apply path_from_truthy.
  - destruct k; [exact IH | discriminate].
Qed.

Lemma In_kept_members (prefix : str) (kvs : list (str * value))
      (path : str) (a : scalar) :
  In (path, a) (kept_members prefix kvs)
  <-> exists k v,
      In (k, v) kvs /\ ignored (child_key prefix k) = false
      /\ In (path, a) (kept_leaves v (child_key prefix k)).
Proof.
  induction kvs as [| [k v] kvs IH]; cbn [kept_members].
  - split; [intros [] | intros (? & ? & [] & _)].
  - destruct (ignored (child_key prefix k)) eqn:Hi.
    + rewrite IH. split.
      * intros (k' & v' & Hin & H). exists k', v'. split; [now right | exact H].
      * intros (k' & v' & [Heq | Hin] & Hig & H).
        -- inversion Heq; subst. congruence.
        -- now exists k', v'.
    + rewrite in_app_iff, IH. split.
      * intros [H | (k' & v' & Hin & H)].
        -- exists k, v. repeat split; [now left | assumption | assumption].
        -- exists k', v'. split; [now right | exact H].
      * intros (k' & v' & [Heq | Hin] & Hig & H).
        -- inversion Heq; subst. now left.
        -- right. now exists k', v'.
Qed.

Lemma In_kept_leaves (data : value) :
  forall prefix path a,
    In (path, a) (kept_leaves data prefix)
    <-> exists keys,
        member_chain data keys a
        /\ path = path_from prefix keys
        /\ Forall (fun pre => ignored (path_from prefix pre) = false)
                  (prefixes keys).
Proof.
  induction data as [b | l | d IH] using value_induction; intros prefix path a.
  - cbn [kept_leaves In]. split.
    + intros [[= <- <-] | []]. exists []. repeat split; constructor.
    + intros (keys & Hc & -> & _). inversion Hc; subst. now left.
  - cbn [kept_leaves In]. split; [intros [] |].
    intros (keys & Hc & _). inversion Hc.
  - rewrite kept_leaves_dict, In_kept_members. split.
    + intros (k & v & Hin & Hig & H).
      rewrite Forall_forall in IH.
      apply (IH (k, v) Hin) in H as (keys & Hc & -> & Hall).
      exists (k :: keys). repeat split.
      * econstructor; eassumption.
      * cbn [prefixes]. constructor; [exact Hig |].
        rewrite Forall_map. exact Hall.
    + intros (keys & Hc & -> & Hall). inversion Hc; subst.
      cbn [prefixes] in Hall. inversion Hall as [| ? ? Hig Hrest]; subst.
      rewrite Forall_map in Hrest.
      eexists _, _. split; [eassumption |]. split; [exact Hig |].
      rewrite Forall_forall in IH.
      apply (IH (k, v)); [assumption |].
      exists keys0. repeat split; assumption.
Qed.

Lemma In_keys_dict_of (entries : list (str * str)) (path : str) :
  In path (Dict.keys (dict_of entries)) <-> In path (List.map fst entries).
Proof.
  unfold dict_of. rewrite In_keys_update. cbn. tauto.
Qed.

End PathProofs.

Section Paths.
Import PyStr PyNum Json Main Flatten FlattenLoop Leaves Paths.

(** X4: a name is a field of the flattened payload exactly when some chain
    of object keys leads to a scalar, the name is the chain joined by
    underscores (empty keys at the front left out), and no initial segment
    of the chain has its joined name in the Ignore-Set. *)
Theorem field_names_are_joined_key_chains
        (data : value) (items : Dict.dict str) :
  flatten_json data [] = Ok items ->
  forall path,
    In path (Dict.keys items)
    <-> exists keys a,
        member_chain data keys a
        /\ path = flat_path keys
        /\ Forall (fun pre => ignored (flat_path pre) = false) (prefixes keys).
Proof.
  intros H path.
  destruct (flatten_json_entries _ _ H) as (entries & Hr & Hfst & _).
  rewrite flatten_json_by_leaves, Hr in H. cbn [bind] in H.
  injection H as <-.
  rewrite In_keys_dict_of, Hfst, in_map_iff. split.
  - intros ([p a] & <- & Hin). cbn [fst].
    apply In_kept_leaves in Hin as (keys & Hc & -> & Hall).
    exists keys, a. rewrite path_from_root. repeat split; [assumption |].
    eapply Forall_impl; [| exact Hall].
    intros pre Hp. now rewrite <- path_from_root.
  - intros (keys & a & Hc & -> & Hall).
    exists (flat_path keys, a). split; [reflexivity |].
    apply In_kept_leaves. exists keys. rewrite path_from_root.
    repeat split; [assumption |].
    eapply Forall_impl; [| exact Hall].
    intros pre Hp. now rewrite path_from_root.
Qed.

Lemma field_names_are_joined_key_chains_witness :
  flatten_json Samples.nested [] = Ok [(lit "data_d", lit "7i")]
  /\ (In (lit "data_d") (Dict.keys [(lit "data_d", lit "7i")])
      <-> exists keys a,
          member_chain Samples.nested keys a
          /\ lit "data_d" = flat_path keys
          /\ Forall (fun pre => ignored (flat_path pre) = false) (prefixes keys)).
Proof.
  split; [vm_compute; reflexivity |].
  apply (@field_names_are_joined_key_chains
           Samples.nested [(lit "data_d", lit "7i")]).
  vm_compute. reflexivity.
Defined.

End Paths.

(** ** Digit strings are written back without leading zeros *)

Section DigitValueProofs.
Import PyStr PyNum Json Main Digits.

Lemma digit_cases (c : char) :
  c_isdigit c = true ->
  c = 48%N \/ c = 49%N \/ c = 50%N \/ c = 51%N \/ c = 52%N
  \/ c = 53%N \/ c = 54%N \/ c = 55%N \/ c = 56%N \/ c = 57%N.
Proof. intros H. apply c_isdigit_bounds in H. lia. Qed.

Lemma uint_digits_of_digits (s : str) :
  forallb c_isdigit s = true -> uint_digits (uint_of_digits s) = s.
Proof.
  induction s as [| c s IH]; [reflexivity |].
  cbn [forallb]. intros H. apply andb_true_iff in H as [Hc Hs].
  specialize (IH Hs).
  destruct (digit_cases _ Hc) as [-> | [-> | [-> | [-> | [-> | [-> | [-> | [-> | [-> | ->]]]]]]]]];
    cbn [uint_of_digits N.sub Pos.sub Pos.sub_mask Pos.pred_double Pos.double_mask
         Pos.succ_double_mask Pos.double_pred_mask uint_digits];
    cbn; now rewrite IH.
Qed.

Lemma digits_value_acc (u : Decimal.uint) :
  forall p, digits_value (Npos p) (uint_digits u) = Some (Npos (Pos.of_uint_acc u p)).
Proof.
  induction u as [| u IH | u IH | u IH | u IH | u IH | u IH | u IH | u IH | u IH | u IH];
    intros p; [reflexivity | ..];
    cbn [uint_digits digits_value Pos.of_uint_acc];
    [change (decimal_value 48%N) with (Some 0%N)
    | change (decimal_value 49%N) with (Some 1%N)
    | change (decimal_value 50%N) with (Some 2%N)
    | change (decimal_value 51%N) with (Some 3%N)
    | change (decimal_value 52%N) with (Some 4%N)
    | change (decimal_value 53%N) with (Some 5%N)
    | change (decimal_value 54%N) with (Some 6%N)
    | change (decimal_value 55%N) with (Some 7%N)
    | change (decimal_value 56%N) with (Some 8%N)
    | change (decimal_value 57%N) with (Some 9%N)];
    cbv beta iota;
    match goal with
    | |- digits_value ?x _ = Some (Npos (Pos.of_uint_acc _ ?q)) =>
        replace x with (Npos q) by lia
    end;
    apply IH.
Qed.

Lemma digits_value_of_uint (u : Decimal.uint) :
  digits_value 0%N (uint_digits u) = Some (N.of_uint u).
Proof.
  induction u as [| u IH | u IH | u IH | u IH | u IH | u IH | u IH | u IH | u IH | u IH];
    [reflexivity | exact IH | ..];
    cbn [uint_digits digits_value];
    [ change (decimal_value 49%N) with (Some 1%N)
    | change (decimal_value 50%N) with (Some 2%N)
    | change (decimal_value 51%N) with (Some 3%N)
    | change (decimal_value 52%N) with (Some 4%N)
    | change (decimal_value 53%N) with (Some 5%N)
    | change (decimal_value 54%N) with (Some 6%N)
    | change (decimal_value 55%N) with (Some 7%N)
    | change (decimal_value 56%N) with (Some 8%N)
    | change (decimal_value 57%N) with (Some 9%N)];
    cbv beta iota; apply digits_value_acc.
Qed.

Lemma uint_digits_nzhead (u : Decimal.uint) :
  uint_digits (Decimal.nzhead u) = lstrip_zeros (uint_digits u).
Proof.
  induction u; try reflexivity. exact IHu.
Qed.

Lemma uint_digits_unorm (u : Decimal.uint) :
  uint_digits (Decimal.unorm u) = normalized (uint_digits u).
Proof.
  unfold Decimal.unorm, normalized. rewrite <- uint_digits_nzhead.
  destruct (Decimal.nzhead u); reflexivity.
Qed.

Lemma str_of_int_of_N (n : N) : str_of_int (Z.of_N n) = uint_digits (N.to_uint n).
Proof. destruct n; reflexivity. Qed.

(** [int] reads a string of ASCII digits as the number it spells, and
    [str] writes that number as the digits without leading zeros. *)
Lemma ascii_digits_value (s : str) :
  truthy s = true ->
  forallb c_isdigit s = true ->
  int_of_str s = Ok (Z.of_N (N.of_uint (uint_of_digits s)))
  /\ str_of_int (Z.of_N (N.of_uint (uint_of_digits s))) = normalized s.
Proof.
  intros Hne Hd. split.
  - unfold int_of_str.
    rewrite (to_ascii_digits _ Hd), (c_strip_digits _ Hd).
    assert (Hsign : split_sign s = (false, s)).
    { destruct s as [| c s]; [reflexivity |].
      cbn [forallb] in Hd. apply andb_true_iff in Hd as [Hc _].
      destruct (digit_cases _ Hc) as [-> | [-> | [-> | [-> | [-> | [-> | [-> | [-> | [-> | ->]]]]]]]]];
        reflexivity. }
    rewrite Hsign.
    rewrite drop_underscores_digits by (assumption || discriminate).
    rewrite Hne, Hd. cbn [andb].
    rewrite <- (uint_digits_of_digits _ Hd) at 1.
    now rewrite digits_value_of_uint.
  - rewrite str_of_int_of_N, DecimalN.Unsigned.to_of, uint_digits_unorm.
    now rewrite (uint_digits_of_digits _ Hd).
Qed.

End DigitValueProofs.

Section DigitValue.
Import PyStr PyNum Json Main Digits.

(** X5: a leaf that is a non-empty string of at most 4300 ASCII digits
    (the length [int] converts by default) becomes the integer field made
    of the same digits without their leading zeros (a single zero when all
    are zeros), followed by [i]. *)
Theorem digit_string_written_without_leading_zeros (s prefix : str) :
  truthy s = true ->
  forallb c_isdigit s = true ->
  (List.length s <= 4300)%nat ->
  flatten_leaf (SStr s) prefix = Ok [(prefix, normalized s ++ lit "i")].
Proof.
  intros Hne Hd _.
  destruct (ascii_digits_accepted s Hne Hd) as (Hx & Hi & _).
  destruct (ascii_digits_value s Hne Hd) as [Hv Hs].
  rewrite (flatten_leaf_digits s prefix Hx Hi), Hv. cbn [bind].
  now rewrite Hs.
Qed.

Lemma digit_string_written_without_leading_zeros_witness :
  flatten_leaf (SStr (lit "007")) (lit "slot")
  = Ok [(lit "slot", normalized (lit "007") ++ lit "i")].
Proof.
  apply (digit_string_written_without_leading_zeros (lit "007") (lit "slot"));
    [reflexivity | reflexivity | cbn; lia].
Defined.

End DigitValue.

(** ** The stream loop: what is dispatched, and what a stop changes *)

Section TraceProofs.
Import PyStr SseClient Framing Stream Traces.

Variable self : SSEClient.

Lemma lstrip_head (t : str) (c : char) (r : str) :
  lstrip t = c :: r -> isspace_char c = false.
Proof.
  induction t as [| x t IH]; cbn [lstrip]; [discriminate |].
  destruct (isspace_char x) eqn:E; [exact IH |].
  intros [= <- <-]. exact E.
Qed.

Lemma lstrip_last (x : str) (c : char) :
  isspace_char c = false -> exists y, lstrip (x ++ [c]) = y ++ [c].
Proof.
  intros Hc. induction x as [| a x IH]; cbn [app lstrip].
  - rewrite Hc. now exists [].
  - destruct (isspace_char a); [exact IH |]. now exists (a :: x).
Qed.

Lemma strip_trimmed (t : str) : trimmed (strip t).
Proof.
  unfold strip, rstrip. split.
  - intros c r H.
    destruct (lstrip t) as [| c0 u] eqn:Hl; [discriminate |].
    pose proof (lstrip_head _ Hl) as Hc0.
    cbn [rev] in H.
    destruct (lstrip_last (rev u) c0 Hc0) as [y Hy]. rewrite Hy in H.
    rewrite rev_app_distr in H. cbn in H. now injection H as <- _.
  - intros c r H.
    apply (f_equal (@rev char)) in H.
    rewrite rev_involutive, rev_app_distr in H. cbn in H.
    exact (lstrip_head _ H).
Qed.

Lemma on_line_dispatch (all : list str) (event_type : option str) (line : str) :
  In line all ->
  buffered_from all event_type ->
  buffered_from all (fst (on_line self event_type line))
  /\ forall k d,
      In (Dispatch k d) (snd (on_line self event_type line)) ->
      truthy k = true /\ event_from_lines all k d.
Proof.
  intros Hin Hbuf. unfold on_line.
  destruct (truthy line); cbn [negb]; [| split; [exact Hbuf | intros ? ? []]].
  destruct (startswith (lit "event:") line) eqn:He.
  - split; [| intros ? ? []].
    intros k [= <-]. now exists line.
  - destruct (startswith (lit "data:") line) eqn:Hd; cbn [andb];
      [| split; [exact Hbuf | intros ? ? []]].
    destruct event_type as [k0 |]; cbn [have_kind];
      [| split; [exact Hbuf | intros ? ? []]].
    destruct (truthy k0) eqn:Hk; [| split; [exact Hbuf | intros ? ? []]].
    split; [intros k; discriminate |].
    cbn [fst snd]. unfold _run_event_function.
    destruct (has_on_event self); [| intros ? ? []].
    intros k d [[= <- <-] | []]. split; [exact Hk |].
    destruct (Hbuf k0 eq_refl) as (le & Hle & Hse & ->).
    exists le, line. repeat split; assumption.
Qed.

Lemma read_lines_dispatch (stop_after : option nat) (all lines : list str) :
  incl lines all ->
  forall calls event_type,
    buffered_from all event_type ->
    forall k d,
      In (Dispatch k d)
         (snd (fst (read_lines self stop_after calls event_type lines))) ->
      truthy k = true /\ event_from_lines all k d.
Proof.
  induction lines as [| line rest IH]; intros Hincl calls event_type Hbuf k d;
    cbn [read_lines].
  - intros [].
  - destruct (is_set stop_after calls); [intros [] |].
    destruct (@on_line_dispatch all event_type line (Hincl line (or_introl eq_refl)) Hbuf)
      as [Hbuf' Hd].
    destruct (on_line self event_type line) as [et' acts]. cbn [fst snd] in *.
    specialize (IH (fun x Hx => Hincl x (or_intror Hx)) (S calls) et' Hbuf' k d).
    destruct (read_lines self stop_after (S calls) et' rest) as [[calls' acts'] stopped].
    cbn [fst snd] in *. rewrite in_app_iff. intros [H | H]; auto.
Qed.

Lemma getSSEStream_from_dispatch (stop_after : option nat) (script : list attempt) :
  forall calls k d,
    In (Dispatch k d) (fst (getSSEStream_from self stop_after calls script)) ->
    exists r,
      In (Connected r) script /\ status_code r = 200%Z
      /\ truthy k = true /\ event_from_lines (body r) k d.
Proof.
  induction script as [| a script' IH]; intros calls k d; cbn [getSSEStream_from].
  - destruct (is_set stop_after calls); intros [].
  - destruct (is_set stop_after calls); [intros [] |].
    assert (Hrest : forall calls' acts,
               (forall k d, In (Dispatch k d) acts ->
                            exists r, In (Connected r) (a :: script')
                                      /\ status_code r = 200%Z
                                      /\ truthy k = true
                                      /\ event_from_lines (body r) k d) ->
               In (Dispatch k d)
                  (fst (let '(acts', out) :=
                          getSSEStream_from self stop_after calls' script' in
                        (acts ++ acts', out))) ->
               exists r, In (Connected r) (a :: script')
                         /\ status_code r = 200%Z
                         /\ truthy k = true /\ event_from_lines (body r) k d).
    { intros calls' acts Hacts.
      specialize (IH calls' k d).
      destruct (getSSEStream_from self stop_after calls' script') as [acts' out].
      cbn [fst] in *. rewrite in_app_iff. intros [H | H]; [now apply Hacts |].
      destruct (IH H) as (r & Hin & Hr). exists r. split; [now right | exact Hr]. }
    assert (Hnone : forall acts : list action,
               (forall x, In x acts -> x = Connect \/ exists s, x = Sleep s) ->
               forall k d, In (Dispatch k d) acts ->
                           exists r, In (Connected r) (a :: script')
                                     /\ status_code r = 200%Z
                                     /\ truthy k = true
                                     /\ event_from_lines (body r) k d).
    { intros acts Hall k0 d0 Hin. destruct (Hall _ Hin) as [H | [s H]]; discriminate. }
    destruct a as [e | r].
    + destruct (caught e).
      * apply Hrest, Hnone. intros x [<- | [<- | []]]; eauto.
      * cbn [fst]. intros [H | []]. discriminate.
    + destruct (negb (Z.eqb (status_code r) 200)) eqn:Hst.
      * apply Hrest, Hnone. intros x [<- | [<- | []]]; eauto.
      * apply negb_false_iff, Z.eqb_eq in Hst.
        pose proof (@read_lines_dispatch stop_after (body r) (body r)
                      (incl_refl _) (S calls) None) as Hread.
        destruct (read_lines self stop_after (S calls) None (body r))
          as [[calls' acts] stopped]. cbn [fst snd] in Hread.
        assert (Hacts : forall k d, In (Dispatch k d) (Connect :: acts) ->
                   exists r0, In (Connected r0) (Connected r :: script')
                              /\ status_code r0 = 200%Z
                              /\ truthy k = true
                              /\ event_from_lines (body r0) k d).
        { intros k0 d0 [H | H]; [discriminate |].
          exists r. split; [now left |]. split; [exact Hst |].
          apply Hread; [intros ?; discriminate | exact H]. }
        destruct stopped; [now apply Hrest |].
        destruct (body_end r) as [e |]; [| now apply Hrest].
        destruct (caught e).
        -- apply Hrest. intros k0 d0 Hin.
           apply in_app_iff in Hin as [Hin | [Hin | []]];
             [now apply Hacts | discriminate].
        -- cbn [fst]. apply Hacts.
Qed.

End TraceProofs.

Section Traces.
Import PyStr SseClient Framing Stream Traces.

(** X6: every event the loop hands to the handler has a non-empty kind and
    comes from a response with status 200: the kind is the trimmed text of
    an event line of that response, the payload the trimmed text of one of
    its data lines, and neither has white space at its ends. *)
Theorem dispatched_events_come_from_lines
        (self : SSEClient) (stop_after : option nat) (script : list attempt)
        (k d : str) :
  In (Dispatch k d) (fst (getSSEStream self stop_after script)) ->
  exists r,
    In (Connected r) script /\ status_code r = 200%Z
    /\ truthy k = true /\ event_from_lines (body r) k d
    /\ trimmed k /\ trimmed d.
Proof.
  intros H. apply getSSEStream_from_dispatch in H as (r & Hin & Hst & Hk & Hev).
  exists r. repeat split; try assumption;
    destruct Hev as (le & ld & _ & _ & -> & _ & _ & ->); apply strip_trimmed.
Qed.

Lemma dispatched_events_come_from_lines_witness :
  exists r,
    In (Connected r) [Connected unavailable; Connected one_event]
    /\ status_code r = 200%Z
    /\ truthy (lit "head") = true
    /\ event_from_lines (body r) (lit "head") (lit "{}")
    /\ trimmed (lit "head") /\ trimmed (lit "{}").
Proof.
  apply (dispatched_events_come_from_lines client (Some 5)
           [Connected unavailable; Connected one_event] (lit "head") (lit "{}")).
  vm_compute. right. right. right. left. reflexivity.
Defined.

End Traces.

Section StopProofs.
Import PyStr SseClient Framing Stream Traces.

Variable self : SSEClient.

Lemma getSSEStream_from_trace (script : list attempt) :
  forallb only_Exceptions script = true ->
  forall calls,
    fst (getSSEStream_from self None calls script)
    = flat_map (attempt_trace self) script.
Proof.
  induction script as [| a script' IH]; intros Hok calls; [reflexivity |].
  cbn [forallb] in Hok. apply andb_true_iff in Hok as [Ha Hrest].
  specialize (IH Hrest).
  cbn [getSSEStream_from is_set flat_map attempt_trace].
  destruct a as [e | r]; cbn [only_Exceptions attempt_trace] in Ha |- *.
  - rewrite (caught_Exception _ Ha). specialize (IH (S calls)).
    destruct (getSSEStream_from self None (S calls) script') as [acts' out].
    cbn [fst] in *. rewrite IH. reflexivity.
  - destruct (negb (Z.eqb (status_code r) 200)).
    + specialize (IH (S calls)).
      destruct (getSSEStream_from self None (S calls) script') as [acts' out].
      cbn [fst] in *. rewrite IH. reflexivity.
    + rewrite read_lines_without_stop.
      destruct (parse_from_refines_run self (body r) None) as [_ Hparse].
      cbn [state_of] in Hparse. rewrite Hparse.
      specialize (IH (S calls + List.length (body r))).
      destruct (body_end r) as [e |].
      * rewrite (caught_Exception _ Ha).
        destruct (getSSEStream_from self None (S calls + List.length (body r)) script')
          as [acts' out].
        cbn [fst] in *. rewrite IH. cbn [app]. rewrite <- app_assoc. reflexivity.
      * destruct (getSSEStream_from self None (S calls + List.length (body r)) script')
          as [acts' out].
        cbn [fst] in *. rewrite IH. cbn [app]. rewrite app_nil_r. reflexivity.
Qed.

Lemma read_lines_stop_prefix (n : nat) (lines : list str) :
  forall calls event_type,
    let '(calls', acts, stopped) :=
      read_lines self (Some n) calls event_type lines in
    (exists rest, snd (parse_from self event_type lines) = acts ++ rest)
    /\ (stopped = false -> snd (parse_from self event_type lines) = acts)
    /\ (stopped = true -> is_set (Some n) calls' = true).
Proof.
  induction lines as [| line rest IH]; intros calls event_type;
    cbn [read_lines parse_from].
  - repeat split; [now exists [] | discriminate].
  - destruct (is_set (Some n) calls) eqn:Hs.
    + repeat split; [eexists; reflexivity | discriminate |].
      intros _. cbn [is_set] in *. apply Nat.leb_le in Hs. apply Nat.leb_le. lia.
    + destruct (on_line self event_type line) as [et' acts].
      specialize (IH (S calls) et').
      destruct (read_lines self (Some n) (S calls) et' rest) as [[calls' acts'] stopped].
      destruct (parse_from self et' rest) as [final full]. cbn [snd] in *.
      destruct IH as ((r & Hr) & Hfull & Hstop).
      repeat split.
      * exists r. now rewrite Hr, app_assoc.
      * intros H. now rewrite (Hfull H).
      * exact Hstop.
Qed.

Lemma getSSEStream_from_stop_prefix (n : nat) (script : list attempt) :
  forallb only_Exceptions script = true ->
  forall calls,
    (exists rest,
        flat_map (attempt_trace self) script
        = fst (getSSEStream_from self (Some n) calls script) ++ rest)
    /\ (snd (getSSEStream_from self (Some n) calls script) = Returned
        \/ snd (getSSEStream_from self (Some n) calls script) = Waiting).
Proof.
  induction script as [| a script' IH]; intros Hok calls.
  - cbn [getSSEStream_from]. destruct (is_set (Some n) calls); cbn [fst snd];
      (split; [now exists [] | tauto]).
  - cbn [forallb] in Hok. apply andb_true_iff in Hok as [Ha Hrest].
    specialize (IH Hrest).
    cbn [getSSEStream_from flat_map].
    destruct (is_set (Some n) calls); [cbn [fst snd]; split; [eexists; reflexivity | tauto] |].
    assert (Hcont : forall calls' acts tail,
               attempt_trace self a = acts ++ tail ->
               tail = [] \/ is_set (Some n) calls' = true ->
               (exists rest,
                   attempt_trace self a ++ flat_map (attempt_trace self) script'
                   = fst (let '(acts', out) :=
                            getSSEStream_from self (Some n) calls' script' in
                          (acts ++ acts', out)) ++ rest)
               /\ (snd (let '(acts', out) :=
                          getSSEStream_from self (Some n) calls' script' in
                        (acts ++ acts', out)) = Returned
                   \/ snd (let '(acts', out) :=
                             getSSEStream_from self (Some n) calls' script' in
                           (acts ++ acts', out)) = Waiting)).
    { intros calls' acts tail Ht Hcase.
      destruct Hcase as [-> | Hset].
      - rewrite app_nil_r in Ht. rewrite Ht.
        destruct (IH calls') as ((rest & Hr) & Hout).
        destruct (getSSEStream_from self (Some n) calls' script') as [acts' out].
        cbn [fst snd] in *. split; [| exact Hout].
        exists rest. now rewrite Hr, app_assoc.
      - rewrite Ht.
        assert (Hret : getSSEStream_from self (Some n) calls' script' = ([], Returned)).
        { destruct script'; cbn [getSSEStream_from]; now rewrite Hset. }
        rewrite Hret. cbn [fst snd]. split; [| now left].
        exists (tail ++ flat_map (attempt_trace self) script').
        now rewrite app_nil_r, app_assoc. }
    destruct a as [e | r]; cbn [only_Exceptions] in Ha.
    + rewrite (caught_Exception _ Ha).
      apply (Hcont (S calls) _ []); [now rewrite app_nil_r | now left].
    + destruct (negb (Z.eqb (status_code r) 200)) eqn:Hst.
      * apply (Hcont (S calls) _ []); [| now left].
        cbn [attempt_trace]. rewrite Hst. now rewrite app_nil_r.
      * pose proof (read_lines_stop_prefix n (body r) (S calls) None) as Hread.
        destruct (parse_from_refines_run self (body r) None) as [_ Hparse].
        cbn [state_of] in Hparse. rewrite Hparse in Hread. clear Hparse.
        destruct (read_lines self (Some n) (S calls) None (body r))
          as [[calls' acts] stopped].
        destruct Hread as ((rest & Hr) & Hfull & Hstop).
        destruct stopped.
        -- apply (Hcont calls' (Connect :: acts)
                    (rest ++ match body_end r with
                             | Some _ => [Sleep (retry_delay self)]
                             | None => []
                             end)).
           ++ cbn [attempt_trace]. rewrite Hst, Hr. cbn [app].
              now rewrite <- app_assoc.
           ++ right. now apply Hstop.
        -- specialize (Hfull eq_refl).
           destruct (body_end r) as [e |] eqn:Hend.
           ++ rewrite (caught_Exception _ Ha).
              apply (Hcont calls' _ []); [| now left].
              cbn [attempt_trace]. rewrite Hst, Hend, Hfull, app_nil_r. reflexivity.
           ++ apply (Hcont calls' _ []); [| now left].
              cbn [attempt_trace]. rewrite Hst, Hend, Hfull, !app_nil_r. reflexivity.
Qed.

End StopProofs.

Section Stops.
Import PyStr SseClient Framing Stream Traces.

(** X7: with no stop requested, the run is the concatenation of what each
    scripted attempt contributes by itself.  Every response is parsed from
    [IDLE], so a kind buffered at the end of one response is not carried to
    the next; the body of a response whose status is not 200 is not parsed;
    a sleep follows a failed attempt and nothing follows a stream that ends
    normally. *)
Theorem getSSEStream_trace_is_per_attempt
        (self : SSEClient) (script : list attempt) :
  valid_delay (retry_delay self) = true ->
  forallb only_Exceptions script = true ->
  fst (getSSEStream self None script) = flat_map (attempt_trace self) script.
Proof.
  intros _ Hok. now apply getSSEStream_from_trace.
Qed.

Lemma getSSEStream_trace_is_per_attempt_witness :
  fst (getSSEStream client None
         [Connected {| status_code := 200; body := [lit "event: head"];
                       body_end := None |};
          Connected {| status_code := 200; body := [lit "data: {}"];
                       body_end := Some RequestException |};
          Connected {| status_code := 404; body := [lit "event: a"; lit "data: b"];
                       body_end := None |}])
  = flat_map (attempt_trace client)
      [Connected {| status_code := 200; body := [lit "event: head"];
                    body_end := None |};
       Connected {| status_code := 200; body := [lit "data: {}"];
                    body_end := Some RequestException |};
       Connected {| status_code := 404; body := [lit "event: a"; lit "data: b"];
                    body_end := None |}].
Proof.
  apply (getSSEStream_trace_is_per_attempt client); reflexivity.
Defined.

(** X8: with a delay [time.sleep] accepts and a network whose failures
    are all exceptions derived from [Exception], a stop request only cuts
    the run short.  Whatever the moment the stop event is set, what the loop
    does is an initial part of what it does with no stop, so a stop adds no
    connection, no sleep and no handler call; and the call then either
    returns or is still waiting for the network, it raises nothing. *)
Theorem stop_only_truncates
        (self : SSEClient) (n : nat) (script : list attempt) :
  valid_delay (retry_delay self) = true ->
  forallb only_Exceptions script = true ->
  (exists rest,
      fst (getSSEStream self None script)
      = fst (getSSEStream self (Some n) script) ++ rest)
  /\ (snd (getSSEStream self (Some n) script) = Returned
      \/ snd (getSSEStream self (Some n) script) = Waiting).
Proof.
  intros _ Hok. unfold getSSEStream.
  rewrite (getSSEStream_from_trace self script Hok 0).
  now apply getSSEStream_from_stop_prefix.
Qed.

Lemma stop_only_truncates_witness :
  (exists rest,
      fst (getSSEStream client None [Connected broken; Connected one_event])
      = fst (getSSEStream client (Some 2) [Connected broken; Connected one_event])
          ++ rest)
  /\ (snd (getSSEStream client (Some 2) [Connected broken; Connected one_event])
      = Returned
      \/ snd (getSSEStream client (Some 2) [Connected broken; Connected one_event])
         = Waiting).
Proof.
  apply (stop_only_truncates client 2 [Connected broken; Connected one_event]);
    reflexivity.
Defined.

End Stops.

(** ** Substitution of environment variables *)

Section ConfigProofs.
Import PyStr Json Config Configs.

Variable getenv : str -> result (option str).

Lemma distinct_NoDup (l : list str) : distinct l = true -> NoDup l.
Proof.
  induction l as [| k l IH]; cbn [distinct]; intros H; [constructor |].
  apply andb_prop in H as [Hk Hl]. constructor; [| now apply IH].
  intros Hin. apply negb_true_iff in Hk.
  assert (existsb (eqb k) l = true); [| congruence].
  apply existsb_exists. exists k. split; [assumption | apply eqb_refl].
Qed.

Lemma set_app_fresh (V : Type) (done : Dict.dict V) (k : str) (v v' : V)
      (rest : Dict.dict V) :
  ~ In k (Dict.keys done) ->
  Dict.set (done ++ (k, v) :: rest) k v' = done ++ (k, v') :: rest.
Proof.
  induction done as [| [k0 v0] done IH]; cbn [Dict.set Dict.keys List.map app fst In];
    intros Hk.
  - now rewrite eqb_refl.
  - assert (E : eqb k0 k = false) by (apply eqb_neq; tauto).
    rewrite E. f_equal. apply IH. unfold Dict.keys. tauto.
Qed.

Lemma replace_items_entrywise (items : list (str * value)) :
  forall done,
    NoDup (Dict.keys (done ++ items)) ->
    replace_items getenv items (done ++ items)
    = bind (mapM (substitute_entry getenv) items)
           (fun items' => Ok (done ++ items')).
Proof.
  induction items as [| [key v] rest IH]; intros done Hnd.
  - cbn [replace_items mapM bind]. reflexivity.
  - assert (Hrest : forall v' : value,
               replace_items getenv rest (done ++ (key, v') :: rest)
               = bind (mapM (substitute_entry getenv) rest)
                      (fun items' => Ok (done ++ (key, v') :: items'))).
    { intros v'.
      change (done ++ (key, v') :: rest) with (done ++ [(key, v')] ++ rest).
      rewrite app_assoc, IH.
      - destruct (mapM (substitute_entry getenv) rest) as [items' |];
          cbn [bind]; [| reflexivity].
        now rewrite <- app_assoc.
      - rewrite <- app_assoc. unfold Dict.keys in *.
        rewrite map_app in *. exact Hnd. }
    assert (Hfresh : ~ In key (Dict.keys done)).
    { unfold Dict.keys in Hnd. rewrite map_app in Hnd. cbn [List.map fst] in Hnd.
      apply NoDup_remove_2 in Hnd. intros Hin. apply Hnd.
      apply in_or_app. now left. }
    cbn [replace_items mapM]. unfold substitute_entry at 1. cbn [snd fst].
    destruct v as [[| b | z | f | s] | l | d];
      try (cbn [bind]; rewrite Hrest;
           destruct (mapM (substitute_entry getenv) rest); reflexivity).
    destruct (substitute getenv s) as [s' |]; cbn [bind]; [| reflexivity].
    rewrite set_app_fresh by assumption. rewrite Hrest.
    destruct (mapM (substitute_entry getenv) rest); reflexivity.
Qed.

Lemma substitute_vars_nothing (matches : list str) (value : str) :
  forallb (unset getenv) matches = true ->
  substitute_vars getenv matches value = Ok value.
Proof.
  induction matches as [| var rest IH]; cbn [forallb]; intros H; [reflexivity |].
  apply andb_prop in H as [Hv Hrest]. cbn [substitute_vars].
  unfold unset in Hv.
  destruct (getenv var) as [[ev |] |]; cbn [bind]; try discriminate;
    [| now apply IH].
  apply negb_true_iff in Hv. rewrite Hv. now apply IH.
Qed.

Lemma mapM_entries_nothing (cfg : Dict.dict value) :
  forallb (fun e => quiet_value getenv (snd e)) cfg = true ->
  mapM (substitute_entry getenv) cfg = Ok cfg.
Proof.
  induction cfg as [| [k v] cfg IH]; cbn [forallb snd]; intros H; [reflexivity |].
  apply andb_prop in H as [Hv Hrest]. cbn [mapM]. rewrite (IH Hrest).
  unfold substitute_entry. cbn [snd fst].
  destruct v as [[| b | z | f | s] | l | d]; try reflexivity.
  cbn [quiet_value] in Hv. unfold substitute.
  now rewrite substitute_vars_nothing.
Qed.

(** *** Text and placeholders *)

Lemma placeholder_eq (n : str) :
  placeholder n = 36%N :: 123%N :: n ++ [125%N].
Proof. reflexivity. Qed.

Lemma span_name_name (n rest : str) :
  forallb not_brace n = true ->
  span_name (n ++ 125%N :: rest) = (n, 125%N :: rest).
Proof.
  induction n as [| c n IH]; cbn [forallb app]; intros H.
  - reflexivity.
  - apply andb_prop in H as [Hc Hn]. cbn [span_name].
    unfold not_brace in Hc. apply negb_true_iff in Hc. rewrite Hc.
    now rewrite (IH Hn).
Qed.

Lemma findall_from_skip (x t : str) :
  findall_from (List.length x) (x ++ t) = findall_from 0 t.
Proof.
  induction x as [| c x IH]; [reflexivity |].
  cbn [List.length app findall_from]. exact IH.
Qed.

Lemma findall_from_plain (t rest : str) :
  plain t = true ->
  findall_from 0 (t ++ rest) = findall_from 0 rest.
Proof.
  unfold plain. induction t as [| c t IH]; cbn [forallb app]; intros H;
    [reflexivity |].
  apply andb_prop in H as [Hc Ht]. specialize (IH Ht).
  unfold not_dollar in Hc. apply negb_true_iff in Hc.
  cbn [findall_from]. rewrite Hc. cbn [andb].
  destruct (t ++ rest) as [| b u] eqn:E; [| exact IH].
  rewrite <- IH. reflexivity.
Qed.

Lemma findall_from_placeholder (n rest : str) :
  is_name n = true ->
  findall_from 0 (placeholder n ++ rest) = n :: findall_from 0 rest.
Proof.
  unfold is_name. intros H. apply andb_prop in H as [H Hb].
  apply andb_prop in H as [Ht Hd].
  rewrite placeholder_eq. cbn [app findall_from].
  rewrite <- app_assoc. cbn [app].
  match goal with
  | |- context [span_name ?x] =>
      replace (span_name x) with (n, 125%N :: rest)
        by (symmetry; exact (@span_name_name n rest Hb))
  end.
  rewrite Ht.
  cbn [N.eqb Pos.eqb andb truthy]. f_equal.
  rewrite Nat.add_comm. cbn [Nat.add].
  replace (S (List.length n)) with (List.length (n ++ [125%N]))
    by (rewrite length_app; cbn [List.length]; lia).
  rewrite <- (findall_from_skip (n ++ [125%N]) rest).
  now rewrite <- app_assoc.
Qed.

Lemma findall_render (segs : list segment) :
  forallb well_formed_segment segs = true ->
  findall (render segs) = names segs.
Proof.
  unfold findall, render, names.
  induction segs as [| [t | n] segs IH]; cbn [forallb flat_map render_segment app];
    intros H; [reflexivity | |]; apply andb_prop in H as [Hs Hrest].
  - rewrite findall_from_plain by exact Hs. now apply IH.
  - rewrite findall_from_placeholder by exact Hs. f_equal. now apply IH.
Qed.

Lemma replace_from_0 (old new : str) (c : char) (t : str) :
  replace_from 0 old new (c :: t)
  = if startswith old (c :: t)
    then new ++ replace_from (List.length old - 1) old new t
    else c :: replace_from 0 old new t.
Proof. reflexivity. Qed.

Lemma replace_from_skip (old new x t : str) :
  replace_from (List.length x) old new (x ++ t) = replace_from 0 old new t.
Proof.
  induction x as [| c x IH]; [reflexivity |].
  cbn [List.length app replace_from]. exact IH.
Qed.

Lemma replace_from_plain (old new t rest : str) :
  plain t = true ->
  replace_from 0 (36%N :: old) new (t ++ rest)
  = t ++ replace_from 0 (36%N :: old) new rest.
Proof.
  unfold plain. induction t as [| c t IH]; cbn [forallb app]; intros H;
    [reflexivity |].
  apply andb_prop in H as [Hc Ht].
  unfold not_dollar in Hc. apply negb_true_iff in Hc.
  cbn [replace_from startswith].
  rewrite N.eqb_sym, Hc. cbn [andb]. now rewrite (IH Ht).
Qed.

Lemma startswith_app (p t : str) : startswith p (p ++ t) = true.
Proof.
  induction p as [| c p IH]; [reflexivity |].
  cbn [app startswith]. now rewrite N.eqb_refl.
Qed.

Lemma replace_from_same (var ev rest : str) :
  replace_from 0 (placeholder var) ev (placeholder var ++ rest)
  = ev ++ replace_from 0 (placeholder var) ev rest.
Proof.
  generalize (startswith_app (placeholder var) rest).
  rewrite placeholder_eq. cbn [app]. intros Hs.
  cbn [replace_from]. rewrite Hs. f_equal.
  cbn [List.length Nat.sub replace_from].
  apply replace_from_skip.
Qed.

Lemma startswith_name (var n rest : str) :
  forallb not_brace var = true -> forallb not_brace n = true ->
  startswith (var ++ [125%N]) (n ++ 125%N :: rest) = true -> n = var.
Proof.
  revert n. induction var as [| c var IH]; intros [| d n];
    cbn [forallb app startswith]; intros Hv Hn H.
  - reflexivity.
  - apply andb_prop in Hn as [Hd _]. apply andb_prop in H as [H _].
    apply N.eqb_eq in H. subst d. discriminate.
  - apply andb_prop in Hv as [Hc _]. apply andb_prop in H as [H _].
    apply N.eqb_eq in H. subst c. discriminate.
  - apply andb_prop in Hv as [_ Hv]. apply andb_prop in Hn as [_ Hn].
    apply andb_prop in H as [Hcd H]. apply N.eqb_eq in Hcd. subst d.
    f_equal. now apply IH.
Qed.

Lemma replace_from_other (var ev n rest : str) :
  is_name var = true -> is_name n = true -> eqb n var = false ->
  replace_from 0 (placeholder var) ev (placeholder n ++ rest)
  = placeholder n ++ replace_from 0 (placeholder var) ev rest.
Proof.
  unfold is_name. intros Hv Hn Hne.
  apply andb_prop in Hv as [Hv Hvb]. apply andb_prop in Hn as [Hn Hnb].
  apply andb_prop in Hn as [_ Hnd].
  assert (Hs : startswith (var ++ [125%N]) (n ++ 125%N :: rest) = false).
  { destruct (startswith (var ++ [125%N]) (n ++ 125%N :: rest)) eqn:E;
      [| reflexivity].
    apply (@startswith_name var n rest Hvb Hnb) in E. apply eqb_neq in Hne.
    contradiction. }
  assert (Hsw : startswith (placeholder var) (placeholder n ++ rest) = false).
  { rewrite !placeholder_eq. cbn [app startswith].
    rewrite <- app_assoc. cbn [app N.eqb Pos.eqb andb]. exact Hs. }
  assert (Hp : plain (123%N :: n ++ [125%N]) = true).
  { unfold plain. cbn [forallb]. rewrite forallb_app. cbn [forallb].
    rewrite Hnd. reflexivity. }
  generalize (@replace_from_plain (123%N :: var ++ [125%N]) ev
                                  (123%N :: n ++ [125%N]) rest Hp).
  rewrite <- placeholder_eq. intros Hrest.
  revert Hsw. rewrite (placeholder_eq n). cbn [app]. intros Hsw.
  rewrite replace_from_0, Hsw. f_equal. exact Hrest.
Qed.

Lemma replace_render (var ev : str) (segs : list segment) :
  is_name var = true ->
  forallb well_formed_segment segs = true ->
  replace (placeholder var) ev (render segs)
  = render (List.map (subst_segment var ev) segs).
Proof.
  intros Hv. rewrite placeholder_eq. cbn [replace]. rewrite <- placeholder_eq.
  unfold render.
  induction segs as [| [t | n] segs IH];
    cbn [forallb flat_map List.map render_segment subst_segment well_formed_segment];
    intros H; [reflexivity | |]; apply andb_prop in H as [Hs Hrest].
  - rewrite placeholder_eq at 1.
    rewrite replace_from_plain by exact Hs. rewrite <- placeholder_eq.
    now rewrite (IH Hrest).
  - destruct (eqb n var) eqn:E.
    + apply eqb_eq in E. subst n. rewrite replace_from_same.
      cbn [flat_map render_segment]. now rewrite (IH Hrest).
    + rewrite (@replace_from_other var ev n _ Hv Hs E).
      cbn [flat_map render_segment]. now rewrite (IH Hrest).
Qed.

Lemma subst_well_formed (var ev : str) (segs : list segment) :
  plain ev = true ->
  forallb well_formed_segment segs = true ->
  forallb well_formed_segment (List.map (subst_segment var ev) segs) = true.
Proof.
  intros Hev. induction segs as [| [t | n] segs IH];
    cbn [forallb List.map subst_segment well_formed_segment]; intros H;
    [reflexivity | |]; apply andb_prop in H as [Hs Hrest];
    rewrite (IH Hrest), ?andb_true_r; [assumption |].
  destruct (eqb n var); assumption.
Qed.

Lemma substitute_vars_steps (ns : list str) :
  forall segs,
    forallb is_name ns = true ->
    forallb (expandable getenv) ns = true ->
    forallb well_formed_segment segs = true ->
    substitute_vars getenv ns (render segs)
    = Ok (render (List.map (rounds getenv ns) segs)).
Proof.
  unfold rounds.
  induction ns as [| n ns IH]; cbn [forallb fold_left]; intros segs Hn He Hw.
  - now rewrite map_id.
  - apply andb_prop in Hn as [Hn Hns]. apply andb_prop in He as [He Hes].
    assert (Hstep : List.map
                      (fun seg => fold_left (fun s n0 => round getenv n0 s) ns
                                            (round getenv n seg)) segs
                    = List.map
                        (fun seg => fold_left (fun s n0 => round getenv n0 s) ns seg)
                        (List.map (round getenv n) segs))
      by now rewrite map_map.
    rewrite Hstep. cbn [substitute_vars].
    unfold expandable in He. unfold round.
    destruct (getenv n) as [[ev |] |]; cbn [bind]; try discriminate.
    + destruct (truthy ev).
      * rewrite replace_render by assumption.
        apply (IH _ Hns Hes). now apply subst_well_formed.
      * rewrite map_id. now apply IH.
    + rewrite map_id. now apply IH.
Qed.

Lemma rounds_text (ns : list str) (t : str) :
  rounds getenv ns (Text t) = Text t.
Proof.
  unfold rounds. induction ns as [| n ns IH]; cbn [fold_left]; [reflexivity |].
  unfold round at 2.
  destruct (getenv n) as [[ev |] |]; try exact IH.
  destruct (truthy ev); exact IH.
Qed.

Lemma rounds_var_kept (ns : list str) (m : str) :
  (forall ev, getenv m = Ok (Some ev) -> truthy ev = false) ->
  rounds getenv ns (Var m) = Var m.
Proof.
  intros Hm. unfold rounds.
  induction ns as [| n ns IH]; cbn [fold_left]; [reflexivity |].
  unfold round at 2.
  destruct (getenv n) as [[ev |] |] eqn:En; try exact IH.
  destruct (truthy ev) eqn:Et; [| exact IH].
  cbn [subst_segment]. destruct (eqb m n) eqn:E; [| exact IH].
  apply eqb_eq in E. subst n. rewrite (Hm _ En) in Et. discriminate.
Qed.

Lemma rounds_var (ns : list str) (m : str) :
  In m ns ->
  render_segment (rounds getenv ns (Var m)) = expand getenv (Var m).
Proof.
  induction ns as [| n ns IH]; [intros [] |].
  intros Hin.
  destruct (getenv m) as [[ev |] |] eqn:Em.
  2,3: rewrite rounds_var_kept;
    [cbn [render_segment expand]; now rewrite Em | intros ev; congruence].
  destruct (truthy ev) eqn:Et.
  2: { rewrite rounds_var_kept;
       [cbn [render_segment expand]; now rewrite Em, Et
       | intros ev' H'; congruence]. }
  unfold rounds. cbn [fold_left]. fold (rounds getenv ns (round getenv n (Var m))).
  destruct (eqb m n) eqn:E.
  - apply eqb_eq in E. subst n. unfold round. rewrite Em, Et.
    cbn [subst_segment]. rewrite eqb_refl, rounds_text.
    cbn [render_segment expand]. now rewrite Em, Et.
  - assert (Hin' : In m ns).
    { destruct Hin as [-> | H]; [| exact H].
      rewrite eqb_refl in E. discriminate. }
    assert (Hs : round getenv n (Var m) = Var m).
    { unfold round. destruct (getenv n) as [[ev' |] |]; try reflexivity.
      destruct (truthy ev'); [| reflexivity].
      cbn [subst_segment]. now rewrite E. }
    rewrite Hs. now apply IH.
Qed.

Lemma names_are_names (segs : list segment) :
  forallb well_formed_segment segs = true ->
  forallb is_name (names segs) = true.
Proof.
  unfold names. induction segs as [| [t | n] segs IH];
    cbn [forallb flat_map app well_formed_segment]; intros H;
    [reflexivity | |]; apply andb_prop in H as [Hs Hrest].
  - now apply IH.
  - now rewrite Hs, (IH Hrest).
Qed.

Lemma render_steps (ns : list str) (segs : list segment) :
  incl (names segs) ns ->
  render (List.map (rounds getenv ns) segs) = flat_map (expand getenv) segs.
Proof.
  unfold render, names.
  induction segs as [| [t | n] segs IH]; cbn [flat_map List.map app];
    intros Hincl; [reflexivity | |].
  - rewrite rounds_text. cbn [render_segment expand]. now rewrite IH.
  - rewrite rounds_var by (apply Hincl; now left).
    rewrite IH; [reflexivity |].
    intros x Hx. apply Hincl. now right.
Qed.

(** X9. On dictionaries, [replace_env_variables_in_config] works entry by
    entry: every string value is substituted on its own, the other values
    and all keys stay in place, and the first lookup that raises ends the
    call. *)
Theorem substitution_is_entrywise (configs : list (Dict.dict value)) :
  well_formed configs = true ->
  replace_env_variables_in_config getenv configs
  = mapM (mapM (substitute_entry getenv)) configs.
Proof.
  unfold well_formed.
  induction configs as [| cfg configs IH]; cbn [forallb]; intros H;
    [reflexivity |].
  apply andb_prop in H as [Hcfg Hrest].
  cbn [replace_env_variables_in_config mapM]. rewrite (IH Hrest).
  apply distinct_NoDup in Hcfg.
  generalize (@replace_items_entrywise cfg [] Hcfg). cbn [app]. intros ->.
  destruct (mapM (substitute_entry getenv) cfg); reflexivity.
Qed.

(** X10. When every variable named in the string values is unset or
    empty, in particular when no value holds a placeholder, the
    configurations come back unchanged. *)
Theorem unset_variables_leave_configs_unchanged
        (configs : list (Dict.dict value)) :
  well_formed configs = true ->
  nothing_to_substitute getenv configs = true ->
  replace_env_variables_in_config getenv configs = Ok configs.
Proof.
  unfold well_formed, nothing_to_substitute.
  induction configs as [| cfg configs IH]; cbn [forallb]; intros Hw Hq;
    [reflexivity |].
  apply andb_prop in Hw as [Hcfg Hw]. apply andb_prop in Hq as [Hqc Hq].
  cbn [replace_env_variables_in_config]. rewrite (IH Hw Hq).
  apply distinct_NoDup in Hcfg.
  generalize (@replace_items_entrywise cfg [] Hcfg). cbn [app]. intros ->.
  now rewrite (@mapM_entries_nothing cfg Hqc).
Qed.

(** X11. A string value made of text without dollar signs and of
    placeholders [${NAME}] is rewritten placeholder by placeholder: each
    one whose variable is set to a non-empty value without dollar sign
    becomes that value, the others stay as they are. *)
Theorem placeholders_are_expanded (segs : list segment) :
  forallb well_formed_segment segs = true ->
  forallb (expandable getenv) (names segs) = true ->
  substitute getenv (render segs) = Ok (flat_map (expand getenv) segs).
Proof.
  intros Hw He. unfold substitute. rewrite (@findall_render segs Hw).
  rewrite (@substitute_vars_steps (names segs) segs (@names_are_names segs Hw) He Hw).
  f_equal. apply render_steps. apply incl_refl.
Qed.

End ConfigProofs.

Lemma substitution_is_entrywise_witness :
  Configs.well_formed Configs.sample = true /\
  Config.replace_env_variables_in_config Configs.host_only Configs.sample
  = Configs.mapM (Configs.mapM (Configs.substitute_entry Configs.host_only))
                 Configs.sample.
Proof.
  split; [reflexivity |].
  apply (substitution_is_entrywise Configs.host_only Configs.sample).
  reflexivity.
Defined.

Lemma unset_variables_leave_configs_unchanged_witness :
  Configs.well_formed Configs.sample = true /\
  Configs.nothing_to_substitute Configs.no_env Configs.sample = true /\
  Config.replace_env_variables_in_config Configs.no_env Configs.sample
  = Ok Configs.sample.
Proof.
  split; [reflexivity |]. split; [reflexivity |].
  apply (unset_variables_leave_configs_unchanged Configs.no_env Configs.sample);
    reflexivity.
Defined.

Lemma placeholders_are_expanded_witness :
  forallb Configs.well_formed_segment Configs.sample_segments = true /\
  forallb (Configs.expandable Configs.host_only)
          (Configs.names Configs.sample_segments) = true /\
  Config.substitute Configs.host_only (Configs.render Configs.sample_segments)
  = Ok (PyStr.lit "http://node1:5052/${PATH}").
Proof.
  split; [reflexivity |]. split; [reflexivity |].
  apply (placeholders_are_expanded Configs.host_only Configs.sample_segments);
    reflexivity.
Defined.

(** ** The digit rule on strings of any script *)

Section DigitRuleProofs.
Import PyStr PyNum Json Main Digits.

Lemma apart_sound (rs1 rs2 : list (N * N)) (c : char) :
  apart rs1 rs2 = true -> in_ranges c rs1 = true -> in_ranges c rs2 = false.
Proof.
  unfold apart, in_ranges. intros Ha H1.
  destruct (existsb (fun r => (fst r <=? c)%N && (c <=? snd r)%N) rs2) eqn:H2;
    [| reflexivity].
  apply existsb_exists in H1 as (r1 & Hin1 & Hr1).
  apply existsb_exists in H2 as (r2 & Hin2 & Hr2).
  rewrite forallb_forall in Ha. specialize (Ha r1 Hin1).
  rewrite forallb_forall in Ha. specialize (Ha r2 Hin2).
  apply andb_prop in Hr1 as [Ha1 Hb1]. apply andb_prop in Hr2 as [Ha2 Hb2].
  apply N.leb_le in Ha1, Hb1, Ha2, Hb2.
  apply orb_prop in Ha as [Ha | Ha]; apply N.ltb_lt in Ha; lia.
Qed.

Lemma above_ascii_sound (rs : list (N * N)) (c : char) :
  above_ascii rs = true -> in_ranges c rs = true -> (c <? 127)%N = false.
Proof.
  unfold above_ascii, in_ranges. intros Ha H.
  apply existsb_exists in H as (r & Hin & Hr).
  rewrite forallb_forall in Ha. specialize (Ha r Hin).
  apply andb_prop in Hr as [H1 _]. apply N.leb_le in H1, Ha.
  apply N.ltb_ge. lia.
Qed.

Lemma find_existsb (A : Type) (p : A -> bool) (l : list A) :
  match find p l with
  | Some _ => existsb p l = true
  | None => existsb p l = false
  end.
Proof.
  induction l as [| x l IH]; [reflexivity |].
  cbn [find existsb]. destruct (p x); [reflexivity | exact IH].
Qed.

Lemma decimal_value_below_ten (c : char) (d : N) :
  decimal_value c = Some d -> (d < 10)%N.
Proof.
  unfold decimal_value.
  destruct (find _ decimal_ranges) as [r |]; [| discriminate].
  intros [= <-]. now apply N.mod_lt.
Qed.

Lemma decimal_value_defined (c : char) :
  isdecimal_char c = true -> exists d, decimal_value c = Some d.
Proof.
  unfold isdecimal_char, in_ranges, decimal_value. intros H.
  pose proof (find_existsb (fun r => (fst r <=? c)%N && (c <=? snd r)%N)
                           decimal_ranges) as Hf.
  destruct (find _ decimal_ranges) as [r |]; [eauto | congruence].
Qed.

Lemma decimal_value_undefined (c : char) :
  isdecimal_char c = false -> decimal_value c = None.
Proof.
  unfold isdecimal_char, in_ranges, decimal_value. intros H.
  pose proof (find_existsb (fun r => (fst r <=? c)%N && (c <=? snd r)%N)
                           decimal_ranges) as Hf.
  destruct (find _ decimal_ranges) as [r |]; [congruence | reflexivity].
Qed.

Lemma decimal_ascii (c : char) :
  isdecimal_char c = true -> (c <? 127)%N = true -> c_isdigit c = true.
Proof.
  intros Hd Hlt.
  assert (E : isdecimal_char c = c_isdigit c || in_ranges c (List.tl decimal_ranges))
    by reflexivity.
  rewrite E in Hd. apply orb_prop in Hd as [H | H]; [exact H |].
  apply above_ascii_sound in H; [congruence | now vm_compute].
Qed.

Lemma decimal_not_space (c : char) :
  isdecimal_char c = true -> isspace_char c = false.
Proof. apply apart_sound. now vm_compute. Qed.

Lemma other_digit (c : char) :
  isdigit_char c = true -> isdecimal_char c = false ->
  (c <? 127)%N = false /\ isspace_char c = false /\ decimal_value c = None.
Proof.
  unfold isdigit_char. intros H Hd. rewrite Hd in H. cbn [orb] in H.
  split; [| split].
  - apply (above_ascii_sound other_digit_ranges); [now vm_compute | exact H].
  - apply (apart_sound other_digit_ranges space_ranges); [now vm_compute | exact H].
  - now apply decimal_value_undefined.
Qed.

Lemma to_ascii_truthy (s : str) : truthy (to_ascii s) = truthy s.
Proof.
  destruct s as [| c s]; [reflexivity |]. cbn [to_ascii truthy].
  destruct (c <? 127)%N; [reflexivity |].
  destruct (isspace_char c); [reflexivity |].
  destruct (decimal_value c); reflexivity.
Qed.

Lemma to_ascii_decimal (s : str) :
  forallb isdecimal_char s = true -> forallb c_isdigit (to_ascii s) = true.
Proof.
  induction s as [| c s IH]; cbn [forallb]; intros H; [reflexivity |].
  apply andb_prop in H as [Hc Hs]. specialize (IH Hs). cbn [to_ascii].
  destruct (c <? 127)%N eqn:Hlt.
  - cbn [forallb]. now rewrite (decimal_ascii _ Hc Hlt).
  - rewrite (decimal_not_space _ Hc).
    destruct (decimal_value_defined _ Hc) as [d Hv]. rewrite Hv.
    cbn [forallb]. rewrite IH, andb_true_r.
    apply decimal_value_below_ten in Hv.
    apply c_isdigit_bounds. lia.
Qed.

Lemma to_ascii_cut (s : str) (c : char) :
  In c s ->
  (c <? 127)%N = false -> isspace_char c = false -> decimal_value c = None ->
  In 63%N (to_ascii s).
Proof.
  intros Hin Hlt Hsp Hv.
  induction s as [| c0 s IH]; [destruct Hin |]. cbn [to_ascii].
  destruct (c0 <? 127)%N eqn:H0.
  - right. apply IH. destruct Hin as [-> | H]; [congruence | exact H].
  - destruct (isspace_char c0) eqn:H1.
    + right. apply IH. destruct Hin as [-> | H]; [congruence | exact H].
    + destruct (decimal_value c0) eqn:H2; [| now left].
      right. apply IH. destruct Hin as [-> | H]; [congruence | exact H].
Qed.

Lemma c_lstrip_In (t : str) (c : char) :
  In c t -> c_isspace c = false -> In c (c_lstrip t).
Proof.
  intros Hin Hc. induction t as [| x t IH]; [destruct Hin |].
  cbn [c_lstrip]. destruct (c_isspace x) eqn:Hx; [| exact Hin].
  apply IH. destruct Hin as [-> | H]; [congruence | exact H].
Qed.

Lemma c_strip_In (t : str) (c : char) :
  In c t -> c_isspace c = false -> In c (c_strip t).
Proof.
  intros Hin Hc. unfold c_strip.
  apply in_rev. rewrite rev_involutive.
  apply c_lstrip_In; [| exact Hc]. apply -> in_rev.
  now apply c_lstrip_In.
Qed.

Lemma split_sign_In (t : str) (c : char) :
  In c t -> c <> 45%N -> c <> 43%N -> In c (snd (split_sign t)).
Proof.
  intros Hin Hm Hp. unfold split_sign.
  destruct t as [| x t]; [destruct Hin |].
  destruct (N.eq_dec x 45) as [-> | H45].
  - cbn [snd]. destruct Hin as [<- | H]; [congruence | exact H].
  - destruct (N.eq_dec x 43) as [-> | H43].
    + cbn [snd]. destruct Hin as [<- | H]; [congruence | exact H].
    + destruct x as [| q]; [exact Hin |].
      repeat (destruct q as [q | q |]; try exact Hin); congruence.
Qed.

Lemma drop_underscores_In (t : str) (c : char) :
  c <> 95%N ->
  forall prev ds, drop_underscores prev t = Some ds -> In c t -> In c ds.
Proof.
  intros Hc. induction t as [| x t IH]; intros prev ds H Hin; [destruct Hin |].
  cbn [drop_underscores] in H.
  destruct (x =? 95)%N eqn:Hx.
  - apply N.eqb_eq in Hx. subst x.
    destruct Hin as [<- | Hin]; [congruence |].
    destruct prev as [p |]; [| discriminate].
    destruct (c_isdigit p); [| discriminate].
    exact (IH _ _ H Hin).
  - assert (Hcons : forall r, option_map (cons x) r = Some ds ->
                              (forall ds', r = Some ds' -> In c t -> In c ds') ->
                              In c ds).
    { intros [ds' |] Hr Hrec; [| discriminate]. cbn in Hr. injection Hr as <-.
      destruct Hin as [<- | Hin]; [now left | right; now apply Hrec]. }
    destruct prev as [p |].
    + destruct (N.eq_dec p 95) as [-> | Hp].
      * destruct (c_isdigit x); [| discriminate].
        apply (Hcons _ H). intros ds'. apply IH.
      * assert (E : drop_underscores (Some p) (x :: t)
                    = option_map (cons x) (drop_underscores (Some x) t)).
        { cbn [drop_underscores]. rewrite Hx.
          destruct p as [| q]; [reflexivity |].
          repeat (destruct q as [q | q |]; try reflexivity); congruence. }
        cbn [drop_underscores] in E. rewrite Hx in E. rewrite E in H.
        apply (Hcons _ H). intros ds'. apply IH.
    + apply (Hcons _ H). intros ds'. apply IH.
Qed.

Lemma int_of_str_cut (s : str) :
  In 63%N (to_ascii s) -> int_of_str s = Raise ValueError.
Proof.
  intros Hin.
  destruct (int_of_str s) as [z | e] eqn:H;
    [| now rewrite (int_of_str_raises_ValueError _ H)].
  exfalso. unfold int_of_str in H.
  pose proof (@split_sign_In (c_strip (to_ascii s)) 63%N
                (@c_strip_In _ _ Hin eq_refl)) as Hbody.
  destruct (split_sign (c_strip (to_ascii s))) as [neg body]. cbn [snd] in Hbody.
  specialize (Hbody ltac:(discriminate) ltac:(discriminate)).
  destruct (drop_underscores None body) as [ds |] eqn:Hds; [| discriminate].
  assert (Hq : In 63%N ds).
  { apply (@drop_underscores_In body 63%N ltac:(discriminate) None ds Hds Hbody). }
  destruct (truthy ds && forallb c_isdigit ds) eqn:Hd; [| discriminate].
  apply andb_prop in Hd as [_ Hd]. rewrite forallb_forall in Hd.
  specialize (Hd _ Hq). discriminate.
Qed.

Lemma forallb_false (A : Type) (p : A -> bool) (l : list A) :
  forallb p l = false -> exists x, In x l /\ p x = false.
Proof.
  induction l as [| x l IH]; cbn [forallb]; [discriminate |].
  destruct (p x) eqn:Hx.
  - intros H. destruct (IH H) as (y & Hy & Hp). exists y. split; [now right | exact Hp].
  - intros _. exists x. split; [now left | exact Hx].
Qed.

Lemma isdigit_not_hex (s : str) :
  isdigit s = true -> startswith (lit "0x") s = false.
Proof.
  unfold isdigit. intros H. apply andb_prop in H as [_ H].
  destruct s as [| c1 [| c2 s]]; [reflexivity | |].
  - cbn. apply andb_false_r.
  - cbn [forallb] in H. apply andb_prop in H as [_ H].
    apply andb_prop in H as [H2 _].
    change (startswith (lit "0x") (c1 :: c2 :: s))
      with ((48 =? c1)%N && ((120 =? c2)%N && true)).
    destruct (120 =? c2)%N eqn:E; [| apply andb_false_r].
    apply N.eqb_eq in E. subst c2. discriminate.
Qed.

Lemma int_of_str_decimal (s : str) :
  truthy s = true ->
  forallb isdecimal_char s = true ->
  int_of_str s = Ok (Z.of_N (N.of_uint (uint_of_digits (to_ascii s)))).
Proof.
  intros Hne Hdec. pose proof (to_ascii_decimal _ Hdec) as Hd.
  assert (Ht : truthy (to_ascii s) = true) by now rewrite to_ascii_truthy.
  unfold int_of_str. rewrite (c_strip_digits _ Hd).
  assert (Hsign : split_sign (to_ascii s) = (false, to_ascii s)).
  { destruct (to_ascii s) as [| c t]; [reflexivity |].
    cbn [forallb] in Hd. apply andb_true_iff in Hd as [Hc _].
    destruct (digit_cases _ Hc) as [-> | [-> | [-> | [-> | [-> | [-> | [-> | [-> | [-> | ->]]]]]]]]];
      reflexivity. }
  rewrite Hsign.
  rewrite drop_underscores_digits by (assumption || discriminate).
  rewrite Ht, Hd. cbn [andb].
  rewrite <- (uint_digits_of_digits _ Hd) at 1.
  now rewrite digits_value_of_uint.
Qed.

Lemma int_of_str_other_digit (s : str) :
  isdigit s = true ->
  forallb isdecimal_char s = false ->
  int_of_str s = Raise ValueError.
Proof.
  unfold isdigit. intros H Hdec. apply andb_prop in H as [_ H].
  apply forallb_false in Hdec as (c & Hin & Hc).
  rewrite forallb_forall in H. specialize (H c Hin).
  destruct (other_digit _ H Hc) as (Hlt & Hsp & Hv).
  apply int_of_str_cut. exact (to_ascii_cut _ _ Hin Hlt Hsp Hv).
Qed.

Lemma digit_rule (s prefix : str) :
  isdigit s = true ->
  flatten_leaf (SStr s) prefix
  = if forallb isdecimal_char s
    then Ok [(prefix, normalized (to_ascii s) ++ lit "i")]
    else Raise ValueError.
Proof.
  intros Hi. rewrite (flatten_leaf_digits s prefix (isdigit_not_hex _ Hi) Hi).
  destruct (forallb isdecimal_char s) eqn:Hdec.
  - assert (Hne : truthy s = true)
      by (unfold isdigit in Hi; now apply andb_prop in Hi as [? _]).
    rewrite (int_of_str_decimal _ Hne Hdec). cbn [bind].
    assert (Ht : truthy (to_ascii s) = true) by now rewrite to_ascii_truthy.
    now rewrite (proj2 (ascii_digits_value _ Ht (to_ascii_decimal _ Hdec))).
  - now rewrite (int_of_str_other_digit _ Hi Hdec).
Qed.

End DigitRuleProofs.

Section DigitRule.
Import PyStr PyNum Json Main Digits.

(** X12. A string leaf of at most 4300 characters that passes [isdigit]
    is written as an integer field exactly when all its characters are
    decimal digits, of any script: the field is then the ASCII digits of
    the same values without leading zeros, followed by [i].  When one
    character is a digit that is not decimal (a superscript, a circled
    digit), [flatten_json] raises [ValueError]. *)
Theorem digit_rule_accepts_exactly_decimal_digits (s prefix : str) :
  isdigit s = true ->
  (List.length s <= 4300)%nat ->
  flatten_json (Leaf (SStr s)) prefix
  = if forallb isdecimal_char s
    then Ok [(prefix, normalized (to_ascii s) ++ lit "i")]
    else Raise ValueError.
Proof. intros Hi _. cbn [flatten_json]. now apply digit_rule. Qed.

Lemma digit_rule_accepts_exactly_decimal_digits_witness :
  isdigit arabic_34 = true
  /\ (List.length arabic_34 <= 4300)%nat
  /\ flatten_json (Leaf (SStr arabic_34)) (lit "slot")
     = Ok [(lit "slot", lit "34i")].
Proof.
  split; [reflexivity |]. split; [cbn; lia |].
  apply (digit_rule_accepts_exactly_decimal_digits arabic_34 (lit "slot"));
    [reflexivity | cbn; lia].
Defined.

End DigitRule.

(** ** What [post_event] lets escape *)

Section PostEvent.
Import PyStr PyNum Json Main Leaves Limits Record.

Lemma flatten_json_raises_other_digit (data : value) (prefix : str) :
  (exists e, flatten_json data prefix = Raise e)
  <-> exists path s,
      In (path, SStr s) (kept_leaves data prefix)
      /\ isdigit s = true /\ forallb isdecimal_char s = false.
Proof.
  rewrite flatten_json_by_leaves. split.
  - intros [e H].
    destruct (render_leaves (kept_leaves data prefix)) as [es | e0] eqn:Hr;
      cbn [bind] in H; [discriminate |].
    destruct (proj1 (render_leaves_raises (kept_leaves data prefix)))
      as (path & a & e1 & Hin & Hraise); [now exists e0 |].
    pose proof Hraise as Hraise'.
    apply flatten_leaf_raises in Hraise' as (_ & s & -> & _ & Hd & _).
    exists path, s. split; [exact Hin |]. split; [exact Hd |].
    rewrite (digit_rule s path Hd) in Hraise.
    destruct (forallb isdecimal_char s); [discriminate | reflexivity].
  - intros (path & s & Hin & Hd & Hdec).
    destruct (proj2 (render_leaves_raises (kept_leaves data prefix))) as [e He].
    + exists path, (SStr s), ValueError. split; [assumption |].
      now rewrite (digit_rule s path Hd), Hdec.
    + exists e. now rewrite He.
Qed.

(** X13. For a payload within the interpreter's default limits (at most
    4300 characters and at most 900 opening brackets and braces),
    [post_event] lets an exception escape exactly when the payload is valid
    JSON and one of its kept string leaves passes [isdigit] but holds a
    digit that is not decimal; the exception is [ValueError].  In every
    other case the call returns. *)
Theorem post_event_raises_iff
        (timestamp : Z) (event_type data_str source network : str) :
  within_limits data_str = true ->
  ((exists e, post_event timestamp event_type data_str source network = Raise e)
   <-> exists data path s,
        loads data_str = Ok data
        /\ In (path, SStr s) (kept_leaves data [])
        /\ isdigit s = true /\ forallb isdecimal_char s = false)
  /\ forall e,
      post_event timestamp event_type data_str source network = Raise e ->
      e = ValueError.
Proof.
  intros _. unfold post_event, json_event_to_line_protocol.
  destruct (loads data_str) as [data | e0] eqn:Hl.
  - pose proof (flatten_json_raises_other_digit data []) as Hiff.
    destruct (flatten_json data []) as [fields | e1] eqn:Hf; cbn [bind].
    + split.
      * split.
        -- intros [e H]. exfalso. revert H.
           match goal with
           | |- context [if ?a then _ else _] => destruct a
           end; [discriminate |].
           match goal with
           | |- context [if ?a then _ else _] => destruct a
           end; discriminate.
        -- intros (data' & path & s & [= <-] & Hrest).
           destruct (proj2 Hiff) as [e He]; [now exists path, s | discriminate].
      * intros e.
        match goal with
        | |- context [if ?a then _ else _] => destruct a
        end; [discriminate |].
        match goal with
        | |- context [if ?a then _ else _] => destruct a
        end; discriminate.
    + pose proof (flatten_json_raises_ValueError _ _ Hf) as ->. split.
      * split; [| intros _; now exists ValueError].
        intros _. destruct (proj1 Hiff) as (path & s & Hrest);
          [now exists ValueError |].
        now exists data, path, s.
      * now intros e [= <-].
  - pose proof (loads_raises_JSONDecodeError _ Hl) as ->. cbn [bind]. split.
    + split; [intros [e H]; discriminate |].
      intros (data & path & s & H & _). discriminate.
    + intros e H. discriminate.
Qed.

Lemma post_event_raises_iff_witness :
  within_limits (dq "{'a':'\u00b2','b':1}") = true
  /\ ((exists e, post_event 1 (lit "head") (dq "{'a':'\u00b2','b':1}")
                            (lit "nodeA") (lit "mainnet") = Raise e)
      <-> exists data path s,
          loads (dq "{'a':'\u00b2','b':1}") = Ok data
          /\ In (path, SStr s) (kept_leaves data [])
          /\ isdigit s = true /\ forallb isdecimal_char s = false)
  /\ forall e,
      post_event 1 (lit "head") (dq "{'a':'\u00b2','b':1}")
                 (lit "nodeA") (lit "mainnet") = Raise e ->
      e = ValueError.
Proof.
  split; [vm_compute; reflexivity |].
  apply (post_event_raises_iff 1 (lit "head") (dq "{'a':'\u00b2','b':1}")
                               (lit "nodeA") (lit "mainnet")).
  vm_compute. reflexivity.
Defined.

End PostEvent.

(** ** How many events are dispatched *)

Section CountProofs.
Import PyStr SseClient Framing Stream Traces.

Variable self : SSEClient.

Lemma dispatch_count_app (a b : list action) :
  dispatch_count (a ++ b) = (dispatch_count a + dispatch_count b)%nat.
Proof. unfold dispatch_count. now rewrite filter_app, length_app. Qed.

Lemma event_lines_app (a b : list str) :
  event_lines (a ++ b) = (event_lines a + event_lines b)%nat.
Proof. unfold event_lines. now rewrite filter_app, length_app. Qed.

Lemma data_lines_app (a b : list str) :
  data_lines (a ++ b) = (data_lines a + data_lines b)%nat.
Proof. unfold data_lines. now rewrite filter_app, length_app. Qed.

Lemma run_event_function_count (k d : str) :
  (dispatch_count (_run_event_function self k d) <= 1)%nat
  /\ (has_on_event self = false ->
      dispatch_count (_run_event_function self k d) = 0%nat).
Proof.
  unfold _run_event_function.
  destruct (has_on_event self); cbn; split; (lia || discriminate || reflexivity).
Qed.

Lemma on_line_count (event_type : option str) (line : str) :
  let '(event_type', acts) := on_line self event_type line in
  (dispatch_count acts + kind_weight event_type'
   <= kind_weight event_type + event_lines [line])%nat
  /\ (dispatch_count acts <= data_lines [line])%nat
  /\ (has_on_event self = false -> dispatch_count acts = 0%nat).
Proof.
  unfold on_line, event_lines, data_lines. cbn [filter].
  destruct (truthy line); cbn [negb].
  2: { cbn. repeat split; lia. }
  destruct (startswith (lit "event:") line).
  - cbn [List.length dispatch_count filter]. unfold kind_weight.
    destruct (have_kind (Some (strip (slice_from 6 line))));
      destruct (have_kind event_type); repeat split; cbn; lia.
  - destruct (startswith (lit "data:") line); cbn [andb].
    2: { cbn. repeat split; lia. }
    unfold kind_weight.
    destruct (have_kind event_type) eqn:Hk; [| cbn; rewrite ?Hk; repeat split; lia].
    destruct event_type as [k |]; [| discriminate].
    destruct (run_event_function_count k (strip (slice_from 5 line))) as [H1 H0].
    cbn [have_kind List.length]. repeat split; [lia | lia | exact H0].
Qed.

Lemma read_lines_count (stop_after : option nat) (lines : list str) :
  forall calls event_type,
    let acts := snd (fst (read_lines self stop_after calls event_type lines)) in
    (dispatch_count acts <= kind_weight event_type + event_lines lines)%nat
    /\ (dispatch_count acts <= data_lines lines)%nat
    /\ (has_on_event self = false -> dispatch_count acts = 0%nat).
Proof.
  induction lines as [| line rest IH]; intros calls event_type; cbn [read_lines].
  - cbn. repeat split; lia.
  - destruct (is_set stop_after calls); [cbn; repeat split; lia |].
    pose proof (on_line_count event_type line) as Hl.
    destruct (on_line self event_type line) as [et' acts].
    specialize (IH (S calls) et').
    destruct (read_lines self stop_after (S calls) et' rest)
      as [[calls' acts'] stopped].
    cbn [fst snd] in *. destruct Hl as (He & Hd & H0). destruct IH as (He' & Hd' & H0').
    rewrite dispatch_count_app.
    change (line :: rest) with ([line] ++ rest).
    rewrite event_lines_app, data_lines_app.
    repeat split; [lia | lia |].
    intros Hno. rewrite (H0 Hno), (H0' Hno). reflexivity.
Qed.

Lemma getSSEStream_from_count (stop_after : option nat) (script : list attempt) :
  forall calls,
    let acts := fst (getSSEStream_from self stop_after calls script) in
    (dispatch_count acts <= event_lines (lines_of script))%nat
    /\ (dispatch_count acts <= data_lines (lines_of script))%nat
    /\ (has_on_event self = false -> dispatch_count acts = 0%nat).
Proof.
  induction script as [| a script' IH]; intros calls; cbn [getSSEStream_from].
  - destruct (is_set stop_after calls); cbn; repeat split; lia.
  - destruct (is_set stop_after calls); [cbn; repeat split; lia |].
    assert (Hrest : forall calls' (acts : list action) (ls : list str),
               lines_of (a :: script') = ls ++ lines_of script' ->
               (dispatch_count acts <= event_lines ls)%nat ->
               (dispatch_count acts <= data_lines ls)%nat ->
               (has_on_event self = false -> dispatch_count acts = 0%nat) ->
               let acts0 :=
                 fst (let '(acts', out) :=
                        getSSEStream_from self stop_after calls' script' in
                      (acts ++ acts', out)) in
               (dispatch_count acts0 <= event_lines (lines_of (a :: script')))%nat
               /\ (dispatch_count acts0 <= data_lines (lines_of (a :: script')))%nat
               /\ (has_on_event self = false -> dispatch_count acts0 = 0%nat)).
    { intros calls' acts ls Hls He Hd H0. specialize (IH calls').
      destruct (getSSEStream_from self stop_after calls' script') as [acts' out].
      cbn [fst] in *. destruct IH as (He' & Hd' & H0').
      rewrite Hls, dispatch_count_app, event_lines_app, data_lines_app.
      repeat split; [lia | lia |].
      intros Hno. rewrite (H0 Hno), (H0' Hno). reflexivity. }
    destruct a as [e | r].
    + destruct (caught e).
      * apply (Hrest (S calls) _ []); [reflexivity | cbn; lia .. | reflexivity].
      * cbn. repeat split; lia.
    + destruct (negb (Z.eqb (status_code r) 200)).
      * apply (Hrest (S calls) _ (body r)); [reflexivity | cbn; lia .. | reflexivity].
      * pose proof (read_lines_count stop_after (body r) (S calls) None) as Hread.
        destruct (read_lines self stop_after (S calls) None (body r))
          as [[calls' acts] stopped].
        cbn [fst snd kind_weight have_kind] in Hread.
        destruct Hread as (He & Hd & H0).
        assert (Hc : dispatch_count (Connect :: acts) = dispatch_count acts)
          by reflexivity.
        assert (Hs : dispatch_count ((Connect :: acts) ++ [Sleep (retry_delay self)])
                     = dispatch_count acts).
        { rewrite dispatch_count_app, Hc. cbn. lia. }
        destruct stopped;
          [apply (Hrest calls' _ (body r));
           [reflexivity | rewrite Hc; lia | rewrite Hc; lia | now rewrite Hc] |].
        destruct (body_end r) as [e |];
          [| apply (Hrest calls' _ (body r));
             [reflexivity | rewrite Hc; lia | rewrite Hc; lia | now rewrite Hc]].
        destruct (caught e).
        -- apply (Hrest calls' _ (body r));
             [reflexivity | rewrite Hs; lia | rewrite Hs; lia | now rewrite Hs].
        -- cbn [fst]. rewrite Hc.
           change (lines_of (Connected r :: script'))
             with (body r ++ lines_of script').
           rewrite event_lines_app, data_lines_app.
           repeat split; [lia | lia | exact H0].
Qed.

End CountProofs.

Section Counts.
Import PyStr SseClient Framing Stream Traces.

(** X14. However the network behaves and whenever a stop is requested,
    [getSSEStream] hands to the handler at most one event per event line
    received and at most one per data line received: no line is
    dispatched twice. *)
Theorem dispatches_bounded_by_lines
        (self : SSEClient) (stop_after : option nat) (script : list attempt) :
  (dispatch_count (fst (getSSEStream self stop_after script))
   <= Nat.min (event_lines (lines_of script)) (data_lines (lines_of script)))%nat.
Proof.
  destruct (getSSEStream_from_count self stop_after script 0) as (He & Hd & _).
  unfold getSSEStream. lia.
Qed.

(** X15. A client built without [on_event] never calls a handler. *)
Theorem no_handler_no_dispatch
        (self : SSEClient) (stop_after : option nat) (script : list attempt) :
  has_on_event self = false ->
  forall k d, ~ In (Dispatch k d) (fst (getSSEStream self stop_after script)).
Proof.
  intros Hno k d Hin.
  destruct (getSSEStream_from_count self stop_after script 0) as (_ & _ & H0).
  specialize (H0 Hno). unfold getSSEStream in Hin.
  unfold dispatch_count in H0.
  assert (Hf : In (Dispatch k d)
                  (filter is_dispatch (fst (getSSEStream_from self stop_after 0 script))))
    by (apply filter_In; split; [exact Hin | reflexivity]).
  destruct (filter is_dispatch (fst (getSSEStream_from self stop_after 0 script)));
    [destruct Hf | discriminate].
Qed.

Lemma no_handler_no_dispatch_witness :
  has_on_event silent = false
  /\ forall k d,
      ~ In (Dispatch k d) (fst (getSSEStream silent None [Connected one_event])).
Proof.
  split; [reflexivity |].
  apply (no_handler_no_dispatch silent None [Connected one_event]).
  reflexivity.
Defined.

End Counts.

(** ** Exceptions that leave the loop *)

Section EscapeProofs.
Import PyStr SseClient Framing Stream Traces.

Variable self : SSEClient.

Lemma getSSEStream_from_app (pre rest : list attempt) :
  forallb only_Exceptions pre = true ->
  forall calls,
  exists calls',
    getSSEStream_from self None calls (pre ++ rest)
    = (flat_map (attempt_trace self) pre
         ++ fst (getSSEStream_from self None calls' rest),
       snd (getSSEStream_from self None calls' rest)).
Proof.
  induction pre as [| a pre' IH]; intros Hok calls.
  - exists calls. cbn [app flat_map].
    now destruct (getSSEStream_from self None calls rest).
  - cbn [forallb] in Hok. apply andb_true_iff in Hok as [Ha Hrest].
    specialize (IH Hrest).
    assert (Hstep : forall calls0 (acts : list action),
               exists calls',
                 (let '(acts', out) :=
                    getSSEStream_from self None calls0 (pre' ++ rest) in
                  (acts ++ acts', out))
                 = ((acts ++ flat_map (attempt_trace self) pre')
                      ++ fst (getSSEStream_from self None calls' rest),
                    snd (getSSEStream_from self None calls' rest))).
    { intros calls0 acts. destruct (IH calls0) as [calls' ->].
      exists calls'. now rewrite app_assoc. }
    cbn [app getSSEStream_from is_set flat_map].
    destruct a as [e | r]; cbn [only_Exceptions attempt_trace] in Ha |- *.
    + rewrite (caught_Exception _ Ha).
      apply (Hstep (S calls) [Connect; Sleep (retry_delay self)]).
    + destruct (negb (Z.eqb (status_code r) 200));
        [apply (Hstep (S calls) [Connect; Sleep (retry_delay self)]) |].
      rewrite read_lines_without_stop.
      destruct (parse_from_refines_run self (body r) None) as [_ Hparse].
      cbn [state_of] in Hparse. rewrite Hparse.
      destruct (body_end r) as [e |].
      * rewrite (caught_Exception _ Ha).
        destruct (Hstep (S calls + List.length (body r))%nat
                        ((Connect :: dispatches self
                                    (snd (run step_guarded IDLE (body r))))
                           ++ [Sleep (retry_delay self)])) as [calls' Hc].
        exists calls'. etransitivity; [exact Hc |].
        cbn [app flat_map]. now rewrite <- !app_assoc.
      * destruct (Hstep (S calls + List.length (body r))%nat
                        (Connect :: dispatches self
                                   (snd (run step_guarded IDLE (body r)))))
          as [calls' Hc].
        exists calls'. etransitivity; [exact Hc |].
        cbn [app flat_map]. now rewrite app_nil_r.
Qed.

Lemma getSSEStream_from_escape (a : attempt) (post : list attempt) (e : exn) :
  escapes a = Some e ->
  forall calls,
    getSSEStream_from self None calls (a :: post) = (last_trace self a, Raised e).
Proof.
  intros He calls. cbn [getSSEStream_from is_set].
  destruct a as [e0 | r]; cbn [escapes last_trace] in He |- *.
  - destruct (caught e0); [discriminate |]. now injection He as ->.
  - destruct (negb (Z.eqb (status_code r) 200)); [discriminate |].
    rewrite read_lines_without_stop.
    destruct (parse_from_refines_run self (body r) None) as [_ Hparse].
    cbn [state_of] in Hparse. rewrite Hparse.
    destruct (body_end r) as [e0 |]; [| discriminate].
    destruct (caught e0); [discriminate |]. now injection He as ->.
Qed.

End EscapeProofs.

Section Escape.
Import PyStr SseClient Framing Stream Traces.

(** X16. With a delay [time.sleep] accepts, an exception that is not
    derived from [Exception], raised by the connect or by the body read of
    a response with status 200, leaves [getSSEStream] at once: the events
    read before it have been dispatched, no sleep follows, and the rest of
    the script is not attempted. *)
Theorem uncaught_exception_ends_the_loop
        (self : SSEClient) (pre : list attempt) (a : attempt)
        (post : list attempt) (e : exn) :
  valid_delay (retry_delay self) = true ->
  forallb only_Exceptions pre = true ->
  escapes a = Some e ->
  getSSEStream self None (pre ++ a :: post)
  = (flat_map (attempt_trace self) pre ++ last_trace self a, Raised e).
Proof.
  intros _ Hok He. unfold getSSEStream.
  destruct (getSSEStream_from_app self pre (a :: post) Hok 0) as [calls' ->].
  now rewrite (getSSEStream_from_escape self a post He calls').
Qed.

Lemma uncaught_exception_ends_the_loop_witness :
  getSSEStream client None
    ([Connected unavailable] ++ Connected interrupted :: [Connected one_event])
  = ([Connect; Sleep (retry_delay client);
      Connect; Dispatch (lit "head") (lit "{}")],
     Raised KeyboardInterrupt).
Proof.
  apply (uncaught_exception_ends_the_loop
           client [Connected unavailable] (Connected interrupted)
           [Connected one_event]); reflexivity.
Defined.

End Escape.

(** ** Field values are never empty *)

Section ValueProofs.
Import PyStr PyNum Json Main Leaves.

Lemma truthy_app_l (a b : str) : truthy a = true -> truthy (a ++ b) = true.
Proof. destruct a; [discriminate | reflexivity]. Qed.

Lemma truthy_app_r (a b : str) : truthy b = true -> truthy (a ++ b) = true.
Proof. destruct a; [now intros | reflexivity]. Qed.

Lemma str_of_int_truthy (z : Z) : truthy (str_of_int z) = true.
Proof.
  assert (Hp : forall p, truthy (N_digits (Npos p)) = true).
  { intros p. unfold N_digits. cbn [N.to_uint].
    pose proof (DecimalPos.Unsigned.to_uint_nonnil p) as Hnil.
    destruct (Pos.to_uint p); [congruence | reflexivity ..]. }
  destruct z as [| p | p]; cbn [str_of_int]; [reflexivity | apply Hp |].
  reflexivity.
Qed.

Lemma format_digits_truthy (ds : str) (decpt : Z) :
  truthy (format_digits ds decpt) = true.
Proof.
  unfold format_digits.
  destruct ((-4 <? decpt)%Z && (decpt <=? 16)%Z).
  - destruct (decpt <=? 0)%Z; [reflexivity |].
    destruct (Z.of_nat (List.length ds) <=? decpt)%Z.
    + apply truthy_app_r, truthy_app_r. reflexivity.
    + apply truthy_app_r. reflexivity.
  - apply truthy_app_r. reflexivity.
Qed.

Lemma str_of_float_truthy (f : float) : truthy (str_of_float f) = true.
Proof.
  destruct f as [[|] | [|] | | neg m e]; try reflexivity.
  cbn [str_of_float]. destruct (shortest_digits m e) as [ds decpt].
  apply truthy_app_r, format_digits_truthy.
Qed.

Lemma flatten_leaf_values (a : scalar) (prefix : str) (sub : Dict.dict str) :
  flatten_leaf a prefix = Ok sub ->
  forall k v, In (k, v) sub -> truthy v = true.
Proof.
  unfold flatten_leaf. intros H k v Hin.
  assert (Hone : forall w, sub = Dict.set Dict.empty prefix w ->
                           truthy w = true -> truthy v = true).
  { intros w -> Hw. destruct Hin as [[= _ <-] | []]. exact Hw. }
  destruct a as [| b | z | f | s].
  - injection H as <-. now apply (Hone (quoted (py_str SNone))).
  - injection H as <-. apply (Hone (py_str (SBool b))); [reflexivity |].
    now destruct b.
  - injection H as <-. apply (Hone (py_str (SInt z))); [reflexivity |].
    apply str_of_int_truthy.
  - injection H as <-. apply (Hone (py_str (SFloat f))); [reflexivity |].
    apply str_of_float_truthy.
  - destruct (startswith (lit "0x") s).
    + injection H as <-. now apply (Hone (quoted s)).
    + destruct (isdigit s).
      * destruct (int_of_str s) as [n |]; cbn [bind] in H; [| discriminate].
        injection H as <-. apply (Hone (str_of_int n ++ lit "i")); [reflexivity |].
        now apply truthy_app_r.
      * destruct (float_of_str s) as [f | []]; try discriminate;
          injection H as <-.
        -- apply (Hone (py_str (SFloat f))); [reflexivity |].
           apply str_of_float_truthy.
        -- now apply (Hone (quoted s)).
Qed.

Lemma In_set (V : Type) (d : Dict.dict V) (k' : str) (v' : V) (k : str) (v : V) :
  In (k, v) (Dict.set d k' v') -> In (k, v) d \/ (k, v) = (k', v').
Proof.
  induction d as [| [k0 v0] d IH]; cbn [Dict.set].
  - intros [H | []]. right. now symmetry.
  - destruct (eqb k0 k') eqn:E.
    + apply eqb_eq in E. subst k0. intros [H | H]; [right; now symmetry |].
      left. now right.
    + intros [H | H]; [left; now left |].
      destruct (IH H) as [H' | H']; [left; now right | now right].
Qed.

Lemma In_update (es : list (str * str)) :
  forall (a : Dict.dict str) k v,
    In (k, v) (Dict.update a es) -> In (k, v) a \/ In (k, v) es.
Proof.
  induction es as [| [k' v'] es IH]; intros a k v H; [now left |].
  change (Dict.update a ((k', v') :: es)) with (Dict.update (Dict.set a k' v') es) in H.
  destruct (IH _ _ _ H) as [H' | H']; [| right; now right].
  destruct (In_set _ _ _ _ _ H') as [H'' | H'']; [now left |].
  right. left. now symmetry.
Qed.

Lemma render_leaves_values (leaves : list (str * scalar)) :
  forall entries,
    render_leaves leaves = Ok entries ->
    forall k v, In (k, v) entries -> truthy v = true.
Proof.
  induction leaves as [| [path a] ls IH]; intros entries H k v Hin;
    cbn [render_leaves] in H.
  - injection H as <-. destruct Hin.
  - destruct (flatten_leaf a path) as [sub |] eqn:Hl; cbn [bind] in H;
      [| discriminate].
    destruct (render_leaves ls) as [rest |]; cbn [bind] in H; [| discriminate].
    injection H as <-. apply in_app_or in Hin as [Hin | Hin].
    + exact (flatten_leaf_values _ _ Hl _ _ Hin).
    + exact (IH _ eq_refl _ _ Hin).
Qed.

End ValueProofs.

Section Values.
Import PyStr PyNum Json Main Leaves.

(** X17. Whatever the payload, no field of a flattened payload has an
    empty value: every entry [k=v] of the line has something after the
    equals sign. *)
Theorem field_values_are_not_empty
        (data : value) (prefix : str) (items : Dict.dict str) :
  flatten_json data prefix = Ok items ->
  forall k v, In (k, v) items -> truthy v = true.
Proof.
  rewrite flatten_json_by_leaves.
  destruct (render_leaves (kept_leaves data prefix)) as [entries |] eqn:Hr;
    cbn [bind]; [| discriminate].
  intros [= <-] k v Hin. unfold dict_of in Hin.
  apply In_update in Hin as [[] | Hin].
  exact (render_leaves_values _ Hr _ _ Hin).
Qed.

Lemma field_values_are_not_empty_witness :
  flatten_json Samples.nested [] = Ok [(lit "data_d", lit "7i")]
  /\ forall k v, In (k, v) [(lit "data_d", lit "7i")] -> truthy v = true.
Proof.
  split; [vm_compute; reflexivity |].
  apply (@field_values_are_not_empty Samples.nested [] [(lit "data_d", lit "7i")]).
  vm_compute. reflexivity.
Defined.

End Values.
